(** * go-seele (one shard): genesis, peer protocol, synchroniser, miner

    A shallow embedding of the parts of the node that the specification
    talks about, followed by the properties established for them.

    Conventions.
    - Go integers are [Z]; the wrap-around of [uint64] arithmetic is written
      out with [u64].
    - A [common.Hash] (32 bytes) is the integer it denotes when read
      big-endian, which is also how the miner turns it into a [big.Int];
      [EmptyHash] is 0.
    - A byte slice is a [list Z] of values below 256.
    - A Go [error] result is an [option error] ([None] is [nil]); a pair
      [(value, error)] is a [result].
    - Calls into collaborators whose code lives in other packages (stores,
      pools, the downloader, the p2p transport, hashing, serialization) are
      either fields of an interface class or entries of an effect trace. *)

From Stdlib Require Import ZArith Lia List Bool String.
From stdpp Require Import base option list gmap.

Local Open Scope Z_scope.

(* ===================================================================== *)
(** ** common *)
(* ===================================================================== *)

Module Common.

Definition Hash := Z.
Definition Address := Z.
Definition EmptyHash : Hash := 0.
Definition EmptyAddress : Address := 0.

(** [Hash.IsEmpty] *)
Definition IsEmpty (h : Hash) : bool := h =? EmptyHash.

(** [Hash.Equal] *)
Definition HashEqual (a b : Hash) : bool := a =? b.

Definition MaxUint64 : Z := 2 ^ 64 - 1.

(** Reduction of an integer expression to its [uint64] value. *)
Definition u64 (z : Z) : Z := z mod 2 ^ 64.

Definition isU64 (z : Z) : Prop := 0 <= z <= MaxUint64.

Inductive error : Type :=
  | ErrNotFound                       (* leveldb errors.ErrNotFound *)
  | ErrGenesisHashMismatch
  | ErrGenesisNotFound
  | ErrMinerIsRunning
  | ErrMinerIsStopped
  | ErrNodeIsSyncing
  | ErrIsSynchronising                (* downloader.ErrIsSynchronising *)
  | ErrorsNew (msg : string)          (* errors.New(msg) *)
  | Errorf (msg : string) (cause : error)   (* fmt.Errorf(msg, cause) *)
  | ErrOther (code : Z).              (* any other error of a collaborator *)

(** [err == errors.ErrNotFound] *)
Definition isErrNotFound (e : error) : bool :=
  match e with ErrNotFound => true | _ => false end.

(** [err == downloader.ErrIsSynchronising] *)
Definition isErrIsSynchronising (e : error) : bool :=
  match e with ErrIsSynchronising => true | _ => false end.

Inductive result (A : Type) : Type :=
  | Ok (a : A)
  | Err (e : error).
Arguments Ok {A} a.
Arguments Err {A} e.

End Common.
Export Common.

(* ===================================================================== *)
(** ** core/types: the fields of headers, blocks, transactions and debts
       that the modelled functions read or write *)
(* ===================================================================== *)

Module Types.

Record BlockHeader : Type := {
    PreviousBlockHash : Hash;
    Creator : Address;
    TxHash : Hash;
    Difficulty : Z;
    Height : Z;
    CreateTimestamp : Z;
    Nonce : Z;
    ExtraData : list Z
  }.

Record Transaction : Type := {
    tx_Hash : Hash;
    tx_From : Address;
    tx_To : Address;
    tx_Amount : Z;
    tx_AccountNonce : Z
  }.

Record Block : Type := {
    HeaderHash : Hash;
    Header : BlockHeader;
    Transactions : list Transaction;
    block_ChainNum : Z
  }.

Record Debt : Type := {
    debt_Hash : Hash;
    debt_Shard : Z;
    debt_ChainNum : Z;
    debt_Amount : Z
  }.

End Types.
Export Types.

(* ===================================================================== *)
(** ** An RLP codec for a struct with one unsigned field.

    [common.Serialize] and [common.Deserialize] are outside the modelled
    sources; the genesis code below is stated over any codec. This module
    gives the concrete one used to instantiate it: the recursive length
    prefix encoding of a one-field list holding an unsigned integer, with
    the canonical-form checks of the decoder. *)
(* ===================================================================== *)

Module Rlp.

(** Minimal big-endian digits of [n], at most [fuel] of them. *)
Fixpoint putUint (fuel : nat) (n : Z) : list Z :=
  match fuel with
  | O => []
  | S f => if n =? 0 then [] else putUint f (n / 256) ++ [n mod 256]
  end.

Definition beVal (bs : list Z) : Z :=
  fold_left (fun acc b => acc * 256 + b) bs 0.

Definition len (bs : list Z) : Z := Z.of_nat (length bs).

Definition encodeUint (n : Z) : list Z :=
  if n =? 0 then [128]
  else if n <? 128 then [n]
  else let bs := putUint 8 n in (128 + len bs) :: bs.

Definition encodeStruct1 (n : Z) : list Z :=
  let payload := encodeUint n in (192 + len payload) :: payload.

Definition errCanon : error := ErrorsNew "rlp: non-canonical integer".
Definition errSize : error := ErrorsNew "rlp: non-canonical size information".
Definition errShape : error := ErrorsNew "rlp: unexpected input".

Definition decodeUint (bs : list Z) : result Z :=
  match bs with
  | [] => Err errShape
  | b :: rest =>
      if b <? 128 then
        match rest with
        | [] => if b =? 0 then Err errCanon else Ok b
        | _ => Err errShape
        end
      else if b <=? 136 then
        if len rest =? b - 128 then
          match rest with
          | [] => Ok 0
          | r0 :: _ =>
              if r0 =? 0 then Err errCanon
              else if (b =? 129) && (r0 <? 128) then Err errSize
              else Ok (beVal rest)
          end
        else Err errShape
      else Err errShape
  end.

Definition decodeStruct1 (bs : list Z) : result Z :=
  match bs with
  | [] => Err errShape
  | b :: rest =>
      if (192 <=? b) && (b <=? 247) && (len rest =? b - 192)
      then decodeUint rest
      else Err errShape
  end.

End Rlp.

(* ===================================================================== *)
(** ** core: genesis *)
(* ===================================================================== *)

Module Core.

Definition genesisBlockHeight : Z := 0.

(** [GenesisInfo]: [Accounts] maps an address to its balance. *)
Record GenesisInfo : Type := {
    Accounts : gmap Z Z;
    Difficult : Z;
    ShardNumber : Z
  }.

Record genesisExtraData : Type := { extra_ShardNumber : Z }.

Record Genesis : Type := {
    header : BlockHeader;
    Info : GenesisInfo
  }.

(** What the genesis code calls in [crypto], [types] and [common]. *)
Class Deps : Type := {
    headerHash : BlockHeader -> Hash;                       (* header.Hash() *)
    MerkleRootHash : list Transaction -> Hash;
    SerializePanic : genesisExtraData -> list Z;
    Deserialize : list Z -> result genesisExtraData
  }.

(** [store.BlockchainStore], restricted to the methods the genesis code
    calls. The store is passed explicitly: a read returns a result, a
    write returns the new store and the error. *)
Class BlockchainStore (S : Type) : Type := {
    GetBlockHash : S -> Z -> result Hash;
    GetBlock : S -> Hash -> result Block;
    PutBlockHeader : S -> Hash -> BlockHeader -> Z -> bool -> S * option error
  }.

Section Genesis.
Context {deps : Deps}.

Definition GetGenesis (info : GenesisInfo) : Genesis :=
  let info :=
    if Difficult info <=? 0
    then {| Accounts := Accounts info; Difficult := 1;
            ShardNumber := ShardNumber info |}
    else info in
  let extraData := {| extra_ShardNumber := ShardNumber info |} in
  {| header := {| PreviousBlockHash := EmptyHash;
                  Creator := EmptyAddress;
                  TxHash := MerkleRootHash [];
                  Difficulty := Difficult info;
                  Height := genesisBlockHeight;
                  CreateTimestamp := 0;
                  Nonce := 1;
                  ExtraData := SerializePanic extraData |};
     Info := info |}.

Definition GetShardNumber (genesis : Genesis) : Z :=
  ShardNumber (Info genesis).

Definition getGenesisExtraData (genesisBlock : Block)
  : result genesisExtraData :=
  if negb (Height (Header genesisBlock) =? genesisBlockHeight) then
    Err (ErrorsNew "invalid genesis block height")
  else
    match Deserialize (ExtraData (Header genesisBlock)) with
    | Err err => Err err
    | Ok data => Ok data
    end.

Context {S : Type} {bcs : BlockchainStore S}.

(** [genesis.store] *)
Definition store (genesis : Genesis) (bcStore : S) : S * option error :=
  PutBlockHeader bcStore (headerHash (header genesis)) (header genesis)
                 (Difficulty (header genesis)) true.

Definition InitializeAndValidate (genesis : Genesis) (bcStore : S)
  : S * option error :=
  match GetBlockHash bcStore genesisBlockHeight with
  | Err err =>
      if isErrNotFound err then store genesis bcStore
      else (bcStore, Some err)
  | Ok storedGenesisHash =>
      match GetBlock bcStore storedGenesisHash with
      | Err err =>
          (bcStore, Some (Errorf "failed to get genesis block. %s" err))
      | Ok storedGenesis =>
          match getGenesisExtraData storedGenesis with
          | Err err =>
              (bcStore,
               Some (Errorf "failed to get genesis extra data. %s" err))
          | Ok data =>
              if negb (extra_ShardNumber data
                         =? ShardNumber (Info genesis)) then
                (bcStore,
                 Some (ErrorsNew
                   "specific shard number does not match with the shard number in genesis info"))
              else
                let headerHash := headerHash (header genesis) in
                if negb (HashEqual headerHash storedGenesisHash) then
                  (bcStore, Some ErrGenesisHashMismatch)
                else (bcStore, None)
          end
      end
  end.

(** The height-0 block of the store carries, in its extra data, a
    shard number other than the one of [info]. *)
Definition storedShardDiffers (info : GenesisInfo) (bcStore : S) : Prop :=
  exists hash blk data,
    GetBlockHash bcStore genesisBlockHeight = Ok hash
    /\ GetBlock bcStore hash = Ok blk
    /\ Height (Header blk) = genesisBlockHeight
    /\ Deserialize (ExtraData (Header blk)) = Ok data
    /\ extra_ShardNumber data <> ShardNumber info.

(** The height-0 block of the store is the genesis block of [info]. *)
Definition storedGenesisMatches (info : GenesisInfo) (bcStore : S) : Prop :=
  exists blk,
    GetBlockHash bcStore genesisBlockHeight
      = Ok (headerHash (header (GetGenesis info)))
    /\ GetBlock bcStore (headerHash (header (GetGenesis info))) = Ok blk
    /\ Header blk = header (GetGenesis info).

(** The store has no block at height 0. *)
Definition noGenesis (bcStore : S) : Prop :=
  GetBlockHash bcStore genesisBlockHeight = Err ErrNotFound.

End Genesis.

(** The codec gives back the extra data it was given. *)
Definition codecRoundTrips {deps : Deps} : Prop :=
  forall d, isU64 (extra_ShardNumber d) -> Deserialize (SerializePanic d) = Ok d.

(** *** A store instance *)

(** Modelled from the spec: the blockchain store itself (package
    [core/store]) is not among the sources; the spec describes it as a
    persistent key-value store for headers, bodies, the hash and height
    indexes and total difficulty. A header written as head becomes the
    block of its height and the head of the chain. *)
Record MemStore : Type := {
    ms_headers : gmap Z BlockHeader;
    ms_bodies : gmap Z (list Transaction);
    ms_tds : gmap Z Z;
    ms_heightToHash : gmap Z Z;
    ms_head : option Hash
  }.

Definition emptyStore : MemStore :=
  {| ms_headers := ∅; ms_bodies := ∅; ms_tds := ∅;
     ms_heightToHash := ∅; ms_head := None |}.

Definition ms_GetBlockHash (s : MemStore) (height : Z) : result Hash :=
  match ms_heightToHash s !! height with
  | Some h => Ok h
  | None => Err ErrNotFound
  end.

Definition ms_GetBlock (s : MemStore) (hash : Hash) : result Block :=
  match ms_headers s !! hash with
  | None => Err ErrNotFound
  | Some hd =>
      Ok {| HeaderHash := hash; Header := hd;
            Transactions := default [] (ms_bodies s !! hash);
            block_ChainNum := 0 |}
  end.

Definition ms_PutBlockHeader (s : MemStore) (hash : Hash)
    (hd : BlockHeader) (td : Z) (isHead : bool) : MemStore * option error :=
  ({| ms_headers := <[hash := hd]> (ms_headers s);
      ms_bodies := ms_bodies s;
      ms_tds := <[hash := td]> (ms_tds s);
      ms_heightToHash :=
        if isHead then <[Height hd := hash]> (ms_heightToHash s)
        else ms_heightToHash s;
      ms_head := if isHead then Some hash else ms_head s |}, None).

#[export] Instance memStore : BlockchainStore MemStore :=
  {| GetBlockHash := ms_GetBlockHash;
     GetBlock := ms_GetBlock;
     PutBlockHeader := ms_PutBlockHeader |}.

(** *** A concrete set of dependencies: RLP for the extra data and a
    header digest that folds every field of the header. *)
Definition foldDigest (h : BlockHeader) : Hash :=
  fold_left (fun acc x => (acc * 1000003 + x) mod 2 ^ 256)
    ([PreviousBlockHash h; Creator h; TxHash h; Difficulty h; Height h;
      CreateTimestamp h; Nonce h] ++ ExtraData h) 7.

Definition rlpDeps : Deps :=
  {| headerHash := foldDigest;
     MerkleRootHash := fun txs => fold_left (fun acc t => (acc * 31 + tx_Hash t) mod 2 ^ 256) txs 1;
     SerializePanic := fun d => Rlp.encodeStruct1 (extra_ShardNumber d);
     Deserialize := fun bs =>
       match Rlp.decodeStruct1 bs with
       | Ok n => Ok {| extra_ShardNumber := n |}
       | Err e => Err e
       end |}.

(** Two configurations that differ in the shard, and the stores they
    initialise. *)
Definition infoShard1 : GenesisInfo :=
  {| Accounts := {[ 17 := 1000 ]}; Difficult := 0; ShardNumber := 1 |}.
Definition infoShard2 : GenesisInfo :=
  {| Accounts := {[ 17 := 1000 ]}; Difficult := 0; ShardNumber := 2 |}.
Definition storeShard1 : MemStore :=
  fst (InitializeAndValidate (deps := rlpDeps)
         (GetGenesis (deps := rlpDeps) infoShard1) emptyStore).
Definition storeShard2 : MemStore :=
  fst (InitializeAndValidate (deps := rlpDeps)
         (GetGenesis (deps := rlpDeps) infoShard2) emptyStore).

(** *** The genesis state *)

(** Modelled from the spec: the account state (package [core/state]) is
    not among the sources; the spec describes it as the shared world
    state, address to balance and nonce. [CreateAccount] enters the
    account with balance and nonce 0, [SetBalance] sets the balance of
    an account that exists. *)
Record Account : Type := { acc_Balance : Z; acc_Nonce : Z }.

Abbreviation Statedb := (gmap Address Account).

Definition CreateAccount (addr : Address) (s : Statedb) : Statedb :=
  <[addr := {| acc_Balance := 0; acc_Nonce := 0 |}]> s.

Definition SetBalance (addr : Address) (amount : Z) (s : Statedb) : Statedb :=
  match s !! addr with
  | Some a => <[addr := {| acc_Balance := amount; acc_Nonce := acc_Nonce a |}]> s
  | None => s
  end.

(** What [GetStateDB] reads besides the configuration. *)
Record StateEnv : Type := {
    IsShardEnabled : bool;               (* common.IsShardEnabled() *)
    addrShard : Address -> Z;            (* addr.Shard() *)
    NewStatedb_err : option error        (* state.NewStatedb(common.EmptyHash, nil) *)
  }.

(** The body of the loop over [info.Accounts]. *)
Definition addGenesisAccount (senv : StateEnv) (info : GenesisInfo)
    (statedb : Statedb) (entry : Address * Z) : Statedb :=
  let '(addr, amount) := entry in
  if negb (IsShardEnabled senv) || (addrShard senv addr =? ShardNumber info)
  then SetBalance addr amount (CreateAccount addr statedb)
  else statedb.

(** [GetStateDB], given the order in which the [range] visits the
    entries of the map, which Go leaves open. *)
Definition GetStateDBIn (senv : StateEnv) (visited : list (Address * Z))
    (info : GenesisInfo) : result Statedb :=
  match NewStatedb_err senv with
  | Some err => Err err
  | None => Ok (fold_left (addGenesisAccount senv info) visited ∅)
  end.

Definition GetStateDB (senv : StateEnv) (info : GenesisInfo)
  : result Statedb :=
  GetStateDBIn senv (map_to_list (Accounts info)) info.

(** Sharding is on and the shard of an address is its residue modulo 4. *)
Definition shardedState : StateEnv :=
  {| IsShardEnabled := true; addrShard := fun a => a mod 4;
     NewStatedb_err := None |}.

(** A configuration of shard 1 with an account of shard 1 and one of
    shard 2, and a configuration that differs from [infoShard1] in the
    accounts only. *)
Definition infoTwoAccounts : GenesisInfo :=
  {| Accounts := {[ 17 := 1000; 18 := 500 ]}; Difficult := 0;
     ShardNumber := 1 |}.
Definition infoOtherAccounts : GenesisInfo :=
  {| Accounts := {[ 21 := 7 ]}; Difficult := 1; ShardNumber := 1 |}.

End Core.

(* ===================================================================== *)
(** ** miner *)
(* ===================================================================== *)

Module Miner.

Definition numOfChains : nat := 3.
Definition StartHeightOfGetMiningKeyFromChain : Z := 4.
Definition longDist : Z := 3.
Definition shortDist : Z := 1.

(** [MiningDataPack]: the two arrays have [numOfChains] entries. *)
Record MiningDataPack : Type := {
    Heights : list Z;
    TxHashes : list Hash;
    dp_Nonce : Z
  }.

Record Task : Type := {
    task_id : Z;                 (* identity of the task object *)
    task_header : BlockHeader;
    task_coinbase : Address;
    task_chainNum : Z
  }.

Record Result : Type := {
    res_task : Task;
    res_block : Block
  }.

(** The fields of [Miner]. A channel field holds [None] for [nil] and
    otherwise the identity of the channel made for it. *)
Record Miner : Type := {
    coinbase : Address;
    mining : Z;
    canStart : Z;
    stopped : Z;
    stopChan : option nat;
    current : option Task;
    recv : option nat;
    isFirstDownloader : Z;
    threads : Z;
    isFirstBlockPrepared : Z;
    miningKeyHash : Hash
  }.

(** Events of [event.BlockDownloaderEventManager]. *)
Inductive DownloaderEvent : Type :=
  | DownloaderStartEvent
  | DownloaderDoneEvent
  | DownloaderFailedEvent
  | OtherDownloaderEvent (code : Z).

Inductive LogLine : Type :=
  | LogAbort                 (* logAbort(miner.log) *)
  | LogFoundByOther          (* exit key mining as nonce is found by other threads *)
  | LogKeyFound (h : Hash)   (* key mining, nonce finding succeeded *)
  | LogOutage                (* key mining, nonce finding outage *)
  | LogMinerRunning | LogSyncing | LogAnotherGoroutine
  | LogMinerStarted | LogMinerStopped
  | LogWarnErr (e : error).

(** What the miner does to the rest of the process, in order. *)
Inductive Effect : Type :=
  | EHash (nonce : Z)            (* crypto.MustHash(dataPack) at this nonce *)
  | ELog (l : LogLine)
  | EClose (c : nat)             (* close(c) *)
  | EWgWait                      (* miner.wg.Wait() *)
  | EGoWaitBlock                 (* go miner.waitBlock() *)
  | ECommitTask (t : Task)       (* miner.commitTask(task) *)
  | ESleep (seconds : Z)
  | EWriteBlock (b : Block)
  | EFireBlockMined (b : Block).

(** The collaborators of the miner: the chains behind [SeeleBackend],
    the random sources, the clock, hashing, and the goroutines that may
    close [stopChan] while a search polls it. *)
Record Env : Type := {
    chainHeight : nat -> Z;                 (* chains[i].CurrentBlock().Header.Height *)
    GetBlockByHeight : nat -> Z -> result Block;
    GetCurrentInfo : Z -> result Block;     (* blockchains[chainNum].GetCurrentInfo() *)
    randSrc : nat -> Z;                     (* successive raw draws, each >= 0 *)
    nowUnix : Z;
    HashBytes : list Z -> Hash;             (* crypto.HashBytes *)
    MustHash : MiningDataPack -> Hash;      (* crypto.MustHash *)
    GetMiningTarget : Z -> Z;               (* pow.GetMiningTarget *)
    GetDifficult : Z -> BlockHeader -> Z;   (* pow.GetDifficult *)
    applyTransactionsAndDebts : Task -> Task * option error;
    WriteBlock : Block -> option error;
    stopSignal : nat -> bool;               (* answer of the k-th poll of stopChan *)
    NumCPU : Z;                             (* runtime.NumCPU() *)
    fuel : nat                              (* iterations granted to one nonce search *)
  }.

(** The miner together with the bookkeeping of the run. *)
Record World : Type := {
    miner : Miner;
    randPos : nat;          (* draws consumed so far *)
    pollPos : nat;          (* polls of stopChan so far *)
    allocs : nat;           (* channels and tasks made so far *)
    effects : list Effect
  }.

(** A run returns, panics, or does not finish within the fuel. *)
Inductive outcome (A : Type) : Type :=
  | Done (a : A) (w : World)
  | Panic (why : string)
  | Diverge.
Arguments Done {A} a w.
Arguments Panic {A} why.
Arguments Diverge {A}.

Definition M (A : Type) : Type := World -> outcome A.

Definition ret {A} (a : A) : M A := fun w => Done a w.

Definition bind {A B} (c : M A) (k : A -> M B) : M B :=
  fun w => match c w with
           | Done a w' => k a w'
           | Panic why => Panic why
           | Diverge => Diverge
           end.

Notation "'mlet' x := c 'in' k" := (bind c (fun x => k))
  (at level 10, x name, c at level 100, k at level 200,
   format "'[v' 'mlet'  x  :=  c  'in' '/' k ']'").
Notation "c ;; k" := (bind c (fun _ => k))
  (at level 100, right associativity).

Definition getMiner : M Miner := fun w => Done (miner w) w.

Definition emit (e : Effect) : M unit :=
  fun w => Done tt {| miner := miner w; randPos := randPos w;
                      pollPos := pollPos w; allocs := allocs w;
                      effects := effects w ++ [e] |}.

Definition modify (f : Miner -> Miner) : M unit :=
  fun w => Done tt {| miner := f (miner w); randPos := randPos w;
                      pollPos := pollPos w; allocs := allocs w;
                      effects := effects w |}.

Definition panic {A} (why : string) : M A := fun _ => Panic why.

(** Field updates. *)
Definition setMining (v : Z) (m : Miner) : Miner :=
  {| coinbase := coinbase m; mining := v; canStart := canStart m;
     stopped := stopped m; stopChan := stopChan m; current := current m;
     recv := recv m; isFirstDownloader := isFirstDownloader m;
     threads := threads m; isFirstBlockPrepared := isFirstBlockPrepared m;
     miningKeyHash := miningKeyHash m |}.
Definition setCanStart (v : Z) (m : Miner) : Miner :=
  {| coinbase := coinbase m; mining := mining m; canStart := v;
     stopped := stopped m; stopChan := stopChan m; current := current m;
     recv := recv m; isFirstDownloader := isFirstDownloader m;
     threads := threads m; isFirstBlockPrepared := isFirstBlockPrepared m;
     miningKeyHash := miningKeyHash m |}.
Definition setStopped (v : Z) (m : Miner) : Miner :=
  {| coinbase := coinbase m; mining := mining m; canStart := canStart m;
     stopped := v; stopChan := stopChan m; current := current m;
     recv := recv m; isFirstDownloader := isFirstDownloader m;
     threads := threads m; isFirstBlockPrepared := isFirstBlockPrepared m;
     miningKeyHash := miningKeyHash m |}.
Definition setStopChan (v : option nat) (m : Miner) : Miner :=
  {| coinbase := coinbase m; mining := mining m; canStart := canStart m;
     stopped := stopped m; stopChan := v; current := current m;
     recv := recv m; isFirstDownloader := isFirstDownloader m;
     threads := threads m; isFirstBlockPrepared := isFirstBlockPrepared m;
     miningKeyHash := miningKeyHash m |}.
Definition setCurrent (v : option Task) (m : Miner) : Miner :=
  {| coinbase := coinbase m; mining := mining m; canStart := canStart m;
     stopped := stopped m; stopChan := stopChan m; current := v;
     recv := recv m; isFirstDownloader := isFirstDownloader m;
     threads := threads m; isFirstBlockPrepared := isFirstBlockPrepared m;
     miningKeyHash := miningKeyHash m |}.
Definition setRecv (v : option nat) (m : Miner) : Miner :=
  {| coinbase := coinbase m; mining := mining m; canStart := canStart m;
     stopped := stopped m; stopChan := stopChan m; current := current m;
     recv := v; isFirstDownloader := isFirstDownloader m;
     threads := threads m; isFirstBlockPrepared := isFirstBlockPrepared m;
     miningKeyHash := miningKeyHash m |}.
Definition setIsFirstDownloader (v : Z) (m : Miner) : Miner :=
  {| coinbase := coinbase m; mining := mining m; canStart := canStart m;
     stopped := stopped m; stopChan := stopChan m; current := current m;
     recv := recv m; isFirstDownloader := v;
     threads := threads m; isFirstBlockPrepared := isFirstBlockPrepared m;
     miningKeyHash := miningKeyHash m |}.
Definition setThreads (v : Z) (m : Miner) : Miner :=
  {| coinbase := coinbase m; mining := mining m; canStart := canStart m;
     stopped := stopped m; stopChan := stopChan m; current := current m;
     recv := recv m; isFirstDownloader := isFirstDownloader m;
     threads := v; isFirstBlockPrepared := isFirstBlockPrepared m;
     miningKeyHash := miningKeyHash m |}.
Definition setMiningKeyHash (v : Hash) (m : Miner) : Miner :=
  {| coinbase := coinbase m; mining := mining m; canStart := canStart m;
     stopped := stopped m; stopChan := stopChan m; current := current m;
     recv := recv m; isFirstDownloader := isFirstDownloader m;
     threads := threads m; isFirstBlockPrepared := isFirstBlockPrepared m;
     miningKeyHash := v |}.
Definition setCoinbase (v : Address) (m : Miner) : Miner :=
  {| coinbase := v; mining := mining m; canStart := canStart m;
     stopped := stopped m; stopChan := stopChan m; current := current m;
     recv := recv m; isFirstDownloader := isFirstDownloader m;
     threads := threads m; isFirstBlockPrepared := isFirstBlockPrepared m;
     miningKeyHash := miningKeyHash m |}.

Definition setNonce (v : Z) (d : MiningDataPack) : MiningDataPack :=
  {| Heights := Heights d; TxHashes := TxHashes d; dp_Nonce := v |}.

(** [int64(x)] of a [uint64] value. *)
Definition toInt64 (z : Z) : Z := if z <? 2 ^ 63 then z else z - 2 ^ 64.

(** [int2bytes]: the low 32 bits, big-endian. *)
Definition int2bytes (num : Z) : list Z :=
  let v := num mod 2 ^ 32 in
  [v / 2 ^ 24; (v / 2 ^ 16) mod 256; (v / 2 ^ 8) mod 256; v mod 256].

Definition getChainNumByMiningKey (miningKeyHashInt : Z) : Z :=
  miningKeyHashInt mod Z.of_nat numOfChains.

(** [NewMiner]: the receive channel is the first object made. *)
Definition NewMiner (addr : Address) : World :=
  {| miner := {| coinbase := addr; mining := 0; canStart := 1; stopped := 0;
                 stopChan := None; current := None; recv := Some 0%nat;
                 isFirstDownloader := 1; threads := 1;
                 isFirstBlockPrepared := 0; miningKeyHash := EmptyHash |};
     randPos := 0; pollPos := 0; allocs := 1; effects := [] |}.

Section WithEnv.
Variable env : Env.

(** The next raw value of a random source. *)
Definition draw : M Z :=
  fun w => Done (randSrc env (randPos w))
             {| miner := miner w; randPos := S (randPos w);
                pollPos := pollPos w; allocs := allocs w;
                effects := effects w |}.

(** [rand.Intn(n)] and [r.Int63n(n)]: a value in [0, n); both panic
    when [n <= 0]. *)
Definition Intn (n : Z) : M Z :=
  if n <=? 0 then panic "invalid argument to Intn"
  else mlet r := draw in ret (r mod n).

(** [r.Uint64()] *)
Definition Uint64 : M Z := mlet r := draw in ret (u64 r).

(** [make(chan ...)] and [&Task{...}]: a fresh identity. *)
Definition alloc : M nat :=
  fun w => Done (allocs w)
             {| miner := miner w; randPos := randPos w;
                pollPos := pollPos w; allocs := S (allocs w);
                effects := effects w |}.

(** [case <-miner.stopChan] of a [select] with a [default]: a nil
    channel is never ready; otherwise the channel is ready when some
    goroutine has closed it. *)
Definition pollStop : M bool :=
  fun w => match stopChan (miner w) with
           | None => Done false w
           | Some _ =>
               Done (stopSignal env (pollPos w))
                 {| miner := miner w; randPos := randPos w;
                    pollPos := S (pollPos w); allocs := allocs w;
                    effects := effects w |}
           end.

Definition keyTarget : Z := GetMiningTarget env 30000000.

(** The loop of [StartMiningForKey]; [n] bounds its iterations. The
    result is the data pack as last written and the shared
    [isNonceFound] flag. *)
Fixpoint keyMinerLoop (n : nat) (dataPack : MiningDataPack)
    (seed min max nonce : Z) (isNonceFound : Z)
  : M (MiningDataPack * Z) :=
  match n with
  | O => fun _ => Diverge
  | S n' =>
      mlet stop := pollStop in
      if stop : bool then
        (emit (ELog LogAbort) ;; ret (dataPack, isNonceFound))
      else if negb (isNonceFound =? 0) then
        (emit (ELog LogFoundByOther) ;; ret (dataPack, isNonceFound))
      else
        let dataPack := setNonce nonce dataPack in
        emit (EHash nonce) ;;
        let hash := MustHash env dataPack in
        if hash <=? keyTarget then
          (modify (setMiningKeyHash hash) ;;
           mlet stop := pollStop in
           if stop : bool then
             (emit (ELog LogAbort) ;; ret (dataPack, isNonceFound))
           else
             (emit (ELog (LogKeyFound hash)) ;; ret (dataPack, 1)))
        else
          let nonce := if nonce =? max then min else nonce in
          if nonce =? u64 (seed - 1) then
            (mlet stop := pollStop in
             (if stop : bool then emit (ELog LogAbort)
              else emit (ELog LogOutage)) ;;
             ret (dataPack, isNonceFound))
          else
            keyMinerLoop n' dataPack seed min max (u64 (nonce + 1))
                         isNonceFound
  end.

Definition StartMiningForKey (dataPack : MiningDataPack)
    (seed min max : Z) (isNonceFound : Z) : M (MiningDataPack * Z) :=
  keyMinerLoop (fuel env) dataPack seed min max seed isNonceFound.

(** The thread loop of [commitTaskToKeyMining]. Each goroutine is
    waited for inside the loop, so the searches run one after another. *)
Fixpoint keyThreads (idxs : list Z) (threads step : Z)
    (dataPack : MiningDataPack) (isNonceFound : Z)
  : M (MiningDataPack * Z) :=
  match idxs with
  | [] => ret (dataPack, isNonceFound)
  | i :: rest =>
      mlet seed := (if threads =? 1 then Uint64
                    else mlet v := Intn (toInt64 step) in ret (u64 v)) in
      let tSeed := u64 (seed + i * step) in
      let min := u64 (i * step) in
      let max := if negb (i =? threads - 1) then u64 (min + step - 1)
                 else MaxUint64 in
      mlet r := StartMiningForKey dataPack tSeed min max isNonceFound in
      emit EWgWait ;;
      keyThreads rest threads step (fst r) (snd r)
  end.

Definition commitTaskToKeyMining (dataPack : MiningDataPack) : M unit :=
  mlet m := getMiner in
  if negb (mining m =? 1) then ret tt
  else
    let threads := threads m in
    let step := if negb (threads =? 0) then MaxUint64 / u64 threads
                else 0 in
    mlet _ := keyThreads (map Z.of_nat (seq 0 (Z.to_nat threads)))
                         threads step dataPack 0 in
    ret tt.

Inductive LoopExit : Type :=
  | Returned (e : option error)
  | Completed (heights : list Z) (txHashes : list Hash).

(** The loop of [getMiningKey] over the chains [idxs]. *)
Fixpoint getMiningKeyLoop (idxs : list nat) (heights : list Z)
    (txHashes : list Hash) : M LoopExit :=
  match idxs with
  | [] => ret (Completed heights txHashes)
  | i :: rest =>
      let blockHeight := chainHeight env i in
      if blockHeight >? StartHeightOfGetMiningKeyFromChain then
        mlet r := Intn (longDist - shortDist) in
        let h := u64 (u64 r + blockHeight - longDist) in
        let heights := <[i := h]> heights in
        match GetBlockByHeight env i h with
        | Err err => ret (Returned (Some err))
        | Ok blockPicked =>
            let transactions := Transactions blockPicked in
            mlet transactionIndex :=
              Intn (Z.of_nat (length transactions)) in
            match transactions !! Z.to_nat transactionIndex with
            | None => panic "index out of range"
            | Some tx =>
                getMiningKeyLoop rest heights
                                 (<[i := tx_Hash tx]> txHashes)
            end
        end
      else
(* rand.Seed(time.Now().UnixNano()): the draws that follow are
   as arbitrary as before *)
            mlet x := Intn 100000 in
            modify (setMiningKeyHash (HashBytes env (int2bytes x))) ;;
            ret (Returned None)
      end.

Definition getMiningKey : M (option error) :=
  mlet r := getMiningKeyLoop (seq 0 numOfChains)
              (replicate numOfChains 0)
              (replicate numOfChains EmptyHash) in
  match r with
  | Returned e => ret e
  | Completed heights txHashes =>
      commitTaskToKeyMining
        {| Heights := heights; TxHashes := txHashes; dp_Nonce := 0 |} ;;
      ret None
  end.

(** [commitTask]: hands the task to the sealing workers (package
    [pow]) unless the miner is not mining. *)
Definition commitTask (task : Task) : M unit :=
  mlet m := getMiner in
  if negb (mining m =? 1) then ret tt else emit (ECommitTask task).

(** [prepareNewBlock]; the two readings of the clock are taken to give
    the same second. *)
Definition prepareNewBlock (chainNum : Z) : M (option error) :=
  let timestamp := nowUnix env in
  match GetCurrentInfo env chainNum with
  | Err err => ret (Some (Errorf "failed to get current info, %s" err))
  | Ok parent =>
      let timestamp :=
        if CreateTimestamp (Header parent) >=? timestamp
        then CreateTimestamp (Header parent) + 1 else timestamp in
      (if timestamp >? nowUnix env + 1
       then emit (ESleep (timestamp - nowUnix env)) else ret tt) ;;
      mlet m := getMiner in
      let height := Height (Header parent) in
      let difficult := GetDifficult env (u64 timestamp) (Header parent) in
      let header :=
        {| PreviousBlockHash := HeaderHash parent;
           Creator := coinbase m;
           TxHash := EmptyHash;
           Difficulty := difficult;
           Height := u64 (height + 1);
           CreateTimestamp := timestamp;
           Nonce := 0;
           ExtraData := [] |} in
      mlet id := alloc in
      let task := {| task_id := Z.of_nat id; task_header := header;
                     task_coinbase := coinbase m;
                     task_chainNum := chainNum |} in
      let applied := applyTransactionsAndDebts env task in
      modify (setCurrent (Some (fst applied))) ;;
      match snd applied with
      | Some err =>
          ret (Some (Errorf "failed to apply transaction %s" err))
      | None => commitTask (fst applied) ;; ret None
      end
  end.

Definition NewMiningLoop : M (option error) :=
  mlet err := getMiningKey in
  match err with
  | Some e => ret (Some e)
  | None =>
      mlet m := getMiner in
      let chainNum := getChainNumByMiningKey (miningKeyHash m) in
      prepareNewBlock chainNum
  end.

Definition IsMining (m : Miner) : bool := mining m =? 1.

Definition Start : M (option error) :=
  mlet m := getMiner in
  if mining m =? 1 then
    (emit (ELog LogMinerRunning) ;; ret (Some ErrMinerIsRunning))
  else if canStart m =? 0 then
    (emit (ELog LogSyncing) ;; ret (Some ErrNodeIsSyncing))
  else if negb (mining m =? 0) then
(* the compare-and-swap of mining from 0 to 1 failed *)
        (emit (ELog LogAnotherGoroutine) ;; ret None)
      else
        modify (setMining 1) ;;
        mlet c := alloc in
        modify (setStopChan (Some c)) ;;
        mlet err := NewMiningLoop in
        match err with
        | Some e =>
            emit (ELog (LogWarnErr e)) ;;
            modify (setMining 0) ;;
            ret (Some e)
        | None =>
            modify (setStopped 0) ;;
            emit EGoWaitBlock ;;
            emit (ELog LogMinerStarted) ;;
            ret None
        end.

Definition stopMining : M unit :=
  mlet m := getMiner in
  if negb (mining m =? 1) then ret tt
  else
    modify (setMining 0) ;;
    match stopChan m with
    | Some c => emit (EClose c) ;; modify (setStopChan None)
    | None => ret tt
    end ;;
    emit EWgWait ;;
    emit (ELog LogMinerStopped).

Definition Stop : M unit :=
  modify (setStopped 1) ;;
  stopMining.

Definition Close : M unit :=
  mlet m := getMiner in
  match stopChan m with
  | Some c => emit (EClose c) ;; modify (setStopChan None)
  | None => ret tt
  end ;;
  match recv m with
  | Some c => emit (EClose c) ;; modify (setRecv None)
  | None => ret tt
  end.

Definition downloaderEventCallback (e : DownloaderEvent) : M unit :=
  mlet m := getMiner in
  if isFirstDownloader m =? 0 then ret tt
  else
    match e with
    | DownloaderStartEvent =>
        modify (setCanStart 0) ;;
        mlet m := getMiner in
        if IsMining m then stopMining else ret tt
    | DownloaderDoneEvent | DownloaderFailedEvent =>
        modify (setCanStart 1) ;;
        modify (setIsFirstDownloader 0) ;;
        mlet m := getMiner in
        if stopped m =? 0 then (mlet _ := Start in ret tt) else ret tt
    | OtherDownloaderEvent _ => ret tt
    end.

Definition newTxCallback : M unit :=
  mlet m := getMiner in
  if (stopped m =? 0) && (canStart m =? 1) && (mining m =? 0) then
    modify (setMining 1) ;;
    mlet err := NewMiningLoop in
    match err with
    | Some e => emit (ELog (LogWarnErr e)) ;; modify (setMining 0)
    | None => ret tt
    end
  else ret tt.

(** One round of [waitBlock]: a result arrives on [recv]. *)
Definition waitBlockRecv (result : option Result) : M unit :=
  mlet m := getMiner in
  match result with
  | Some res =>
      if match current m with
         | Some t => task_id t =? task_id (res_task res)
         | None => false
         end
      then
        emit (EWriteBlock (res_block res)) ;;
        match WriteBlock env (res_block res) with
        | Some e => emit (ELog (LogWarnErr e))
        | None => emit (EFireBlockMined (res_block res))
        end
      else ret tt
  | None => ret tt
  end ;;
  modify (setMining 0) ;;
  newTxCallback.

(** [SetThreads]; the argument is a [uint], stored as [int(threads)]. *)
Definition SetThreads (threads : Z) : M unit :=
  if u64 threads =? 0 then modify (setThreads (NumCPU env))
  else modify (setThreads (toInt64 (u64 threads))).

(** The calls that drive a miner after [NewMiner]. *)
Inductive Call : Type :=
  | CallStart
  | CallStop
  | CallDownloaderEvent (e : DownloaderEvent)
  | CallNewTx
  | CallBlockResult (r : option Result)
  | CallSetThreads (n : Z).

Definition run (c : Call) : M unit :=
  match c with
  | CallStart => mlet _ := Start in ret tt
  | CallStop => Stop
  | CallDownloaderEvent e => downloaderEventCallback e
  | CallNewTx => newTxCallback
  | CallBlockResult r => waitBlockRecv r
  | CallSetThreads n => SetThreads n
  end.

(** The states a miner can be in: those reached from a new miner by
    calls that return. *)
Inductive reachable : World -> Prop :=
  | reach_new addr : reachable (NewMiner addr)
  | reach_call w c w' :
      reachable w -> run c w = Done tt w' -> reachable w'.

End WithEnv.

(** What [getMiningKey] has recorded for chain [i] in the arrays [hs] and
    [ts]: the head is above the threshold, the height is the head height
    minus [longDist] plus a draw below [longDist - shortDist], and the
    hash is that of a transaction of the block read at that height. *)
Definition sampled (env : Env) (i : nat) (hs : list Z) (ts : list Hash) : Prop :=
  StartHeightOfGetMiningKeyFromChain < chainHeight env i
  /\ exists r blk tx,
       0 <= r < longDist - shortDist
       /\ hs !! i = Some (u64 (r + chainHeight env i - longDist))
       /\ GetBlockByHeight env i (u64 (r + chainHeight env i - longDist)) = Ok blk
       /\ tx ∈ Transactions blk
       /\ ts !! i = Some (tx_Hash tx).

(** *** Concrete nodes used to run the miner *)

Definition blockAt (height : Z) (txs : list Transaction) : Block :=
  {| HeaderHash := 1000 + height;
     Header := {| PreviousBlockHash := 999 + height; Creator := 0;
                  TxHash := 0; Difficulty := 1; Height := height;
                  CreateTimestamp := height; Nonce := 1; ExtraData := [] |};
     Transactions := txs; block_ChainNum := 0 |}.

Definition txWithHash (h : Hash) : Transaction :=
  {| tx_Hash := h; tx_From := 1; tx_To := 2; tx_Amount := 1;
     tx_AccountNonce := 0 |}.

Definition digest (xs : list Z) : Hash :=
  fold_left (fun acc x => (acc * 257 + x + 1) mod 2 ^ 256) xs 1.

(** A node whose chains are all at height 0, with a lenient key target
    that no search ever has to meet. *)
Definition envAtGenesis : Env :=
  {| chainHeight := fun _ => 0;
     GetBlockByHeight := fun _ _ => Err ErrNotFound;
     GetCurrentInfo := fun _ => Ok (blockAt 0 []);
     randSrc := fun k => 7919 * Z.of_nat k + 12345;
     nowUnix := 1700000000;
     HashBytes := digest;
     MustHash := fun d => digest (Heights d ++ TxHashes d ++ [dp_Nonce d]);
     GetMiningTarget := fun difficulty => 2 ^ 256 / difficulty;
     GetDifficult := fun _ parent => Difficulty parent;
     applyTransactionsAndDebts := fun t => (t, None);
     WriteBlock := fun _ => None;
     stopSignal := fun _ => false;
     NumCPU := 4;
     fuel := 64 |}.

(** A node whose chains are all at height 7 and whose blocks hold two
    transactions each; the random source yields the listed draws. *)
Definition envDeep (draws : list Z) : Env :=
  {| chainHeight := fun _ => 7;
     GetBlockByHeight := fun _ h =>
       Ok (blockAt h [txWithHash (100 * h + 1); txWithHash (100 * h + 2)]);
     GetCurrentInfo := fun _ => Ok (blockAt 7 []);
     randSrc := fun k => nth k draws 0;
     nowUnix := 1700000000;
     HashBytes := digest;
     MustHash := fun d => digest (Heights d ++ TxHashes d ++ [dp_Nonce d]);
     GetMiningTarget := fun difficulty => 2 ^ 256 / difficulty;
     GetDifficult := fun _ parent => Difficulty parent;
     applyTransactionsAndDebts := fun t => (t, None);
     WriteBlock := fun _ => None;
     stopSignal := fun _ => false;
     NumCPU := 4;
     fuel := 64 |}.

(** A node on which no nonce ever meets the key target and nobody closes
    the stop channel. *)
Definition envNoKey : Env :=
  {| chainHeight := fun _ => 7;
     GetBlockByHeight := fun _ h => Ok (blockAt h [txWithHash (100 * h + 1)]);
     GetCurrentInfo := fun _ => Ok (blockAt 7 []);
     randSrc := fun k => Z.of_nat k;
     nowUnix := 1700000000;
     HashBytes := digest;
     MustHash := fun _ => 1;
     GetMiningTarget := fun _ => 0;
     GetDifficult := fun _ parent => Difficulty parent;
     applyTransactionsAndDebts := fun t => (t, None);
     WriteBlock := fun _ => None;
     stopSignal := fun _ => false;
     NumCPU := 4;
     fuel := 64 |}.

Definition emptyPack : MiningDataPack :=
  {| Heights := replicate numOfChains 0;
     TxHashes := replicate numOfChains EmptyHash; dp_Nonce := 0 |}.

(** A miner in the middle of its first synchronisation: new, then told
    that the download started. *)
Definition syncingWorld : World :=
  {| miner := setCanStart 0 (miner (NewMiner 0));
     randPos := 0; pollPos := 0; allocs := 1; effects := [] |}.

(** A miner that has claimed the mining flag and made its stop channel. *)
Definition keyWorld : World :=
  {| miner := setStopChan (Some 1%nat) (setMining 1 (miner (NewMiner 0)));
     randPos := 0; pollPos := 0; allocs := 2; effects := [] |}.

(** The nonces hashed in a run, in order. *)
Definition hashedNonces (es : list Effect) : list Z :=
  omap (fun e => match e with EHash n => Some n | _ => None end) es.

(** *** The nonce search and the thread ranges, in closed form *)

(** The nonce that follows [nonce] in the search of the range
    [min, max]: the loop resets the nonce to [min] at [max] and then
    increments it. *)
Definition nextNonce (min max nonce : Z) : Z :=
  u64 ((if nonce =? max then min else nonce) + 1).

(** The first [k] nonces of the search from [nonce] on. *)
Fixpoint orbit (min max : Z) (k : nat) (nonce : Z) : list Z :=
  match k with
  | O => []
  | S k' => nonce :: orbit min max k' (nextNonce min max nonce)
  end.

(** The step between thread ranges, and the range and the seed of thread
    [i] of [threads], as [commitTaskToKeyMining] computes them. *)
Definition rangeStep (threads : Z) : Z :=
  if negb (threads =? 0) then MaxUint64 / u64 threads else 0.
Definition rangeMin (i step : Z) : Z := u64 (i * step).
Definition rangeMax (i threads step : Z) : Z :=
  if negb (i =? threads - 1) then u64 (rangeMin i step + step - 1)
  else MaxUint64.
Definition threadSeed (seed i step : Z) : Z := u64 (seed + i * step).

(** The seed drawn for a thread. *)
Definition drawSeed (env : Env) (threads step : Z) : M Z :=
  if threads =? 1 then Uint64 env
  else mlet v := Intn env (toInt64 step) in ret (u64 v).

(** *** Sequences of calls, and the part of the miner that controls it *)

(** The flags and channels of a miner, its thread count and coinbase:
    everything but the current task and the mining key. *)
Definition control (m : Miner)
  : Z * Z * Z * option nat * option nat * Z * Z * Address :=
  (mining m, canStart m, stopped m, stopChan m, recv m,
   isFirstDownloader m, threads m, coinbase m).

(** The calls of a list, one after the other. *)
Fixpoint runAll (env : Env) (calls : list Call) : M unit :=
  match calls with
  | [] => ret tt
  | c :: rest => run env c ;; runAll env rest
  end.

Definition isStartCall (c : Call) : bool :=
  match c with CallStart => true | _ => false end.

(** A flag that holds 0 or 1. *)
Definition isFlag (z : Z) : Prop := z = 0 \/ z = 1.

(** The four flags of a miner hold 0 or 1. *)
Definition flagsOK (m : Miner) : Prop :=
  isFlag (mining m) /\ isFlag (canStart m) /\ isFlag (stopped m)
  /\ isFlag (isFirstDownloader m).

(** *** What a computation adds to the history *)

(** Every run of [c] that returns has extended the history, and by
    effects that satisfy [P] only. *)
Definition adds {A : Type} (P : Effect -> Prop) (c : M A) : Prop :=
  forall w r w', c w = Done r w' ->
    exists added, effects w' = effects w ++ added /\ Forall P added.

(** Effects other than the saving and the announcing of a block. *)
Definition notBlock (e : Effect) : Prop :=
  match e with
  | EWriteBlock _ | EFireBlockMined _ => False
  | _ => True
  end.

(** In a history whose part before [es] ended with [prev]: every
    announcement of a mined block comes right after the write of that
    block to its chain, and that write succeeded. *)
Fixpoint announcedAfterWrite (env : Env) (prev : option Effect)
    (es : list Effect) : Prop :=
  match es with
  | [] => True
  | e :: rest =>
      match e with
      | EFireBlockMined b =>
          prev = Some (EWriteBlock b) /\ WriteBlock env b = None
      | _ => True
      end
      /\ announcedAfterWrite env (Some e) rest
  end.

(** The result of sealing the first task of a miner started on
    [envAtGenesis]: that task is the second object the miner makes after
    its receive channel. *)
Definition firstResult : Result :=
  {| res_task := {| task_id := 2; task_header := Header (blockAt 1 []);
                    task_coinbase := 0; task_chainNum := 0 |};
     res_block := blockAt 1 [] |}.

End Miner.

(* ===================================================================== *)
(** ** seele: the service and the peer protocol *)
(* ===================================================================== *)

Module Seele.

Definition NumOfChains : nat := 3.
Definition chainHeaderChangeBuffSize : nat := 100.

(** Message codes. *)
Definition transactionHashMsgCode : Z := 0.
Definition transactionRequestMsgCode : Z := 1.
Definition transactionsMsgCode : Z := 2.
Definition blockHashMsgCode : Z := 3.
Definition blockRequestMsgCode : Z := 4.
Definition blockMsgCode : Z := 5.
Definition statusDataMsgCode : Z := 6.
Definition statusChainHeadMsgCode : Z := 7.
Definition debtMsgCode : Z := 13.
Definition protocolMsgCodeLength : Z := 14.

Record Msg : Type := { Code : Z; Payload : list Z }.

Record transactionHashMsg : Type := { thm_ChainNum : Z; thm_TxHash : Hash }.
Record transactionMsg : Type := { tm_Tx : Transaction; tm_ChainNum : Z }.
Record blockHashMsg : Type := { bhm_ChainNum : Z; bhm_BlockHash : Hash }.
Record blockMsg : Type := { bm_Block : Block; bm_ChainNum : Z }.
Record chainHeadStatus : Type :=
  { chs_TD : Z; chs_CurrentBlock : Hash; chs_ChainNum : Z }.
Record blockHeadersQuery : Type := {
    q_Magic : Z; q_Hash : Hash; q_Number : Z; q_Amount : Z;
    q_Reverse : bool; q_ChainNum : Z
  }.

(** Modelled from the spec: the peer type (peer.go) is not among the
    sources. Its identity, its shard and its three known-hash caches are
    the fields the message loop uses; the head and total difficulty per
    chain are the peer-head record of the spec, updated by [SetHead] and
    read by [HeadByChain]. The caches list the most recently added hash
    first. *)
Record peer : Type := {
    peerStrID : Z;
    NodeShard : Z;
    knownTxs : list Hash;
    knownBlocks : list Hash;
    knownDebts : list Hash;
    heads : gmap Z (Hash * Z)
  }.

(** Modelled from the spec: the known-hash sets are bounded LRU sets.
    [Add] moves or inserts the key at the front and evicts the oldest
    entry beyond the capacity; [Contains] does not touch the order. *)
Definition lruAdd (cap : nat) (h : Hash) (c : list Hash) : list Hash :=
  take cap (h :: filter (fun x => x <> h) c).
Definition lruContains (h : Hash) (c : list Hash) : bool :=
  bool_decide (h ∈ c).

Definition setKnownTxs (v : list Hash) (p : peer) : peer :=
  {| peerStrID := peerStrID p; NodeShard := NodeShard p; knownTxs := v;
     knownBlocks := knownBlocks p; knownDebts := knownDebts p;
     heads := heads p |}.
Definition setKnownBlocks (v : list Hash) (p : peer) : peer :=
  {| peerStrID := peerStrID p; NodeShard := NodeShard p;
     knownTxs := knownTxs p; knownBlocks := v; knownDebts := knownDebts p;
     heads := heads p |}.
Definition setKnownDebts (v : list Hash) (p : peer) : peer :=
  {| peerStrID := peerStrID p; NodeShard := NodeShard p;
     knownTxs := knownTxs p; knownBlocks := knownBlocks p; knownDebts := v;
     heads := heads p |}.

(** [peer.SetHead] and [peer.HeadByChain] *)
Definition SetHead (hash : Hash) (td : Z) (chainNum : Z) (p : peer) : peer :=
  {| peerStrID := peerStrID p; NodeShard := NodeShard p;
     knownTxs := knownTxs p; knownBlocks := knownBlocks p;
     knownDebts := knownDebts p;
     heads := <[chainNum := (hash, td)]> (heads p) |}.
Definition HeadByChain (p : peer) (chainNum : Z) : Hash * Z :=
  default (EmptyHash, 0) (heads p !! chainNum).

(** Messages written to a peer. *)
Inductive OutMsg : Type :=
  | OutTransactionRequest (m : transactionHashMsg)
  | OutTransactionHash (m : transactionHashMsg)
  | OutTransaction (tx : Transaction) (chainNum : Z)
  | OutBlockHash (m : blockHashMsg)
  | OutBlockRequest (m : blockHashMsg)
  | OutBlock (m : blockMsg)
  | OutBlockHeaders (magic : Z) (headers : list BlockHeader) (chainNum : Z)
  | OutBlocks (magic : Z) (blocks : list Block) (chainNum : Z)
  | OutHeadStatus (s : chainHeadStatus)
  | OutDebts (ds : list Debt).

(** What the protocol does to the pools, the chains, the transport, the
    downloader and the event bus, in order. *)
Inductive Effect : Type :=
  | ESend (to : Z) (m : OutMsg)
  | EAddTransaction (chainNum : Z) (tx : Transaction)   (* txPool[c].AddTransaction *)
  | EDebtPoolAdd (chainNum : Z) (d : Debt)              (* debtPool[c].Add *)
  | EWriteBlock (chainNum : Z) (b : Block)              (* chain[c].WriteBlock *)
  | EGoSendDifferentShardTx (m : transactionMsg) (shard : Z)
  | EGoPropagateDebt (ds : list Debt)
  | EDeliverMsg (from : Z) (m : Msg)                    (* downloader.DeliverMsg *)
  | ESignalSync                                         (* syncCh <- struct{}{} *)
  | EFire (e : Miner.DownloaderEvent)                   (* BlockDownloaderEventManager.Fire *)
  | EDownload (peerID : Z) (chainNum : Z) (pHead : Hash) (pTd localTD : Z)
(* downloader.Synchronise *)
  | EPeerSetRemove (id : Z)
  | EUnRegisterPeer (id : Z).

(** The node as the protocol reads it. Every read is given the effects
    performed so far, so an answer may depend on anything done before. *)
Record Env : Type := {
    LocalShardNumber : Z;
    Shard : Address -> Z;                                    (* Address.Shard() *)
    knownCap : nat;                                          (* capacity of a known-hash cache *)
    GetBlockHeadersMsg : Z;
    BlockHeadersMsg : Z;
    GetBlocksMsg : Z;
    BlocksPreMsg : Z;
    BlocksMsg : Z;
    MaxMessageLength : Z;
    deTxHashMsg : list Z -> result transactionHashMsg;       (* common.Deserialize *)
    deTxMsgs : list Z -> result (list transactionMsg);
    deBlockHashMsg : list Z -> result blockHashMsg;
    deBlockMsg : list Z -> result blockMsg;
    deDebts : list Z -> result (list Debt);
    deHeadersQuery : list Z -> result blockHeadersQuery;
    deBlocksQuery : list Z -> result blockHeadersQuery;
    deHeadStatus : list Z -> result chainHeadStatus;
    serializedLen : Block -> Z;                              (* len(common.SerializePanic(block)) *)
    GetShardNumber : Block -> Z;                             (* block.GetShardNumber() *)
    GetTransaction : list Effect -> Z -> Hash -> option Transaction;
    CurrentBlock : list Effect -> Z -> Block;
    GetBlockTotalDifficulty : list Effect -> Z -> Hash -> result Z;
    GetBlock : list Effect -> Z -> Hash -> result Block;
    GetBlockHeader : list Effect -> Z -> Hash -> result BlockHeader;
    GetBlockHash : list Effect -> Z -> Z -> result Hash;
    peerHead : list Effect -> Z -> Z -> Hash * Z;            (* HeadByChain of a peer of the set *)
    peersOfShard : list Effect -> Z -> list Z;               (* peerSet.ForEach(shard, ...) *)
    sendResult : list Effect -> Z -> OutMsg -> option error; (* outcome of a write to a peer *)
    Synchronise : list Effect -> Z -> Z -> Hash -> Z -> Z -> option error
  }.

(** How one round of the message loop ends. *)
Inductive Control : Type :=
  | Continue                    (* next message *)
  | BreakHandler                (* break handler: leave the loop *)
  | Panicked (why : string).

Definition Step : Type := (peer * list Effect * Control)%type.

Section Protocol.
Variable env : Env.

(** An index into one of the [NumOfChains]-sized arrays. *)
Definition validChain (chainNum : Z) : bool :=
  (0 <=? chainNum) && (chainNum <? Z.of_nat NumOfChains).

(** A write to the peer: the message goes into the history and the
    transport answers. *)
Definition send (hist : list Effect) (p : peer) (m : OutMsg)
  : list Effect * option error :=
  (hist ++ [ESend (peerStrID p) m], sendResult env hist (peerStrID p) m).

Definition onTransactionHash (p : peer) (hist : list Effect)
    (payload : list Z) : Step :=
  match deTxHashMsg env payload with
  | Err _ => (p, hist, Continue)
  | Ok txHashMsg =>
      let txHash := thm_TxHash txHashMsg in
      if negb (lruContains txHash (knownTxs p)) then
        let p := setKnownTxs (lruAdd (knownCap env) txHash (knownTxs p)) p in
        let '(hist, err) := send hist p (OutTransactionRequest txHashMsg) in
        match err with
        | Some _ => (p, hist, BreakHandler)
        | None => (p, hist, Continue)
        end
      else (p, hist, Continue)
  end.

Definition onTransactionRequest (p : peer) (hist : list Effect)
    (payload : list Z) : Step :=
  match deTxHashMsg env payload with
  | Err _ => (p, hist, Continue)
  | Ok txHashMsg =>
      let txHash := thm_TxHash txHashMsg in
      let chainNum := thm_ChainNum txHashMsg in
      if negb (validChain chainNum) then
        (p, hist, Panicked "index out of range")
      else
        match GetTransaction env hist chainNum txHash with
        | None => (p, hist, Continue)
        | Some tx =>
            let '(hist, err) := send hist p (OutTransaction tx chainNum) in
            match err with
            | Some _ => (p, hist, BreakHandler)
            | None => (p, hist, Continue)
            end
        end
  end.

(** The loop over the received transactions. *)
Fixpoint addTransactions (txMsgs : list transactionMsg) (p : peer)
    (hist : list Effect) : Step :=
  match txMsgs with
  | [] => (p, hist, Continue)
  | txMsg :: rest =>
      let tx := tm_Tx txMsg in
      let chainNum := tm_ChainNum txMsg in
      let p := setKnownTxs
                 (lruAdd (knownCap env) (tx_Hash tx) (knownTxs p)) p in
      let shard := Shard env (tx_From tx) in
      if negb (shard =? LocalShardNumber env) then
        addTransactions rest p
          (hist ++ [EGoSendDifferentShardTx txMsg shard])
      else if validChain chainNum then
        addTransactions rest p (hist ++ [EAddTransaction chainNum tx])
      else (p, hist, Panicked "index out of range")
  end.

Definition onTransactions (p : peer) (hist : list Effect)
    (payload : list Z) : Step :=
  match deTxMsgs env payload with
  | Err _ => (p, hist, Continue)
  | Ok txMsgs => addTransactions txMsgs p hist
  end.

Definition onBlockHash (p : peer) (hist : list Effect)
    (payload : list Z) : Step :=
  match deBlockHashMsg env payload with
  | Err _ => (p, hist, Continue)
  | Ok blkHashMsg =>
      let blockHash := bhm_BlockHash blkHashMsg in
      if negb (lruContains blockHash (knownBlocks p)) then
        let p := setKnownBlocks
                   (lruAdd (knownCap env) blockHash (knownBlocks p)) p in
        let '(hist, err) := send hist p (OutBlockRequest blkHashMsg) in
        match err with
        | Some _ => (p, hist, BreakHandler)
        | None => (p, hist, Continue)
        end
      else (p, hist, Continue)
  end.

Definition onBlockRequest (p : peer) (hist : list Effect)
    (payload : list Z) : Step :=
  match deBlockHashMsg env payload with
  | Err _ => (p, hist, Continue)
  | Ok blkHashMsg =>
      let blockHash := bhm_BlockHash blkHashMsg in
      let chainNum := bhm_ChainNum blkHashMsg in
      if negb (validChain chainNum) then
        (p, hist, Panicked "index out of range")
      else
        match GetBlock env hist chainNum blockHash with
        | Err _ => (p, hist, Continue)
        | Ok block =>
            let blkMsg := {| bm_Block := block; bm_ChainNum := chainNum |} in
(* a failed write is only logged here *)
                (p, fst (send hist p (OutBlock blkMsg)), Continue)
            end
      end.

Definition onBlock (p : peer) (hist : list Effect)
    (payload : list Z) : Step :=
  match deBlockMsg env payload with
  | Err _ => (p, hist, Continue)
  | Ok blkMsg =>
      let block := bm_Block blkMsg in
      let chainNum := bm_ChainNum blkMsg in
      let p := setKnownBlocks
                 (lruAdd (knownCap env) (HeaderHash block) (knownBlocks p))
                 p in
      if GetShardNumber env block =? LocalShardNumber env then
        if validChain chainNum then
          (p, hist ++ [EWriteBlock chainNum block], Continue)
        else (p, hist, Panicked "index out of range")
      else (p, hist, Continue)
  end.

(** The loop over the received debts. *)
Fixpoint addDebts (debts : list Debt) (p : peer) (hist : list Effect)
  : Step :=
  match debts with
  | [] => (p, hist, Continue)
  | d :: rest =>
      let p := setKnownDebts
                 (lruAdd (knownCap env) (debt_Hash d) (knownDebts p)) p in
      let chainNum := debt_ChainNum d in
      if validChain chainNum then
        addDebts rest p (hist ++ [EDebtPoolAdd chainNum d])
      else (p, hist, Panicked "index out of range")
  end.

Definition onDebts (p : peer) (hist : list Effect) (payload : list Z)
  : Step :=
  match deDebts env payload with
  | Err _ => (p, hist, Continue)
  | Ok debts =>
      match addDebts debts p hist with
      | (p, hist, Continue) => (p, hist ++ [EGoPropagateDebt debts], Continue)
      | other => other
      end
  end.

(** The loop of the [GetBlockHeadersMsg] case: [n] rounds are left,
    [cnt] is the loop counter. *)
Fixpoint collectHeaders (n : nat) (cnt : Z) (hist : list Effect)
    (chainNum orgNum : Z) (reverse : bool) (maxHeight : Z)
    (headList : list BlockHeader) : list BlockHeader :=
  match n with
  | O => headList
  | S n' =>
      let curNum := if reverse then u64 (orgNum - cnt)
                    else u64 (orgNum + cnt) in
      if curNum >? maxHeight then headList
      else
        match GetBlockHash env hist chainNum curNum with
        | Err _ => headList
        | Ok hash =>
            match GetBlockHeader env hist chainNum hash with
            | Err _ => headList
            | Ok head =>
                collectHeaders n' (cnt + 1) hist chainNum orgNum reverse
                               maxHeight (headList ++ [head])
            end
        end
  end.

Definition onGetBlockHeaders (p : peer) (hist : list Effect)
    (payload : list Z) : Step :=
  match deHeadersQuery env payload with
  | Err _ => (p, hist, Continue)
  | Ok query =>
      let chainNum := q_ChainNum query in
      if negb (validChain chainNum) then
        (p, hist, Panicked "index out of range")
      else
        let orgNum :=
          if negb (q_Hash query =? EmptyHash) then
            match GetBlockHeader env hist chainNum (q_Hash query) with
            | Err _ => None
            | Ok head => Some (Height head)
            end
          else Some (q_Number query) in
        match orgNum with
        | None => (p, hist, Continue)
        | Some orgNum =>
            let maxHeight := Height (Header (CurrentBlock env hist chainNum)) in
            let headList :=
              collectHeaders (Z.to_nat (q_Amount query)) 0 hist chainNum
                             orgNum (q_Reverse query) maxHeight [] in
            let '(hist, err) :=
              send hist p (OutBlockHeaders (q_Magic query) headList chainNum) in
            match err with
            | Some _ => (p, hist, BreakHandler)
            | None => (p, hist, Continue)
            end
        end
  end.

(** The loop of the [GetBlocksMsg] case; [None] is its
    [break handler]. *)
Fixpoint collectBlocks (n : nat) (cnt : Z) (hist : list Effect)
    (chainNum orgNum : Z) (totalLen : Z) (blocksL : list Block)
  : option (list Block) :=
  match n with
  | O => Some blocksL
  | S n' =>
      let curNum := u64 (orgNum + cnt) in
      match GetBlockHash env hist chainNum curNum with
      | Err _ => Some blocksL
      | Ok hash =>
          match GetBlock env hist chainNum hash with
          | Err _ => None
          | Ok block =>
              let curLen := serializedLen env block in
              if (totalLen >? 0)
                 && (totalLen + curLen >? MaxMessageLength env)
              then Some blocksL
              else collectBlocks n' (cnt + 1) hist chainNum orgNum
                                 (totalLen + curLen) (blocksL ++ [block])
          end
      end
  end.

Definition onGetBlocks (p : peer) (hist : list Effect)
    (payload : list Z) : Step :=
  match deBlocksQuery env payload with
  | Err _ => (p, hist, Continue)
  | Ok query =>
      let chainNum := q_ChainNum query in
      let indexed := negb (q_Hash query =? EmptyHash)
                     || (0 <? q_Amount query) in
      if indexed && negb (validChain chainNum) then
        (p, hist, Panicked "index out of range")
      else
        let orgNum :=
          if negb (q_Hash query =? EmptyHash) then
            match GetBlockHeader env hist chainNum (q_Hash query) with
            | Err _ => None
            | Ok head => Some (Height head)
            end
          else Some (q_Number query) in
        match orgNum with
        | None => (p, hist, Continue)
        | Some orgNum =>
            match collectBlocks (Z.to_nat (q_Amount query)) 0 hist
                                chainNum orgNum 0 [] with
            | None => (p, hist, BreakHandler)
            | Some blocksL =>
                let '(hist, err) :=
                  send hist p (OutBlocks (q_Magic query) blocksL chainNum) in
                match err with
                | Some _ => (p, hist, BreakHandler)
                | None => (p, hist, Continue)
                end
            end
        end
  end.

Definition onChainHeadStatus (p : peer) (hist : list Effect)
    (payload : list Z) : Step :=
  match deHeadStatus env payload with
  | Err _ => (p, hist, Continue)
  | Ok status =>
      (SetHead (chs_CurrentBlock status) (chs_TD status)
               (chs_ChainNum status) p,
       hist ++ [ESignalSync], Continue)
  end.

(** One round of the loop of [handleMsg], after a message was read. *)
Definition handleOne (p : peer) (hist : list Effect) (msg : Msg) : Step :=
  if negb (NodeShard p =? LocalShardNumber env)
     && (negb (Code msg =? transactionsMsgCode)
         && negb (Code msg =? debtMsgCode))
  then (p, hist, Continue)
  else
    let code := Code msg in
    if code =? transactionHashMsgCode then
      onTransactionHash p hist (Payload msg)
    else if code =? transactionRequestMsgCode then
      onTransactionRequest p hist (Payload msg)
    else if code =? transactionsMsgCode then
      onTransactions p hist (Payload msg)
    else if code =? blockHashMsgCode then
      onBlockHash p hist (Payload msg)
    else if code =? blockRequestMsgCode then
      onBlockRequest p hist (Payload msg)
    else if code =? blockMsgCode then
      onBlock p hist (Payload msg)
    else if code =? debtMsgCode then
      onDebts p hist (Payload msg)
    else if code =? GetBlockHeadersMsg env then
      onGetBlockHeaders p hist (Payload msg)
    else if code =? GetBlocksMsg env then
      onGetBlocks p hist (Payload msg)
    else if (code =? BlockHeadersMsg env) || (code =? BlocksPreMsg env)
            || (code =? BlocksMsg env) then
      (p, hist ++ [EDeliverMsg (peerStrID p) msg], Continue)
    else if code =? statusChainHeadMsgCode then
      onChainHeadStatus p hist (Payload msg)
    else (p, hist, Continue).

Definition handleDelPeer (hist : list Effect) (p : peer) : list Effect :=
  hist ++ [EPeerSetRemove (peerStrID p); EUnRegisterPeer (peerStrID p)].

Inductive LoopEnd : Type :=
  | AwaitingMsg               (* blocked in ReadMsg *)
  | PeerDeleted               (* the loop was left and the peer removed *)
  | LoopPanicked (why : string).

(** [handleMsg] on the successive results of [peer.rw.ReadMsg]. *)
Fixpoint handleMsg (incoming : list (result Msg)) (p : peer)
    (hist : list Effect) : peer * list Effect * LoopEnd :=
  match incoming with
  | [] => (p, hist, AwaitingMsg)
  | Err _ :: _ => (p, handleDelPeer hist p, PeerDeleted)
  | Ok msg :: rest =>
      match handleOne p hist msg with
      | (p', hist', Continue) => handleMsg rest p' hist'
      | (p', hist', BreakHandler) =>
          (p', handleDelPeer hist' p', PeerDeleted)
      | (p', hist', Panicked why) => (p', hist', LoopPanicked why)
      end
  end.

(** [broadcastChainHead]; [None] is the panic of an index outside
    the chain array. *)
Definition broadcastChainHead (hist : list Effect) (chainNum : Z)
  : option (list Effect) :=
  if negb (validChain chainNum) then None
  else
    let block := CurrentBlock env hist chainNum in
    let head := HeaderHash block in
    match GetBlockTotalDifficulty env hist chainNum head with
    | Err _ => Some hist
    | Ok localTD =>
        let status := {| chs_TD := localTD; chs_CurrentBlock := head;
                         chs_ChainNum := chainNum |} in
        Some (fold_left
                (fun h id => h ++ [ESend id (OutHeadStatus status)])
                (peersOfShard env hist (LocalShardNumber env)) hist)
    end.

(** An entry of the slice returned by [peerSet.bestPeer]. *)
Record bestPeerForEachChain : Type := {
    bp_bestPeer : Z;          (* the peerStrID of the peer *)
    bp_chainNum : Z
  }.

Inductive SyncEnd : Type :=
  | SyncReturned
  | SyncPanicked.

(** The loop of [synchronise] from index [i] on. *)
Fixpoint syncLoop (i : nat)
    (bestPeers : list (option bestPeerForEachChain))
    (hist : list Effect) : list Effect * SyncEnd :=
  match bestPeers with
  | [] => (hist ++ [EFire Miner.DownloaderDoneEvent], SyncReturned)
  | None :: rest => syncLoop (S i) rest hist
  | Some bp :: rest =>
      if negb (validChain (Z.of_nat i)) then (hist, SyncPanicked)
      else
        let block := CurrentBlock env hist (Z.of_nat i) in
        match GetBlockTotalDifficulty env hist (Z.of_nat i)
                                      (HeaderHash block) with
        | Err _ => (hist, SyncReturned)
        | Ok localTD =>
            let '(pHead, pTd) :=
              peerHead env hist (bp_bestPeer bp) (bp_chainNum bp) in
            if localTD >=? pTd then syncLoop (S i) rest hist
            else
              let hist := hist ++ [EFire Miner.DownloaderStartEvent] in
              let err := Synchronise env hist (bp_bestPeer bp)
                           (bp_chainNum bp) pHead pTd localTD in
              let hist := hist ++ [EDownload (bp_bestPeer bp)
                                     (bp_chainNum bp) pHead pTd localTD] in
              match err with
              | Some _ =>
                  (hist ++ [EFire Miner.DownloaderFailedEvent],
                   SyncReturned)
              | None =>
                  match broadcastChainHead hist (bp_chainNum bp) with
                  | None => (hist, SyncPanicked)
                  | Some hist => syncLoop (S i) rest hist
                  end
              end
        end
  end.

(** [synchronise]; a nil slice is [None]. *)
Definition synchronise
    (bestPeers : option (list (option bestPeerForEachChain)))
    (hist : list Effect) : list Effect * SyncEnd :=
  match bestPeers with
  | None => (hist, SyncReturned)
  | Some bps => syncLoop 0 bps hist
  end.

End Protocol.

(** *** The service: head-change monitor and shutdown *)

Inductive ChanState : Type := ChanOpen | ChanClosed.

(** [SeeleProtocol], as far as [Stop] touches it. *)
Record SeeleProtocol : Type := {
    quitCh : ChanState;
    syncCh : ChanState;
    minedBlockListener : bool;       (* handleNewMinedBlock is registered *)
    newTxListener : bool             (* handleNewTx is registered *)
  }.

(** A database handle: how many times [Close] was called on it. *)
Record Database : Type := { closeCalls : nat }.

Record SeeleService : Type := {
    seeleProtocol : SeeleProtocol;
    chainDBs : list Database;
    accountStateDB : Database;
    lastHeaders : list Hash;
    chainHeaderChangeChannels : list (list Hash)   (* queued heads, oldest first *)
  }.

(** Calls into the pools made by the monitor. *)
Inductive PoolCall : Type :=
  | TxPoolHandleChainHeaderChanged (chainNum : nat) (newHeader lastHeader : Hash)
  | DebtPoolHandleChainHeaderChanged (chainNum : nat) (newHeader lastHeader : Hash).

Record ChainHeaderChangedMsg : Type := {
    chm_HeaderHash : Hash;
    chm_ChainNum : Z
  }.

Inductive SendEnd : Type :=
  | Dropped            (* empty header: nothing sent *)
  | Sent
  | BlockedFull        (* the channel buffer is full: the sender waits *)
  | SendPanicked.      (* index outside the channel array *)

Definition setChannels (v : list (list Hash)) (s : SeeleService) : SeeleService :=
  {| seeleProtocol := seeleProtocol s; chainDBs := chainDBs s;
     accountStateDB := accountStateDB s; lastHeaders := lastHeaders s;
     chainHeaderChangeChannels := v |}.
Definition setLastHeaders (v : list Hash) (s : SeeleService) : SeeleService :=
  {| seeleProtocol := seeleProtocol s; chainDBs := chainDBs s;
     accountStateDB := accountStateDB s; lastHeaders := v;
     chainHeaderChangeChannels := chainHeaderChangeChannels s |}.

Definition chainHeaderChanged (e : ChainHeaderChangedMsg) (s : SeeleService)
  : SeeleService * SendEnd :=
  let newHeader := chm_HeaderHash e in
  if IsEmpty newHeader then (s, Dropped)
  else
    let chainNum := Z.to_nat (chm_ChainNum e) in
    match chainHeaderChangeChannels s !! chainNum with
    | None => (s, SendPanicked)
    | Some q =>
        if (chainHeaderChangeBuffSize <=? length q)%nat then (s, BlockedFull)
        else (setChannels (<[chainNum := q ++ [newHeader]]>
                             (chainHeaderChangeChannels s)) s, Sent)
    end.

Inductive MonitorEnd : Type :=
  | MonitorWaiting      (* blocked on the empty channel *)
  | MonitorReturned     (* the goroutine has returned *)
  | MonitorPanicked.

(** The loop of [MonitorChainHeaderChange] on the heads received from
    the channel, given the last recorded head: the pool calls made, the
    head recorded at the end, the heads left unreceived and the state of
    the goroutine. *)
Fixpoint monitorLoop (chainNum : nat) (lastHeader : Hash)
    (received : list Hash)
  : list PoolCall * Hash * list Hash * MonitorEnd :=
  match received with
  | [] => ([], lastHeader, [], MonitorWaiting)
  | newHeader :: rest =>
      if IsEmpty lastHeader then ([], newHeader, rest, MonitorReturned)
      else
        let '(calls, last, unread, st) := monitorLoop chainNum newHeader rest in
        (TxPoolHandleChainHeaderChanged chainNum newHeader lastHeader
           :: DebtPoolHandleChainHeaderChanged chainNum newHeader lastHeader
           :: calls, last, unread, st)
  end.

(** [MonitorChainHeaderChange] run on everything queued for the chain. *)
Definition MonitorChainHeaderChange (chainNum : nat) (s : SeeleService)
  : SeeleService * list PoolCall * MonitorEnd :=
  match chainHeaderChangeChannels s !! chainNum, lastHeaders s !! chainNum with
  | Some q, Some lastHeader =>
      let '(calls, last, unread, st) := monitorLoop chainNum lastHeader q in
      (setLastHeaders (<[chainNum := last]> (lastHeaders s))
         (setChannels (<[chainNum := unread]> (chainHeaderChangeChannels s)) s),
       calls, st)
  | _, _ => (s, [], MonitorPanicked)
  end.

(** How a call of [Stop] ends. *)
Inductive StopEnd : Type :=
  | StopReturned (err : option error)
  | StopPanicked (why : string).

(** [close(ch)]: closing a closed channel panics. *)
Definition closeChan (c : ChanState) : option ChanState :=
  match c with
  | ChanOpen => Some ChanClosed
  | ChanClosed => None
  end.

(** [SeeleProtocol.Stop]; the second component is the panic, if any. *)
Definition SeeleProtocol_Stop (sp : SeeleProtocol)
  : SeeleProtocol * option string :=
  let sp := {| quitCh := quitCh sp; syncCh := syncCh sp;
               minedBlockListener := false; newTxListener := false |} in
  match closeChan (quitCh sp) with
  | None => (sp, Some "close of closed channel"%string)
  | Some q =>
      let sp := {| quitCh := q; syncCh := syncCh sp;
                   minedBlockListener := minedBlockListener sp;
                   newTxListener := newTxListener sp |} in
      match closeChan (syncCh sp) with
      | None => (sp, Some "close of closed channel"%string)
      | Some c =>
(* sp.wg.Wait() *)
            ({| quitCh := quitCh sp; syncCh := c;
                minedBlockListener := minedBlockListener sp;
                newTxListener := newTxListener sp |}, None)
        end
    end.

(** [Database.Close] *)
Definition CloseDB (d : Database) : Database :=
  {| closeCalls := S (closeCalls d) |}.

(** [SeeleService.Stop] *)
Definition SeeleService_Stop (s : SeeleService) : SeeleService * StopEnd :=
  match SeeleProtocol_Stop (seeleProtocol s) with
  | (sp, Some why) =>
      ({| seeleProtocol := sp; chainDBs := chainDBs s;
          accountStateDB := accountStateDB s; lastHeaders := lastHeaders s;
          chainHeaderChangeChannels := chainHeaderChangeChannels s |},
       StopPanicked why)
  | (sp, None) =>
      ({| seeleProtocol := sp;
          chainDBs := map CloseDB (chainDBs s);
          accountStateDB := CloseDB (accountStateDB s);
          lastHeaders := lastHeaders s;
          chainHeaderChangeChannels := chainHeaderChangeChannels s |},
       StopReturned None)
  end.

(** The service as [NewSeeleService] leaves it, given the head hash of
    each chain: channels open and empty, listeners registered, no
    database closed. *)
Definition newService (headHashes : list Hash) : SeeleService :=
  {| seeleProtocol := {| quitCh := ChanOpen; syncCh := ChanOpen;
                         minedBlockListener := true;
                         newTxListener := true |};
     chainDBs := replicate NumOfChains {| closeCalls := 0 |};
     accountStateDB := {| closeCalls := 0 |};
     lastHeaders := headHashes;
     chainHeaderChangeChannels := replicate NumOfChains [] |}.

(** *** A concrete node used to run the protocol *)

(** A toy wire format: a transaction list is a sequence of triples
    (chain, hash, sender). *)
Fixpoint decodeTxs (bs : list Z) : list transactionMsg :=
  match bs with
  | c :: h :: f :: rest =>
      {| tm_Tx := {| tx_Hash := h; tx_From := f; tx_To := 0; tx_Amount := 1;
                     tx_AccountNonce := 0 |};
         tm_ChainNum := c |} :: decodeTxs rest
  | _ => []
  end.

(** A list of debts is a sequence of quadruples (hash, shard, chain,
    amount). *)
Fixpoint decodeDebts (bs : list Z) : list Debt :=
  match bs with
  | h :: sh :: c :: a :: rest =>
      {| debt_Hash := h; debt_Shard := sh; debt_ChainNum := c;
         debt_Amount := a |} :: decodeDebts rest
  | _ => []
  end.

(** Local shard 1; the shard of an address is its residue modulo 4; every
    chain has total difficulty 10 locally; the best peers report 10, 5 and
    20 for the chains 0, 1 and 2. *)
Definition demoEnv : Env :=
  {| LocalShardNumber := 1;
     Shard := fun a => a mod 4;
     knownCap := 4;
     GetBlockHeadersMsg := 8;
     BlockHeadersMsg := 9;
     GetBlocksMsg := 10;
     BlocksPreMsg := 11;
     BlocksMsg := 12;
     MaxMessageLength := 8388608;
     deTxHashMsg := fun bs =>
       match bs with
       | [c; h] => Ok {| thm_ChainNum := c; thm_TxHash := h |}
       | _ => Err (ErrOther 1)
       end;
     deTxMsgs := fun bs => Ok (decodeTxs bs);
     deBlockHashMsg := fun bs =>
       match bs with
       | [c; h] => Ok {| bhm_ChainNum := c; bhm_BlockHash := h |}
       | _ => Err (ErrOther 1)
       end;
     deBlockMsg := fun _ => Err (ErrOther 1);
     deDebts := fun bs => Ok (decodeDebts bs);
     deHeadersQuery := fun _ => Err (ErrOther 1);
     deBlocksQuery := fun _ => Err (ErrOther 1);
     deHeadStatus := fun bs =>
       match bs with
       | [td; h; c] => Ok {| chs_TD := td; chs_CurrentBlock := h; chs_ChainNum := c |}
       | _ => Err (ErrOther 1)
       end;
     serializedLen := fun _ => 100;
     GetShardNumber := fun _ => 1;
     GetTransaction := fun _ _ _ => None;
     CurrentBlock := fun _ c => Miner.blockAt (3 + c) [];
     GetBlockTotalDifficulty := fun _ _ _ => Ok 10;
     GetBlock := fun _ _ _ => Err ErrNotFound;
     GetBlockHeader := fun _ _ _ => Err ErrNotFound;
     GetBlockHash := fun _ _ _ => Err ErrNotFound;
     peerHead := fun _ _ c => (500 + c, nth (Z.to_nat c) [10; 5; 20] 0);
     peersOfShard := fun _ _ => [7; 8];
     sendResult := fun _ _ _ => None;
     Synchronise := fun _ _ _ _ _ _ => None |}.

(** A connected peer of shard 2, which is not the local shard. *)
Definition foreignPeer : peer :=
  {| peerStrID := 7; NodeShard := 2; knownTxs := []; knownBlocks := [];
     knownDebts := []; heads := ∅ |}.

(** The best peer (peer 7) of each of the three chains. *)
Definition demoBestPeers : list (option bestPeerForEachChain) :=
  [Some {| bp_bestPeer := 7; bp_chainNum := 0 |};
   Some {| bp_bestPeer := 7; bp_chainNum := 1 |};
   Some {| bp_bestPeer := 7; bp_chainNum := 2 |}].





(** A download in the history is justified when the peer's total
    difficulty it was given exceeds the local one. *)
Definition justified (e : Effect) : Prop :=
  match e with
  | EDownload _ _ _ pTd localTD => localTD < pTd
  | _ => True
  end.

(** How many entries of a history satisfy [f]. *)
Fixpoint countIf (f : Effect -> bool) (hist : list Effect) : nat :=
  match hist with
  | [] => 0
  | e :: rest => ((if f e then 1 else 0) + countIf f rest)%nat
  end.

Definition isStartFire (e : Effect) : bool :=
  match e with EFire Miner.DownloaderStartEvent => true | _ => false end.

Definition isDownload (e : Effect) : bool :=
  match e with EDownload _ _ _ _ _ => true | _ => false end.

(** The pool calls the monitor owes for the heads [received] after
    [lastHeader]. *)
Fixpoint expectedCalls (chainNum : nat) (lastHeader : Hash)
    (received : list Hash) : list PoolCall :=
  match received with
  | [] => []
  | newHeader :: rest =>
      TxPoolHandleChainHeaderChanged chainNum newHeader lastHeader
        :: DebtPoolHandleChainHeaderChanged chainNum newHeader lastHeader
        :: expectedCalls chainNum newHeader rest
  end.

(** *** Notions used to state further properties *)

(** The events that end a synchronisation round. *)
Definition isTerminal (e : Effect) : bool :=
  match e with
  | EFire Miner.DownloaderDoneEvent | EFire Miner.DownloaderFailedEvent => true
  | _ => false
  end.

(** The serialized size of a list of blocks. *)
Definition blocksLen (env : Env) (blocks : list Block) : Z :=
  foldr (fun b acc => serializedLen env b + acc) 0 blocks.

(** The head changes of a list, each handled by its listener, one after
    the other. A listener whose send finds the buffer of its channel
    full stays blocked with its head: it is entered in [parked], and its
    head reaches the channel only after the monitor has made room. A
    head change for a chain outside the array panics ([None]). *)
Fixpoint deliver (es : list ChainHeaderChangedMsg) (s : SeeleService)
    (parked : list ChainHeaderChangedMsg)
  : option (SeeleService * list ChainHeaderChangedMsg) :=
  match es with
  | [] => Some (s, parked)
  | e :: rest =>
      match chainHeaderChanged e s with
      | (_, SendPanicked) => None
      | (s', BlockedFull) => deliver rest s' (parked ++ [e])
      | (s', _) => deliver rest s' parked
      end
  end.

(** The non-empty heads that a list of head changes carries for a
    chain, in order. *)
Definition headsFor (chainNum : nat) (es : list ChainHeaderChangedMsg)
  : list Hash :=
  omap (fun e => if negb (IsEmpty (chm_HeaderHash e))
                    && (Z.to_nat (chm_ChainNum e) =? chainNum)%nat
                 then Some (chm_HeaderHash e) else None) es.



(** A toy wire format for the queries of the downloader: magic, hash,
    number, amount, reverse flag, chain. *)
Definition decodeQuery (bs : list Z) : result blockHeadersQuery :=
  match bs with
  | [magic; hash; number; amount; rev; chainNum] =>
      Ok {| q_Magic := magic; q_Hash := hash; q_Number := number;
            q_Amount := amount; q_Reverse := negb (rev =? 0);
            q_ChainNum := chainNum |}
  | _ => Err (ErrOther 1)
  end.

(** A node that serves its chains: each chain holds the blocks of the
    heights 0 to 5, the block of height [n] under the hash [1000 + n]; a
    serialized block takes 100 bytes and a message holds 250. *)
Definition servingEnv : Env :=
  {| LocalShardNumber := 1;
     Shard := fun a => a mod 4;
     knownCap := 4;
     GetBlockHeadersMsg := 8;
     BlockHeadersMsg := 9;
     GetBlocksMsg := 10;
     BlocksPreMsg := 11;
     BlocksMsg := 12;
     MaxMessageLength := 250;
     deTxHashMsg := deTxHashMsg demoEnv;
     deTxMsgs := deTxMsgs demoEnv;
     deBlockHashMsg := deBlockHashMsg demoEnv;
     deBlockMsg := fun _ => Err (ErrOther 1);
     deDebts := fun _ => Ok [];
     deHeadersQuery := decodeQuery;
     deBlocksQuery := decodeQuery;
     deHeadStatus := deHeadStatus demoEnv;
     serializedLen := fun _ => 100;
     GetShardNumber := fun _ => 1;
     GetTransaction := fun _ _ _ => None;
     CurrentBlock := fun _ _ => Miner.blockAt 5 [];
     GetBlockTotalDifficulty := fun _ _ _ => Ok 10;
     GetBlock := fun _ _ h =>
       if (1000 <=? h) && (h <=? 1005) then Ok (Miner.blockAt (h - 1000) [])
       else Err ErrNotFound;
     GetBlockHeader := fun _ _ h =>
       if (1000 <=? h) && (h <=? 1005)
       then Ok (Header (Miner.blockAt (h - 1000) []))
       else Err ErrNotFound;
     GetBlockHash := fun _ _ n =>
       if (0 <=? n) && (n <=? 5) then Ok (1000 + n) else Err ErrNotFound;
     peerHead := fun _ _ _ => (EmptyHash, 0);
     peersOfShard := fun _ _ => [7; 8];
     sendResult := fun _ _ _ => None;
     Synchronise := fun _ _ _ _ _ _ => None |}.

(** A connected peer of the local shard. *)
Definition localPeer : peer :=
  {| peerStrID := 8; NodeShard := 1; knownTxs := []; knownBlocks := [];
     knownDebts := []; heads := ∅ |}.

(** *** Debt propagation *)

(** [s[i]] for an unsigned index: [None] is the index-out-of-range
    panic. *)
Definition index {A : Type} (l : list A) (i : Z) : option A :=
  if i <? 0 then None else l !! Z.to_nat i.

(** The loop of [propagateDebt] that fills [debtsMap]; [None] is the
    panic of a debt whose shard is outside the slice. *)
Fixpoint bucketDebts (debts : list Debt) (debtsMap : list (list Debt))
  : option (list (list Debt)) :=
  match debts with
  | [] => Some debtsMap
  | d :: rest =>
      match index debtsMap (debt_Shard d) with
      | None => None
      | Some bucket =>
          bucketDebts rest
            (<[Z.to_nat (debt_Shard d) := bucket ++ [d]]> debtsMap)
      end
  end.

(** [propagateDebtMap]; [peers] are the peers of the set in the order
    [peerSet.ForEachAll] visits them. A failed write is only logged. The
    result is the history as the call leaves it and the panic, if any. *)
Fixpoint propagateDebtMap (env : Env) (peers : list peer)
    (debtsMap : list (list Debt)) (hist : list Effect)
  : list Effect * option string :=
  match peers with
  | [] => (hist, None)
  | p :: rest =>
      match index debtsMap (NodeShard p) with
      | None => (hist, Some "index out of range"%string)
      | Some ds =>
          if (0 <? length ds)%nat then
            propagateDebtMap env rest debtsMap
              (fst (send env hist p (OutDebts ds)))
          else propagateDebtMap env rest debtsMap hist
      end
  end.

(** [propagateDebt]; [ShardCount] is [common.ShardCount]. *)
Definition propagateDebt (env : Env) (ShardCount : nat) (peers : list peer)
    (debts : list Debt) (hist : list Effect)
  : list Effect * option string :=
  match bucketDebts debts (replicate (S ShardCount) []) with
  | None => (hist, Some "index out of range"%string)
  | Some debtsMap => propagateDebtMap env peers debtsMap hist
  end.

(** The debts of a list that are for the shard [shard], in order. *)
Definition debtsOfShard (shard : Z) (debts : list Debt) : list Debt :=
  filter (fun d => debt_Shard d = shard) debts.

(** The message a peer is owed for a list of debts, if any. *)
Definition debtsFor (debts : list Debt) (p : peer) : option Effect :=
  match debtsOfShard (NodeShard p) debts with
  | [] => None
  | ds => Some (ESend (peerStrID p) (OutDebts ds))
  end.

(** Three peers, of the shards 1, 2 and 1. *)
Definition demoPeers : list peer :=
  [localPeer; foreignPeer;
   {| peerStrID := 9; NodeShard := 1; knownTxs := [77]; knownBlocks := [];
      knownDebts := []; heads := ∅ |}].

Definition demoDebts : list Debt :=
  [{| debt_Hash := 1; debt_Shard := 2; debt_ChainNum := 0; debt_Amount := 5 |};
   {| debt_Hash := 2; debt_Shard := 1; debt_ChainNum := 1; debt_Amount := 6 |};
   {| debt_Hash := 3; debt_Shard := 2; debt_ChainNum := 2; debt_Amount := 7 |}].

(** *** Forwarding a transaction of another shard *)

(** The closure [sendTxFun] of [SendDifferentShardTx] on one peer. *)
Definition sendTxFun (env : Env) (tx : Transaction) (chainNum : Z)
    (p : peer) (hist : list Effect) : peer * list Effect :=
  if negb (lruContains (tx_Hash tx) (knownTxs p)) then
    let '(hist, err) := send env hist p (OutTransaction tx chainNum) in
    match err with
    | Some _ => (p, hist)
    | None =>
        (setKnownTxs (lruAdd (knownCap env) (tx_Hash tx) (knownTxs p)) p,
         hist)
    end
  else (p, hist).

(** Modelled from the spec: the peer set (peerset.go) is not among the
    sources; the spec describes it as the connected peers indexed by
    node id and by shard. [ForEach] and [ForEachAll] run a callback on
    the peers of a shard, or on all of them; the peers are the objects
    of the set, so what the callback does to a peer stays in the set.
    The callbacks of this file always return true, so no peer is
    skipped. *)
Fixpoint forEachPeer (f : peer -> list Effect -> peer * list Effect)
    (sel : peer -> bool) (peers : list peer) (hist : list Effect)
  : list peer * list Effect :=
  match peers with
  | [] => ([], hist)
  | p :: rest =>
      if sel p then
        let '(p', hist) := f p hist in
        let '(rest', hist) := forEachPeer f sel rest hist in
        (p' :: rest', hist)
      else
        let '(rest', hist) := forEachPeer f sel rest hist in
        (p :: rest', hist)
  end.

Definition ofShard (shard : Z) (p : peer) : bool := NodeShard p =? shard.

Definition getPeerCountByShard (peers : list peer) (shard : Z) : nat :=
  length (filter (fun p => ofShard shard p = true) peers).

Definition SendDifferentShardTx (env : Env) (peers : list peer)
    (txMsg : transactionMsg) (shard : Z) (hist : list Effect)
  : list peer * list Effect :=
  let tx := tm_Tx txMsg in
  let chainNum := tm_ChainNum txMsg in
  if (0 <? getPeerCountByShard peers shard)%nat then
    forEachPeer (sendTxFun env tx chainNum) (ofShard shard) peers hist
  else
    forEachPeer (sendTxFun env tx chainNum) (fun _ => true) peers hist.

(** A write of the transaction of [txMsg] to a peer of [peers] that did
    not know it, and that is of the shard [shard] unless the set has no
    peer of that shard. *)
Definition forwardOf (peers : list peer) (txMsg : transactionMsg)
    (shard : Z) (e : Effect) : Prop :=
  exists p, In p peers
    /\ e = ESend (peerStrID p) (OutTransaction (tm_Tx txMsg) (tm_ChainNum txMsg))
    /\ lruContains (tx_Hash (tm_Tx txMsg)) (knownTxs p) = false
    /\ (NodeShard p = shard \/ getPeerCountByShard peers shard = 0%nat).

Definition demoTxMsg : transactionMsg :=
  {| tm_Tx := {| tx_Hash := 77; tx_From := 2; tx_To := 1; tx_Amount := 3;
                 tx_AccountNonce := 0 |};
     tm_ChainNum := 1 |}.

(** *** Sending the pending transactions to a new peer *)

(** A batch written by [peer.sendTransactions]. *)
Inductive SyncEffect : Type :=
  | ESendTransactions (to : Z) (msgs : list transactionMsg).

(** What [syncTransactions] reads: the pending transactions of each
    pool, the size of a batch ([txsyncPackSize], a constant of the
    package that is not among the sources), the outcome of a write given
    the writes made so far, and whether the [select] of a round of the
    loop takes the closed [quitCh]. *)
Record SyncEnv : Type := {
    poolPending : nat -> list Transaction;   (* txPool[i].GetTransactions(false, true) *)
    txsyncPackSize : Z;
    sendTransactionsResult : list SyncEffect -> Z -> list transactionMsg
                             -> option error;
    quitSelected : nat -> bool
  }.

(** The variables of [syncTransactions] that are shared through
    pointers: [cells] maps the address of a [transactionMsg] variable to
    its value, [pending] is the slice of addresses. The function has one
    such variable, [txMsg]; its zero value is never read. *)
Record PendingStore : Type := {
    cells : gmap nat transactionMsg;
    pending : list nat
  }.

Definition txMsgAddr : nat := 0.

(** The body of the inner loop: assign the two fields of [txMsg] and
    append [&txMsg]. *)
Definition appendPending (chainNum : Z) (st : PendingStore)
    (tx : Transaction) : PendingStore :=
  {| cells := <[txMsgAddr := {| tm_Tx := tx; tm_ChainNum := chainNum |}]>
                (cells st);
     pending := pending st ++ [txMsgAddr] |}.

(** The outer loop, over the [n] pools from [i] on. *)
Fixpoint fillPending (senv : SyncEnv) (n i : nat) (st : PendingStore)
  : PendingStore :=
  match n with
  | O => st
  | S n' =>
      fillPending senv n' (S i)
        (fold_left (appendPending (Z.of_nat i)) (poolPending senv i) st)
  end.

(** The messages a slice of addresses points to. *)
Definition deref (st : PendingStore) (addrs : list nat)
  : list transactionMsg :=
  omap (fun a => cells st !! a) addrs.

(** [s[pos : pos+n]] within bounds. *)
Definition slice {A : Type} (l : list A) (pos n : Z) : list A :=
  take (Z.to_nat n) (drop (Z.to_nat pos) l).

Inductive SyncTxEnd : Type :=
  | SyncNothingPending          (* the early return *)
  | SyncFinished                (* errSyncFinished was received *)
  | SyncSendFailed (e : error)  (* a write failed *)
  | SyncQuit (inFlight : bool)  (* quitCh was taken; a batch may be in flight *)
  | SyncSlicePanic              (* slice bounds out of range *)
  | SyncRoundsLeft.             (* the rounds given did not suffice *)

(** [send(curPos)] followed by the round of the loop that receives its
    result, at most [rounds] times. The write of a batch is entered in
    the history when its goroutine is started. *)
Fixpoint syncRounds (senv : SyncEnv) (id : Z) (st : PendingStore)
    (rounds round : nat) (curPos : Z) (hist : list SyncEffect)
  : list SyncEffect * SyncTxEnd :=
  match rounds with
  | O => (hist, SyncRoundsLeft)
  | S rounds' =>
      let needSend := Z.of_nat (length (pending st)) - curPos in
      let needSend := if needSend >? txsyncPackSize senv
                      then txsyncPackSize senv else needSend in
      if needSend =? 0 then
        if quitSelected senv round then (hist, SyncQuit false)
        else (hist, SyncFinished)
      else if needSend <? 0 then (hist, SyncSlicePanic)
      else
        let batch := deref st (slice (pending st) curPos needSend) in
        let err := sendTransactionsResult senv hist id batch in
        let hist := hist ++ [ESendTransactions id batch] in
        if quitSelected senv round then (hist, SyncQuit true)
        else
          match err with
          | Some e => (hist, SyncSendFailed e)
          | None =>
              syncRounds senv id st rounds' (S round) (curPos + needSend) hist
          end
  end.

Definition syncTransactions (senv : SyncEnv) (p : peer)
  : list SyncEffect * SyncTxEnd :=
  let st := fillPending senv NumOfChains 0 {| cells := ∅; pending := [] |} in
  if (length (pending st) =? 0)%nat then ([], SyncNothingPending)
  else syncRounds senv (peerStrID p) st (S (length (pending st))) 0 0 [].

(** The pending transactions with their chains, pool after pool: the
    messages a reader of the loops would expect in [pending]. *)
Definition pendingOfPools (senv : SyncEnv) (n i : nat)
  : list transactionMsg :=
  flat_map (fun c => map (fun tx => {| tm_Tx := tx; tm_ChainNum := Z.of_nat c |})
                         (poolPending senv c))
           (seq i n).

Definition batchOf (e : SyncEffect) : list transactionMsg :=
  match e with ESendTransactions _ msgs => msgs end.

(** Two pending transactions in pool 0, three in pool 2, batches of two,
    a transport that does not fail and an open [quitCh]. *)
Definition demoSyncEnv : SyncEnv :=
  {| poolPending := fun i =>
       match i with
       | O => [Miner.txWithHash 41; Miner.txWithHash 42]
       | 2%nat => [Miner.txWithHash 43; Miner.txWithHash 44;
                   Miner.txWithHash 45]
       | _ => []
       end;
     txsyncPackSize := 2;
     sendTransactionsResult := fun _ _ _ => None;
     quitSelected := fun _ => false |}.

(** *** Building the service *)

(** What [NewSeeleService] gets from the packages it calls: the outcome
    of every step that can fail. The context is taken to hold a
    [ServiceContext]. *)
Record BootEnv : Type := {
    NewLevelDB_chain : nat -> option error;     (* leveldb.NewLevelDB(chainDBPath) *)
    NewLevelDB_account : option error;          (* leveldb.NewLevelDB(accountStateDBPath) *)
    GetStateDB_err : option error;              (* core.GetStateDB(genesis.Info) *)
    statedbHash_err : option error;             (* statedb.Hash() *)
    batchCommit_err : option error;             (* batch.Commit() *)
    genesisInit_err : nat -> option error;      (* genesis.InitializeAndValidate(bcStore) *)
    NewBlockchain_err : nat -> option error;    (* core.NewBlockchain(...) *)
    GetHeadBlockHash : nat -> result Hash       (* chains[i].GetStore().GetHeadBlockHash() *)
  }.

(** The handles and goroutines [NewSeeleService] leaves behind, whether
    it returns a service or an error. *)
Record BootWorld : Type := {
    chainDBsOpened : list Database;
    accountDBOpened : option Database;
    headListeners : nat;          (* listeners added for chainHeaderChanged *)
    monitors : list nat           (* go s.MonitorChainHeaderChange(i) *)
  }.

(** The first loop: open the database of each of the [n] chains from
    [i] on. *)
Fixpoint openChainDBs (b : BootEnv) (n i : nat) (dbs : list Database)
  : list Database * option error :=
  match n with
  | O => (dbs, None)
  | S n' =>
      match NewLevelDB_chain b i with
      | Some err => (dbs, Some err)
      | None => openChainDBs b n' (S i) (dbs ++ [{| closeCalls := 0 |}])
      end
  end.

(** The loop that initialises the genesis and builds the chains. *)
Fixpoint initChains (b : BootEnv) (n i : nat) : option error :=
  match n with
  | O => None
  | S n' =>
      match genesisInit_err b i with
      | Some err => Some err
      | None =>
          match NewBlockchain_err b i with
          | Some err => Some err
          | None => initChains b n' (S i)
          end
      end
  end.

(** The loop of [initPool]: the heads read, the listeners added and the
    monitors started so far. *)
Fixpoint initPoolLoop (b : BootEnv) (n i : nat) (heads : list Hash)
    (started : list nat) : list Hash * list nat * option error :=
  match n with
  | O => (heads, started, None)
  | S n' =>
      match GetHeadBlockHash b i with
      | Err err =>
          (heads, started, Some (Errorf "failed to get chain header, %s" err))
      | Ok h => initPoolLoop b n' (S i) (heads ++ [h]) (started ++ [i])
      end
  end.

(** The clean-up written out at four of the error returns. *)
Definition closeDBs (w : BootWorld) : BootWorld :=
  {| chainDBsOpened := map CloseDB (chainDBsOpened w);
     accountDBOpened := CloseDB <$> accountDBOpened w;
     headListeners := headListeners w; monitors := monitors w |}.

Definition NewSeeleService (b : BootEnv) : BootWorld * result SeeleService :=
  match openChainDBs b NumOfChains 0 [] with
  | (dbs, Some err) =>
      ({| chainDBsOpened := dbs; accountDBOpened := None;
          headListeners := 0; monitors := [] |}, Err err)
  | (dbs, None) =>
      match NewLevelDB_account b with
      | Some err =>
          ({| chainDBsOpened := map CloseDB dbs; accountDBOpened := None;
              headListeners := 0; monitors := [] |}, Err err)
      | None =>
          let w := {| chainDBsOpened := dbs;
                      accountDBOpened := Some {| closeCalls := 0 |};
                      headListeners := 0; monitors := [] |} in
          match GetStateDB_err b with
          | Some err => (w, Err err)
          | None =>
          match statedbHash_err b with
          | Some err => (w, Err err)
          | None =>
          match batchCommit_err b with
          | Some err => (w, Err err)
          | None =>
          match initChains b NumOfChains 0 with
          | Some err => (closeDBs w, Err err)
          | None =>
              let '(heads, started, err) :=
                initPoolLoop b NumOfChains 0 [] [] in
              let w := {| chainDBsOpened := dbs;
                          accountDBOpened := Some {| closeCalls := 0 |};
                          headListeners := length started;
                          monitors := started |} in
              match err with
              | Some err => (closeDBs w, Err err)
              | None =>
(* NewSeeleProtocol returns no error *)
                    (w, Ok {| seeleProtocol :=
                                {| quitCh := ChanOpen; syncCh := ChanOpen;
                                   minedBlockListener := true;
                                   newTxListener := true |};
                              chainDBs := dbs;
                              accountStateDB := {| closeCalls := 0 |};
                              lastHeaders := heads;
                              chainHeaderChangeChannels :=
                                replicate (length started) [] |})
                end
          end
          end
          end
          end
      end
  end.

(** Every handle that was opened was closed once. *)
Definition closedOnce (w : BootWorld) : Prop :=
  Forall (fun d => closeCalls d = 1%nat) (chainDBsOpened w)
  /\ match accountDBOpened w with
     | Some d => closeCalls d = 1%nat
     | None => True
     end.

(** No handle was closed. *)
Definition noneClosed (w : BootWorld) : Prop :=
  Forall (fun d => closeCalls d = 0%nat) (chainDBsOpened w)
  /\ match accountDBOpened w with
     | Some d => closeCalls d = 0%nat
     | None => True
     end.

(** The steps of the account-state initialisation succeed. *)
Definition stateInitOK (b : BootEnv) : bool :=
  match GetStateDB_err b, statedbHash_err b, batchCommit_err b with
  | None, None, None => true
  | _, _, _ => false
  end.

(** Every chain database opens. *)
Definition chainDBsOpen (b : BootEnv) : bool :=
  forallb (fun i => match NewLevelDB_chain b i with None => true | _ => false end)
          (seq 0 NumOfChains).

(** A node on which every step succeeds but the commit of the genesis
    state. *)
Definition bootCommitFails : BootEnv :=
  {| NewLevelDB_chain := fun _ => None;
     NewLevelDB_account := None;
     GetStateDB_err := None;
     statedbHash_err := None;
     batchCommit_err := Some (ErrOther 5);
     genesisInit_err := fun _ => None;
     NewBlockchain_err := fun _ => None;
     GetHeadBlockHash := fun i => Ok (11 + Z.of_nat i) |}.

(** A node on which the genesis of chain 1 does not validate. *)
Definition bootGenesisFails : BootEnv :=
  {| NewLevelDB_chain := fun _ => None;
     NewLevelDB_account := None;
     GetStateDB_err := None;
     statedbHash_err := None;
     batchCommit_err := None;
     genesisInit_err := fun i =>
       match i with 1%nat => Some ErrGenesisHashMismatch | _ => None end;
     NewBlockchain_err := fun _ => None;
     GetHeadBlockHash := fun i => Ok (11 + Z.of_nat i) |}.

(** A node on which every step succeeds. *)
Definition bootOK : BootEnv :=
  {| NewLevelDB_chain := fun _ => None;
     NewLevelDB_account := None;
     GetStateDB_err := None;
     statedbHash_err := None;
     batchCommit_err := None;
     genesisInit_err := fun _ => None;
     NewBlockchain_err := fun _ => None;
     GetHeadBlockHash := fun i => Ok (11 + Z.of_nat i) |}.

End Seele.

(* ===================================================================== *)
(** * Properties *)
(* ===================================================================== *)

Import Core.

(** ** The RLP codec round-trips *)

Lemma putUint_zero fuel : Rlp.putUint fuel 0 = [].
Proof. destruct fuel; reflexivity. Qed.

Lemma beVal_snoc bs d : Rlp.beVal (bs ++ [d]) = Rlp.beVal bs * 256 + d.
Proof. unfold Rlp.beVal. rewrite fold_left_app. reflexivity. Qed.

Lemma putUint_val fuel : forall n,
  0 <= n < 256 ^ Z.of_nat fuel -> Rlp.beVal (Rlp.putUint fuel n) = n.
Proof.
  induction fuel as [|f IH]; intros n Hn.
  - change (Z.of_nat 0) with 0 in Hn. rewrite Z.pow_0_r in Hn.
    assert (n = 0) as -> by lia. reflexivity.
  - cbn [Rlp.putUint]. destruct (Z.eqb_spec n 0) as [->|Hnz]; [reflexivity|].
    rewrite beVal_snoc, IH.
    + pose proof (Z.div_mod n 256). lia.
    + rewrite Nat2Z.inj_succ, Z.pow_succ_r in Hn by lia.
      split; [apply Z.div_pos; lia|].
      apply Z.div_lt_upper_bound; lia.
Qed.

Lemma putUint_length fuel : forall n, (length (Rlp.putUint fuel n) <= fuel)%nat.
Proof.
  induction fuel as [|f IH]; intros n; cbn [Rlp.putUint]; [simpl; lia|].
  destruct (n =? 0); [simpl; lia|].
  rewrite length_app. simpl. specialize (IH (n / 256)). lia.
Qed.

Lemma putUint_head fuel : forall n,
  0 < n < 256 ^ Z.of_nat fuel ->
  exists r0 rest, Rlp.putUint fuel n = r0 :: rest /\ r0 <> 0.
Proof.
  induction fuel as [|f IH]; intros n Hn.
  - change (Z.of_nat 0) with 0 in Hn. rewrite Z.pow_0_r in Hn. lia.
  - cbn [Rlp.putUint]. destruct (Z.eqb_spec n 0) as [->|Hnz]; [lia|].
    destruct (Z.eq_dec (n / 256) 0) as [Hq|Hq].
    + rewrite Hq, putUint_zero. exists (n mod 256), []. split; [reflexivity|].
      pose proof (Z.div_mod n 256). lia.
    + destruct (IH (n / 256)) as (r0 & rest & -> & Hr0).
      * rewrite Nat2Z.inj_succ, Z.pow_succ_r in Hn by lia.
        assert (0 <= n / 256) by (apply Z.div_pos; lia).
        split; [lia|]. apply Z.div_lt_upper_bound; lia.
      * exists r0, (rest ++ [n mod 256]). split; [reflexivity|assumption].
Qed.
Lemma rlp_roundtrip n :
  0 <= n < 2 ^ 64 -> Rlp.decodeStruct1 (Rlp.encodeStruct1 n) = Ok n.
Proof.
  intros Hn. unfold Rlp.encodeStruct1, Rlp.encodeUint.
  destruct (Z.eqb_spec n 0) as [->|Hnz]; [reflexivity|].
  destruct (Z.ltb_spec n 128) as [Hlt|Hge].
  - unfold Rlp.decodeStruct1, Rlp.decodeUint, Rlp.len. cbn [length].
    change (192 + Z.of_nat 1) with 193. cbn [andb Z.leb Z.eqb Z.sub].
    change ((192 <=? 193) && (193 <=? 247) && (Z.of_nat 1 =? 193 - 192)) with true.
    cbv iota.
    destruct (Z.ltb_spec n 128); [|lia].
    destruct (Z.eqb_spec n 0); [lia|reflexivity].
  - assert (Hr : 0 < n < 256 ^ Z.of_nat 8).
    { change (256 ^ Z.of_nat 8) with (2 ^ 64). lia. }
    destruct (putUint_head 8 n Hr) as (r0 & rest & Hbs & Hr0).
    pose proof (putUint_length 8 n) as Hlen.
    pose proof (putUint_val 8 n ltac:(lia)) as Hval.
    rewrite Hbs in *. cbn [length] in Hlen.
    unfold Rlp.decodeStruct1, Rlp.len. cbn [length].
    set (L := length rest) in *.
    replace ((192 <=? 192 + Z.of_nat (S (S L))) && (192 + Z.of_nat (S (S L)) <=? 247)
             && (Z.of_nat (S (S L)) =? 192 + Z.of_nat (S (S L)) - 192)) with true
      by (symmetry; rewrite !andb_true_iff, !Z.leb_le, Z.eqb_eq; lia).
    unfold Rlp.decodeUint, Rlp.len. cbn [length]. fold L.
    destruct (Z.ltb_spec (128 + Z.of_nat (S L)) 128); [lia|].
    destruct (Z.leb_spec (128 + Z.of_nat (S L)) 136); [|lia].
    destruct (Z.eqb_spec (Z.of_nat (S L)) (128 + Z.of_nat (S L) - 128)); [|lia].
    destruct (Z.eqb_spec r0 0); [lia|].
    destruct (Z.eqb_spec (128 + Z.of_nat (S L)) 129) as [H1|H1]; cbn [andb].
    + assert (L = 0%nat) by lia. destruct rest; [|simpl in *; lia].
      unfold Rlp.beVal in Hval. simpl in Hval.
      destruct (Z.ltb_spec r0 128); [lia|]. unfold Rlp.beVal. simpl. f_equal. lia.
    + rewrite Hval. reflexivity.
Qed.

Lemma rlp_codec_roundtrips : codecRoundTrips (deps := rlpDeps).
Proof.
  intros [n] Hn. unfold isU64, MaxUint64 in Hn. cbn [extra_ShardNumber] in Hn.
  change (Deserialize (SerializePanic {| extra_ShardNumber := n |}))
    with (match Rlp.decodeStruct1 (Rlp.encodeStruct1 n) with
          | Ok m => Ok {| extra_ShardNumber := m |}
          | Err e => Err e
          end).
  rewrite rlp_roundtrip by lia. reflexivity.
Qed.

(** ** Genesis *)

Section GenesisProperties.
Context {deps : Deps} {S : Type} {bcs : BlockchainStore S}.
Hypothesis codec_ok : codecRoundTrips.

Lemma GetGenesis_shard info :
  ShardNumber (Info (GetGenesis info)) = ShardNumber info.
Proof. unfold GetGenesis. destruct (Difficult info <=? 0); reflexivity. Qed.

Lemma GetGenesis_extra info :
  ExtraData (header (GetGenesis info))
  = SerializePanic {| extra_ShardNumber := ShardNumber info |}.
Proof. unfold GetGenesis. destruct (Difficult info <=? 0); reflexivity. Qed.

Lemma GetGenesis_height info :
  Height (header (GetGenesis info)) = genesisBlockHeight.
Proof. reflexivity. Qed.

Lemma getGenesisExtraData_genesis info blk :
  isU64 (ShardNumber info) ->
  Header blk = header (GetGenesis info) ->
  getGenesisExtraData blk = Ok {| extra_ShardNumber := ShardNumber info |}.
Proof.
  intros Hu Hhd. unfold getGenesisExtraData.
  rewrite Hhd, GetGenesis_height, Z.eqb_refl. cbn [negb].
  rewrite GetGenesis_extra, codec_ok by exact Hu. reflexivity.
Qed.

(** On a store whose height-0 block names another shard, initialisation
    fails and the store is left as it was. *)
Lemma InitializeAndValidate_mismatch info s :
  storedShardDiffers info s ->
  InitializeAndValidate (GetGenesis info) s
  = (s, Some (ErrorsNew
       "specific shard number does not match with the shard number in genesis info")).
Proof.
  intros (hash & blk & data & Hh & Hb & Hz & Hd & Hne).
  unfold InitializeAndValidate, getGenesisExtraData.
  rewrite Hh, Hb, Hz, Z.eqb_refl. cbn [negb]. rewrite Hd, GetGenesis_shard.
  destruct (Z.eqb_spec (extra_ShardNumber data) (ShardNumber info));
    [contradiction|reflexivity].
Qed.

(** On a store that holds the configured genesis, initialisation
    succeeds and the store is left as it was. *)
Lemma InitializeAndValidate_match info s :
  isU64 (ShardNumber info) ->
  storedGenesisMatches info s ->
  InitializeAndValidate (GetGenesis info) s = (s, None).
Proof.
  intros Hu (blk & Hh & Hb & Hhd).
  unfold InitializeAndValidate.
  rewrite Hh, Hb, (getGenesisExtraData_genesis info blk Hu Hhd).
  cbn [extra_ShardNumber]. rewrite GetGenesis_shard, Z.eqb_refl. cbn [negb].
  unfold HashEqual. rewrite Z.eqb_refl. reflexivity.
Qed.

(** On a store without a block at height 0, initialisation is the one
    write of the configured genesis header, as head. *)
Lemma InitializeAndValidate_fresh info s :
  noGenesis s ->
  InitializeAndValidate (GetGenesis info) s
  = PutBlockHeader s (headerHash (header (GetGenesis info)))
      (header (GetGenesis info)) (Difficulty (header (GetGenesis info))) true.
Proof.
  intros Hn. unfold InitializeAndValidate, noGenesis in *. rewrite Hn.
  reflexivity.
Qed.

(** C1. Genesis initialisation validates and does not destroy: on a store
    whose height-0 block carries another shard number it returns the shard
    mismatch error and leaves the store untouched; on a store that holds
    the configured genesis it returns nil and leaves the store untouched;
    on a store with no block at height 0 its whole effect is the single
    write of the configured genesis header. *)
Theorem C1_genesis_initialize_and_validate info :
  isU64 (ShardNumber info) ->
  (forall s, storedShardDiffers info s ->
     exists err, InitializeAndValidate (GetGenesis info) s = (s, Some err))
  /\ (forall s, storedGenesisMatches info s ->
       InitializeAndValidate (GetGenesis info) s = (s, None))
  /\ (forall s, noGenesis s ->
       InitializeAndValidate (GetGenesis info) s
       = PutBlockHeader s (headerHash (header (GetGenesis info)))
           (header (GetGenesis info)) (Difficulty (header (GetGenesis info)))
           true).
Proof.
  intros Hu. split; [|split].
  - intros s Hs. eexists. apply InitializeAndValidate_mismatch, Hs.
  - intros s Hs. apply InitializeAndValidate_match; assumption.
  - intros s Hs. apply InitializeAndValidate_fresh, Hs.
Qed.

(** C10. The extra data of a genesis round-trips: the block built by
    [GetGenesis info] has height 0, and [getGenesisExtraData] on it
    succeeds with the shard number of [info]. *)
Theorem C10_genesis_extra_data_roundtrip info blk :
  isU64 (ShardNumber info) ->
  Header blk = header (GetGenesis info) ->
  Height (Header blk) = 0
  /\ exists data, getGenesisExtraData blk = Ok data
                  /\ extra_ShardNumber data = ShardNumber info.
Proof.
  intros Hu Hhd. split.
  - rewrite Hhd. reflexivity.
  - exists {| extra_ShardNumber := ShardNumber info |}.
    split; [apply getGenesisExtraData_genesis; assumption|reflexivity].
Qed.

End GenesisProperties.

Lemma infoShard1_isU64 : isU64 (ShardNumber infoShard1).
Proof. unfold isU64, MaxUint64. cbn. lia. Qed.

Lemma storeShard2_differs :
  storedShardDiffers (deps := rlpDeps) infoShard1 storeShard2.
Proof.
  exists (headerHash (Deps := rlpDeps) (header (GetGenesis (deps := rlpDeps) infoShard2))).
  eexists. exists {| extra_ShardNumber := 2 |}.
  split; [vm_compute; reflexivity|].
  split; [vm_compute; reflexivity|].
  split; [reflexivity|].
  split; [vm_compute; reflexivity|].
  cbn. lia.
Qed.

Lemma storeShard1_matches :
  storedGenesisMatches (deps := rlpDeps) infoShard1 storeShard1.
Proof.
  eexists. split; [vm_compute; reflexivity|].
  split; [vm_compute; reflexivity|]. reflexivity.
Qed.

Lemma C1_genesis_initialize_and_validate_witness :
  (exists err, InitializeAndValidate (deps := rlpDeps)
                 (GetGenesis (deps := rlpDeps) infoShard1) storeShard2
               = (storeShard2, Some err))
  /\ InitializeAndValidate (deps := rlpDeps)
       (GetGenesis (deps := rlpDeps) infoShard1) storeShard1
     = (storeShard1, None)
  /\ fst (InitializeAndValidate (deps := rlpDeps)
            (GetGenesis (deps := rlpDeps) infoShard1) emptyStore)
     = storeShard1.
Proof.
  destruct (C1_genesis_initialize_and_validate (deps := rlpDeps)
              rlp_codec_roundtrips infoShard1 infoShard1_isU64)
    as (Hbad & Hok & Hnew).
  split; [apply Hbad, storeShard2_differs|].
  split; [apply Hok, storeShard1_matches|].
  rewrite (Hnew emptyStore); reflexivity.
Defined.

Lemma C10_genesis_extra_data_roundtrip_witness :
  Height (header (GetGenesis (deps := rlpDeps) infoShard1)) = 0
  /\ exists data,
       getGenesisExtraData (deps := rlpDeps)
         {| HeaderHash := 0;
            Header := header (GetGenesis (deps := rlpDeps) infoShard1);
            Transactions := []; block_ChainNum := 0 |} = Ok data
       /\ extra_ShardNumber data = 1.
Proof.
  apply (C10_genesis_extra_data_roundtrip (deps := rlpDeps)
           rlp_codec_roundtrips infoShard1
           {| HeaderHash := 0;
              Header := header (GetGenesis (deps := rlpDeps) infoShard1);
              Transactions := []; block_ChainNum := 0 |}
           infoShard1_isU64 eq_refl).
Defined.

(** ** Miner *)

Import Miner.

(** [Start] on a miner that is not mining while a synchronisation is in
    progress: the error, and nothing changed but the log. *)
Lemma Start_syncing env w :
  mining (miner w) = 0 -> canStart (miner w) = 0 ->
  Start env w
  = Done (Some ErrNodeIsSyncing)
      {| miner := miner w; randPos := randPos w; pollPos := pollPos w;
         allocs := allocs w; effects := effects w ++ [ELog LogSyncing] |}.
Proof.
  intros Hm Hc. unfold Start, bind, getMiner, emit, ret.
  rewrite Hm, Hc. reflexivity.
Qed.

(** C6. Starting the miner during a synchronisation fails cleanly: with
    the mining flag at 0 and canStart at 0, [Start] returns
    [ErrNodeIsSyncing]; every field of the miner, the mining flag
    included, is as before, no channel or task is made, no random draw is
    taken, and the only thing done is the log line. *)
Theorem C6_start_while_syncing env w :
  mining (miner w) = 0 -> canStart (miner w) = 0 ->
  exists w',
    Start env w = Done (Some ErrNodeIsSyncing) w'
    /\ miner w' = miner w
    /\ mining (miner w') = 0
    /\ allocs w' = allocs w /\ randPos w' = randPos w /\ pollPos w' = pollPos w
    /\ effects w' = effects w ++ [ELog LogSyncing].
Proof.
  intros Hm Hc. eexists. split; [apply Start_syncing; assumption|].
  cbn. repeat split; [exact Hm].
Qed.

Lemma C6_start_while_syncing_witness :
  exists w',
    Start envAtGenesis syncingWorld = Done (Some ErrNodeIsSyncing) w'
    /\ miner w' = miner syncingWorld
    /\ mining (miner w') = 0
    /\ allocs w' = allocs syncingWorld /\ randPos w' = randPos syncingWorld
    /\ pollPos w' = pollPos syncingWorld
    /\ effects w' = effects syncingWorld ++ [ELog LogSyncing].
Proof.
  apply (C6_start_while_syncing envAtGenesis syncingWorld eq_refl eq_refl).
Defined.

(** The miner in the middle of its first synchronisation is a state the
    miner reaches. *)
Lemma syncingWorld_reachable env : reachable env syncingWorld.
Proof.
  apply (reach_call env (NewMiner 0) (CallDownloaderEvent DownloaderStartEvent)).
  - apply reach_new.
  - reflexivity.
Qed.

(** [stopMining] on a mining miner. *)
Lemma stopMining_mining w :
  mining (miner w) = 1 ->
  exists w',
    stopMining w = Done tt w'
    /\ miner w' = setStopChan None (setMining 0 (miner w))
    /\ (forall c, stopChan (miner w) = Some c -> In (EClose c) (effects w')).
Proof.
  intros Hm. unfold stopMining, bind, getMiner. rewrite Hm. cbn [Z.eqb negb Pos.eqb].
  destruct w as [m rp pp al ef]. destruct m as [cb mi cs st sc cu rc fd th fb kh].
  cbn in *. destruct sc as [c|]; cbn; eexists; (split; [reflexivity|]);
    (split; [reflexivity|]); intros c' Hc'; [|discriminate].
  injection Hc' as <-. cbn. rewrite !in_app_iff. cbn. tauto.
Qed.

(** C3, as the code has it: a [DownloaderStartEvent] halts the miner as
    long as no download round has ended (the isFirstDownloader flag is
    not 0): canStart becomes 0 and a mining miner is stopped, its stop
    channel closed. Once a round has ended the flag is 0 and the event
    leaves the miner exactly as it was. *)
Theorem C3_downloader_start_first_round env w :
  exists w',
    downloaderEventCallback env DownloaderStartEvent w = Done tt w'
    /\ (if isFirstDownloader (miner w) =? 0 then w' = w
        else canStart (miner w') = 0
             /\ IsMining (miner w') = false
             /\ (forall c, IsMining (miner w) = true ->
                           stopChan (miner w) = Some c ->
                           In (EClose c) (effects w'))).
Proof.
  unfold downloaderEventCallback, bind, getMiner.
  destruct (isFirstDownloader (miner w) =? 0) eqn:Hf.
  - exists w. split; reflexivity.
  - unfold modify at 1. cbn [miner].
    destruct (IsMining (setCanStart 0 (miner w))) eqn:Hi.
    + unfold IsMining in Hi. cbn [mining setCanStart] in Hi.
      apply Z.eqb_eq in Hi.
      destruct (stopMining_mining
                  {| miner := setCanStart 0 (miner w); randPos := randPos w;
                     pollPos := pollPos w; allocs := allocs w;
                     effects := effects w |} Hi) as (w' & Hrun & Hmin & Hcl).
      exists w'. split; [exact Hrun|]. rewrite Hmin. cbn.
      repeat split. intros c _ Hc. apply Hcl. exact Hc.
    + eexists. split; [reflexivity|]. cbn [miner]. split; [reflexivity|].
      split; [exact Hi|]. intros c Hc. unfold IsMining in *.
      cbn [mining setCanStart] in Hi. congruence.
Qed.

(** C3 as stated fails: on a node at genesis, a new miner that has seen
    one download round end is mining with canStart at 1; a
    [DownloaderStartEvent] received then changes nothing, so the miner
    keeps mining through the second round. *)
Lemma C3_downloader_start_ignored_after_first_round :
  exists w,
    reachable envAtGenesis w
    /\ downloaderEventCallback envAtGenesis DownloaderStartEvent w = Done tt w
    /\ mining (miner w) = 1
    /\ canStart (miner w) = 1.
Proof.
  eexists. split.
  - apply (reach_call envAtGenesis (NewMiner 0)
             (CallDownloaderEvent DownloaderDoneEvent)).
    + apply reach_new.
    + vm_compute. reflexivity.
  - split; [vm_compute; reflexivity|]. split; reflexivity.
Qed.

(** *** Key mining: the nonce search *)

(** Evaluate the closed [u64] expressions of the goal. *)
Ltac eval_u64 :=
  repeat match goal with
         | |- context [u64 ?e] =>
             let v := eval vm_compute in (u64 e) in change (u64 e) with v
         end.

(** On the node where no nonce wins, the search seeded at [min] = 0 in the
    range [0, 3] does not finish from any nonce of the range: after 3 the
    nonce is reset to 0 and advanced to 1 before the outage test, which
    compares with seed - 1 = 2^64 - 1. *)
Lemma noKey_never_ends n : forall nonce dp w,
  0 <= nonce <= 3 ->
  keyMinerLoop envNoKey n dp 0 0 3 nonce 0 w = Diverge.
Proof.
  induction n as [|n IH]; intros nonce dp w Hn; [reflexivity|].
  assert (Hcases : nonce = 0 \/ nonce = 1 \/ nonce = 2 \/ nonce = 3) by lia.
  cbn [keyMinerLoop]. unfold bind at 1. unfold pollStop.
  destruct (stopChan (miner w));
    destruct Hcases as [ -> | [ -> | [ -> | -> ] ] ];
    cbn -[keyMinerLoop u64]; eval_u64; cbn -[keyMinerLoop u64];
    apply IH; eval_u64; lia.
Qed.

(** C5, on the code: with no winning nonce and no stop signal, the search
    started at seed 5 in the range [0, 9] hashes 5, 6, 7, 8, 9, then 1, 2,
    3, 4 and reports the outage, so the nonce [min] = 0 is never tried;
    started at seed = min = 0 in the range [0, 3] it never exits, whatever
    the number of rounds it is given. *)
Theorem C5_key_search_skips_min_and_may_not_end :
  (exists r w',
     StartMiningForKey envNoKey emptyPack 5 0 9 0 keyWorld = Done r w'
     /\ hashedNonces (effects w') = [5; 6; 7; 8; 9; 1; 2; 3; 4]
     /\ last (effects w') = Some (ELog LogOutage))
  /\ (forall n, keyMinerLoop envNoKey n emptyPack 0 0 3 0 0 keyWorld = Diverge).
Proof.
  split.
  - eexists _, _. split; [vm_compute; reflexivity|]. split; reflexivity.
  - intros n. apply noKey_never_ends. lia.
Qed.

(** Reasoning about runs: a bind that returns, and the effects of the
    primitive steps. *)
Lemma bind_Done {A B} (c : M A) (k : A -> M B) w r w' :
  bind c k w = Done r w' ->
  exists a w1, c w = Done a w1 /\ k a w1 = Done r w'.
Proof.
  unfold bind. destruct (c w) as [a w1| |]; [|discriminate..].
  intros H. exists a, w1. split; [reflexivity|exact H].
Qed.

Lemma pollStop_Done env w b w1 :
  pollStop env w = Done b w1 -> effects w1 = effects w /\ miner w1 = miner w.
Proof.
  unfold pollStop. destruct (stopChan (miner w)); intros H;
    injection H as _ <-; split; reflexivity.
Qed.

Lemma emit_Done e w u w1 :
  emit e w = Done u w1 -> effects w1 = effects w ++ [e] /\ miner w1 = miner w.
Proof. unfold emit. intros H. injection H as _ <-. split; reflexivity. Qed.

Lemma modify_Done f w u w1 :
  modify f w = Done u w1 -> effects w1 = effects w /\ miner w1 = f (miner w).
Proof. unfold modify. intros H. injection H as _ <-. split; reflexivity. Qed.

Lemma ret_Done {A} (a : A) w r w1 : ret a w = Done r w1 -> r = a /\ w1 = w.
Proof. unfold ret. intros H. injection H as <- <-. split; reflexivity. Qed.

Lemma hashedNonces_app es1 es2 :
  hashedNonces (es1 ++ es2) = hashedNonces es1 ++ hashedNonces es2.
Proof. unfold hashedNonces. apply omap_app. Qed.

(** Whatever the hash and the signals: a search seeded above [min] never
    hashes the nonce [min]. From a nonce in (min, max] the next nonce is
    again in (min, max], because the reset to [min] at [max] is followed
    by the increment before anything is hashed. *)
Lemma keyMinerLoop_never_hashes_min env seed min max :
  0 <= min -> max <= MaxUint64 ->
  forall n nonce dp f w r w',
    min < nonce <= max ->
    keyMinerLoop env n dp seed min max nonce f w = Done r w' ->
    ~ In min (hashedNonces (effects w)) ->
    ~ In min (hashedNonces (effects w')).
Proof.
  intros Hmin Hmax. unfold MaxUint64 in Hmax.
  induction n as [|n IH]; intros nonce dp f w r w' Hn Hrun Hw; [discriminate|].
  cbn [keyMinerLoop] in Hrun.
  apply bind_Done in Hrun as (stop & w1 & Hp & Hrun).
  apply pollStop_Done in Hp as [He1 _].
  destruct stop.
  { apply bind_Done in Hrun as (u & w2 & Hem & Hret).
    apply emit_Done in Hem as [He2 _]. apply ret_Done in Hret as [_ ->].
    rewrite He2, He1, hashedNonces_app, in_app_iff. cbn. tauto. }
  destruct (negb (f =? 0)).
  { apply bind_Done in Hrun as (u & w2 & Hem & Hret).
    apply emit_Done in Hem as [He2 _]. apply ret_Done in Hret as [_ ->].
    rewrite He2, He1, hashedNonces_app, in_app_iff. cbn. tauto. }
  apply bind_Done in Hrun as (u & w2 & Hem & Hrun).
  apply emit_Done in Hem as [He2 _].
  assert (Hw2 : ~ In min (hashedNonces (effects w2))).
  { rewrite He2, He1, hashedNonces_app, in_app_iff. cbn. intros [?|[?|[]]]; [tauto|lia]. }
  destruct (MustHash env (setNonce nonce dp) <=? keyTarget env).
  { apply bind_Done in Hrun as (u3 & w3 & Hmo & Hrun).
    apply modify_Done in Hmo as [He3 _].
    apply bind_Done in Hrun as (stop & w4 & Hp & Hrun).
    apply pollStop_Done in Hp as [He4 _].
    destruct stop;
      apply bind_Done in Hrun as (u5 & w5 & Hem & Hret);
      apply emit_Done in Hem as [He5 _]; apply ret_Done in Hret as [_ ->];
      rewrite He5, He4, He3, hashedNonces_app, in_app_iff; cbn; tauto. }
  destruct ((if nonce =? max then min else nonce) =? u64 (seed - 1)).
  { apply bind_Done in Hrun as (stop & w3 & Hp & Hrun).
    apply pollStop_Done in Hp as [He3 _].
    apply bind_Done in Hrun as (u4 & w4 & Hem & Hret).
    apply ret_Done in Hret as [_ ->].
    destruct stop; apply emit_Done in Hem as [He4 _];
      rewrite He4, He3, hashedNonces_app, in_app_iff; cbn; tauto. }
  refine (IH _ _ _ _ _ _ _ Hrun Hw2).
  unfold u64. destruct (Z.eqb_spec nonce max); rewrite Z.mod_small; lia.
Qed.

(** *** Key mining: the sampled history *)

Lemma Intn_Done env n w r w1 :
  Intn env n w = Done r w1 ->
  0 < n /\ 0 <= r < n /\ effects w1 = effects w /\ miner w1 = miner w.
Proof.
  unfold Intn. destruct (Z.leb_spec n 0) as [Hle|Hlt]; [discriminate|].
  unfold bind, draw, ret. intros H. injection H as <- <-.
  split; [lia|]. split; [apply Z.mod_pos_bound; lia|]. split; reflexivity.
Qed.

(** The loop of [getMiningKey], when it runs to its end: the entries of
    the chains it visited are sampled, the others are as they were. *)
Lemma getMiningKeyLoop_Completed env : forall idxs heights txHashes w hs ts w',
  getMiningKeyLoop env idxs heights txHashes w = Done (Completed hs ts) w' ->
  length hs = length heights /\ length ts = length txHashes
  /\ (forall j, j ∉ idxs -> hs !! j = heights !! j /\ ts !! j = txHashes !! j)
  /\ (NoDup idxs ->
      forall i, i ∈ idxs ->
        (i < length heights)%nat -> (i < length txHashes)%nat ->
        sampled env i hs ts).
Proof.
  induction idxs as [|i rest IH]; intros heights txHashes w hs ts w' Hrun.
  - apply ret_Done in Hrun as [Heq _]. injection Heq as <- <-.
    split; [reflexivity|]. split; [reflexivity|].
    split; [intros; split; reflexivity|]. intros _ j Hj. inversion Hj.
  - cbn [getMiningKeyLoop] in Hrun.
    destruct (Z.gtb_spec (chainHeight env i) StartHeightOfGetMiningKeyFromChain)
      as [Hgt|Hle].
    2:{ apply bind_Done in Hrun as (x & w1 & _ & Hrun).
        apply bind_Done in Hrun as (u & w2 & _ & Hrun).
        apply ret_Done in Hrun as [Hd _]. discriminate. }
    apply bind_Done in Hrun as (r & w1 & Hr & Hrun).
    apply Intn_Done in Hr as (_ & Hr & _).
    assert (Hu : u64 r = r).
    { unfold u64. apply Z.mod_small. unfold longDist, shortDist in Hr. lia. }
    rewrite Hu in Hrun.
    destruct (GetBlockByHeight env i (u64 (r + chainHeight env i - longDist)))
      as [blk|e] eqn:Hblk.
    2:{ apply ret_Done in Hrun as [Hd _]. discriminate. }
    apply bind_Done in Hrun as (k & w2 & Hk & Hrun).
    destruct (Transactions blk !! Z.to_nat k) as [tx|] eqn:Htx; [|discriminate].
    apply IH in Hrun as (Hl1 & Hl2 & Hout & Hin).
    rewrite length_insert in Hl1, Hl2.
    split; [exact Hl1|]. split; [exact Hl2|]. split.
    + intros j Hj. apply not_elem_of_cons in Hj as [Hji Hjr].
      destruct (Hout j Hjr) as [-> ->].
      rewrite !list_lookup_insert_ne by congruence. split; reflexivity.
    + intros Hnd j Hj Hj1 Hj2. apply NoDup_cons in Hnd as [Hni Hnd].
      apply elem_of_cons in Hj as [->|Hj].
      * destruct (Hout i Hni) as [Hhs Hts].
        rewrite list_lookup_insert_eq in Hhs, Hts by assumption.
        split; [lia|]. exists r, blk, tx.
        split; [exact Hr|]. split; [exact Hhs|]. split; [exact Hblk|].
        split; [|exact Hts]. apply list_elem_of_lookup. eauto.
      * apply Hin; try assumption; rewrite length_insert; assumption.
Qed.

(** C4, on the code: for every chain whose head height [H] exceeds the
    threshold 4, the height that [getMiningKey] records is [H - 3] or
    [H - 2] and never [H - 1], since the draw is [rand.Intn (longDist -
    shortDist)] = [rand.Intn 2]; the hash recorded with it is that of a
    transaction of the block at the recorded height. *)
Theorem C4_sampled_height_window env w hs ts w' i :
  getMiningKeyLoop env (seq 0 numOfChains) (replicate numOfChains 0)
    (replicate numOfChains EmptyHash) w = Done (Completed hs ts) w' ->
  (i < numOfChains)%nat ->
  isU64 (chainHeight env i) ->
  4 < chainHeight env i
  /\ exists h blk tx,
       hs !! i = Some h
       /\ (h = chainHeight env i - 3 \/ h = chainHeight env i - 2)
       /\ h <> chainHeight env i - 1
       /\ GetBlockByHeight env i h = Ok blk
       /\ tx ∈ Transactions blk
       /\ ts !! i = Some (tx_Hash tx).
Proof.
  intros Hrun Hi Hu.
  apply getMiningKeyLoop_Completed in Hrun as (_ & _ & _ & Hin).
  destruct (Hin (NoDup_seq 0 numOfChains) i) as (Hgt & r & blk & tx & Hr & Hh & Hb & Htx & Ht).
  - apply elem_of_seq. lia.
  - rewrite length_replicate. exact Hi.
  - rewrite length_replicate. exact Hi.
  - unfold StartHeightOfGetMiningKeyFromChain in Hgt.
    unfold longDist, shortDist in *. unfold isU64, MaxUint64 in Hu.
    assert (He : u64 (r + chainHeight env i - 3) = r + chainHeight env i - 3).
    { unfold u64. apply Z.mod_small. lia. }
    rewrite He in *. split; [exact Hgt|].
    exists (r + chainHeight env i - 3), blk, tx.
    split; [exact Hh|]. split; [lia|]. split; [lia|].
    split; [exact Hb|]. split; [exact Htx|exact Ht].
Qed.

Lemma C4_sampled_height_window_witness :
  getMiningKeyLoop (envDeep [0; 1; 1; 0; 1; 1]) (seq 0 numOfChains)
    (replicate numOfChains 0) (replicate numOfChains EmptyHash) (NewMiner 0)
  = Done (Completed [4; 5; 5] [402; 501; 502])
      {| miner := miner (NewMiner 0); randPos := 6; pollPos := 0;
         allocs := 1; effects := [] |}
  /\ (4 < 7
      /\ exists h blk tx,
           [4; 5; 5] !! 1%nat = Some h
           /\ (h = 7 - 3 \/ h = 7 - 2)
           /\ h <> 7 - 1
           /\ GetBlockByHeight (envDeep [0; 1; 1; 0; 1; 1]) 1 h = Ok blk
           /\ tx ∈ Transactions blk
           /\ [402; 501; 502] !! 1%nat = Some (tx_Hash tx)).
Proof.
  split; [reflexivity|].
  apply (C4_sampled_height_window (envDeep [0; 1; 1; 0; 1; 1]) (NewMiner 0)
           [4; 5; 5] [402; 501; 502]
           {| miner := miner (NewMiner 0); randPos := 6; pollPos := 0;
              allocs := 1; effects := [] |} 1%nat eq_refl).
  - unfold numOfChains. lia.
  - unfold isU64, MaxUint64. cbn. lia.
Defined.

(** ** Peer protocol *)

Import Seele.










(** ** Synchroniser *)

(** A chain whose best peer is not ahead is passed over: the loop goes on
    with the next chain from the same history. *)
Lemma syncLoop_skip env i bp rest hist localTD pHead pTd :
  validChain (Z.of_nat i) = true ->
  GetBlockTotalDifficulty env hist (Z.of_nat i)
    (HeaderHash (CurrentBlock env hist (Z.of_nat i))) = Ok localTD ->
  peerHead env hist (bp_bestPeer bp) (bp_chainNum bp) = (pHead, pTd) ->
  pTd <= localTD ->
  syncLoop env i (Some bp :: rest) hist = syncLoop env (S i) rest hist.
Proof.
  intros Hv Htd Hp Hle. cbn [syncLoop]. rewrite Hv, Htd, Hp. cbn [negb].
  destruct (Z.geb_spec localTD pTd); [reflexivity|lia].
Qed.

Lemma justified_app h1 h2 :
  Forall justified h1 -> Forall justified h2 -> Forall justified (h1 ++ h2).
Proof. intros H1 H2. apply Forall_app. split; assumption. Qed.

Lemma sends_justified status : forall ids h,
  Forall justified h ->
  Forall justified
    (fold_left (fun h id => h ++ [ESend id (OutHeadStatus status)]) ids h).
Proof.
  induction ids as [|id ids IH]; intros h Hj; [exact Hj|].
  cbn [fold_left]. apply IH, justified_app; [exact Hj|].
  constructor; [exact I|constructor].
Qed.

Lemma broadcastChainHead_justified env hist chainNum hist' :
  broadcastChainHead env hist chainNum = Some hist' ->
  Forall justified hist -> Forall justified hist'.
Proof.
  unfold broadcastChainHead. destruct (negb (validChain chainNum)); [discriminate|].
  destruct (GetBlockTotalDifficulty env hist chainNum _) as [td|e];
    intros H Hj; injection H as <-; [|exact Hj].
  apply sends_justified, Hj.
Qed.

(** Every download of a round was given a peer total difficulty above the
    local one. *)
Lemma syncLoop_justified env : forall bestPeers i hist,
  Forall justified hist ->
  Forall justified (fst (syncLoop env i bestPeers hist)).
Proof.
  induction bestPeers as [|[bp|] rest IH]; intros i hist Hj; cbn [syncLoop].
  - cbn [fst]. apply justified_app; [exact Hj|]. repeat constructor.
  - destruct (negb (validChain (Z.of_nat i))); [exact Hj|].
    destruct (GetBlockTotalDifficulty env hist (Z.of_nat i) _) as [localTD|e];
      [|exact Hj].
    destruct (peerHead env hist (bp_bestPeer bp) (bp_chainNum bp)) as [pHead pTd].
    destruct (Z.geb_spec localTD pTd) as [Hge|Hlt]; [apply IH, Hj|].
    assert (Hj' : Forall justified
                    ((hist ++ [EFire Miner.DownloaderStartEvent])
                       ++ [EDownload (bp_bestPeer bp) (bp_chainNum bp) pHead pTd
                             localTD])).
    { apply justified_app; [apply justified_app; [exact Hj|]|].
      - repeat constructor.
      - constructor; [exact Hlt|constructor]. }
    destruct (Synchronise env _ _ _ _ _ _) as [err|].
    + cbn [fst]. apply justified_app; [exact Hj'|]. repeat constructor.
    + destruct (broadcastChainHead env _ (bp_chainNum bp)) as [hist'|] eqn:Hb;
        [|exact Hj'].
      apply IH. exact (broadcastChainHead_justified _ _ _ _ Hb Hj').
  - apply IH, Hj.
Qed.

Lemma countIf_app f h1 h2 :
  countIf f (h1 ++ h2) = (countIf f h1 + countIf f h2)%nat.
Proof. induction h1 as [|e h1 IH]; cbn; [reflexivity|]. rewrite IH. lia. Qed.

Lemma sends_count f status : forall ids h,
  (forall id, f (ESend id (OutHeadStatus status)) = false) ->
  countIf f (fold_left (fun h id => h ++ [ESend id (OutHeadStatus status)]) ids h)
  = countIf f h.
Proof.
  induction ids as [|id ids IH]; intros h Hf; [reflexivity|].
  cbn [fold_left]. rewrite IH by exact Hf. rewrite countIf_app. cbn.
  rewrite Hf. lia.
Qed.

Lemma broadcastChainHead_count env hist chainNum hist' f :
  (forall id m, f (ESend id m) = false) ->
  broadcastChainHead env hist chainNum = Some hist' ->
  countIf f hist' = countIf f hist.
Proof.
  intros Hf. unfold broadcastChainHead.
  destruct (negb (validChain chainNum)); [discriminate|].
  destruct (GetBlockTotalDifficulty env hist chainNum _) as [td|e];
    intros H; injection H as <-; [|reflexivity].
  apply sends_count. intros id. apply Hf.
Qed.

(** A round fires as many DownloaderStart events as it attempts
    downloads. *)
Lemma syncLoop_starts env : forall bestPeers i hist,
  countIf isStartFire hist = countIf isDownload hist ->
  countIf isStartFire (fst (syncLoop env i bestPeers hist))
  = countIf isDownload (fst (syncLoop env i bestPeers hist)).
Proof.
  induction bestPeers as [|[bp|] rest IH]; intros i hist Hc; cbn [syncLoop].
  - cbn [fst]. rewrite !countIf_app, Hc. reflexivity.
  - destruct (negb (validChain (Z.of_nat i))); [exact Hc|].
    destruct (GetBlockTotalDifficulty env hist (Z.of_nat i) _) as [localTD|e];
      [|exact Hc].
    destruct (peerHead env hist (bp_bestPeer bp) (bp_chainNum bp)) as [pHead pTd].
    destruct (localTD >=? pTd); [apply IH, Hc|].
    set (hist2 := (hist ++ [EFire Miner.DownloaderStartEvent])
                    ++ [EDownload (bp_bestPeer bp) (bp_chainNum bp) pHead pTd
                          localTD]).
    assert (Hc2 : countIf isStartFire hist2 = countIf isDownload hist2).
    { unfold hist2. rewrite !countIf_app, Hc. cbn. lia. }
    destruct (Synchronise env _ _ _ _ _ _) as [err|].
    + cbn [fst]. rewrite !countIf_app, Hc2. reflexivity.
    + destruct (broadcastChainHead env hist2 (bp_chainNum bp)) as [hist'|] eqn:Hb;
        [|exact Hc2].
      apply IH.
      rewrite (broadcastChainHead_count _ _ _ _ isStartFire (fun _ _ => eq_refl) Hb).
      rewrite (broadcastChainHead_count _ _ _ _ isDownload (fun _ _ => eq_refl) Hb).
      exact Hc2.
  - apply IH, Hc.
Qed.

(** C9. The skip condition of the synchroniser: a chain whose best peer
    reports a total difficulty less than or equal to the local one is
    passed over without any effect (no DownloaderStart fired, no download
    attempted: the round continues from the unchanged history); every
    download a round attempts was given a peer total difficulty strictly
    greater than the local one; and a round fires exactly one
    DownloaderStart event per download it attempts. *)
Theorem C9_synchroniser_skip env :
  (forall i bp rest hist localTD pHead pTd,
     validChain (Z.of_nat i) = true ->
     GetBlockTotalDifficulty env hist (Z.of_nat i)
       (HeaderHash (CurrentBlock env hist (Z.of_nat i))) = Ok localTD ->
     peerHead env hist (bp_bestPeer bp) (bp_chainNum bp) = (pHead, pTd) ->
     pTd <= localTD ->
     syncLoop env i (Some bp :: rest) hist = syncLoop env (S i) rest hist)
  /\ (forall bestPeers peerID chainNum pHead pTd localTD,
        In (EDownload peerID chainNum pHead pTd localTD)
           (fst (synchronise env bestPeers [])) ->
        localTD < pTd)
  /\ (forall bestPeers,
        countIf isStartFire (fst (synchronise env bestPeers []))
        = countIf isDownload (fst (synchronise env bestPeers []))).
Proof.
  split; [|split].
  - intros. eapply syncLoop_skip; eassumption.
  - intros bestPeers peerID chainNum pHead pTd localTD Hin.
    assert (Hj : Forall justified (fst (synchronise env bestPeers []))).
    { destruct bestPeers as [bps|]; cbn [synchronise].
      - apply syncLoop_justified. constructor.
      - constructor. }
    rewrite Forall_forall in Hj. apply list_elem_of_In in Hin.
    exact (Hj _ Hin).
  - intros [bps|]; cbn [synchronise]; [|reflexivity].
    apply syncLoop_starts. reflexivity.
Qed.

Lemma C9_synchroniser_skip_witness :
  syncLoop demoEnv 0 demoBestPeers [] = syncLoop demoEnv 2 (drop 2 demoBestPeers) []
  /\ fst (synchronise demoEnv (Some demoBestPeers) [])
     = [EFire Miner.DownloaderStartEvent; EDownload 7 2 502 20 10;
        ESend 7 (OutHeadStatus {| chs_TD := 10; chs_CurrentBlock := 1005;
                                  chs_ChainNum := 2 |});
        ESend 8 (OutHeadStatus {| chs_TD := 10; chs_CurrentBlock := 1005;
                                  chs_ChainNum := 2 |});
        EFire Miner.DownloaderDoneEvent]
  /\ 10 < 20.
Proof.
  destruct (C9_synchroniser_skip demoEnv) as (Hskip & Hdown & _).
  split; [|split; [reflexivity|]].
  - unfold demoBestPeers. cbn [drop].
    rewrite (Hskip 0%nat {| bp_bestPeer := 7; bp_chainNum := 0 |} _ [] 10 500 10
               eq_refl eq_refl eq_refl ltac:(lia)).
    rewrite (Hskip 1%nat {| bp_bestPeer := 7; bp_chainNum := 1 |} _ [] 10 501 5
               eq_refl eq_refl eq_refl ltac:(lia)).
    reflexivity.
  - apply (Hdown (Some demoBestPeers) 7 2 502). vm_compute. tauto.
Defined.

(** ** Service *)

(** With a recorded head, the monitor hands every received head to both
    pools, each with the head recorded before it, in order, and then
    waits for more. *)
Lemma monitorLoop_with_head chainNum : forall received lastHeader,
  IsEmpty lastHeader = false ->
  Forall (fun h => IsEmpty h = false) received ->
  monitorLoop chainNum lastHeader received
  = (expectedCalls chainNum lastHeader received,
     fold_left (fun _ h => h) received lastHeader, [], MonitorWaiting).
Proof.
  induction received as [|h rest IH]; intros lastHeader Hl Hr.
  - reflexivity.
  - apply Forall_cons in Hr as [Hh Hrest]. cbn [monitorLoop expectedCalls].
    rewrite Hl, (IH h Hh Hrest). reflexivity.
Qed.

(** Without a recorded head, the monitor records the first head it
    receives and returns: no pool is called and nothing further is
    received. *)
Lemma monitorLoop_without_head chainNum newHeader rest :
  monitorLoop chainNum EmptyHash (newHeader :: rest)
  = ([], newHeader, rest, MonitorReturned).
Proof. reflexivity. Qed.

(** [Stop] on a service whose protocol channels are open. *)
Lemma SeeleService_Stop_open s :
  quitCh (seeleProtocol s) = ChanOpen -> syncCh (seeleProtocol s) = ChanOpen ->
  SeeleService_Stop s
  = ({| seeleProtocol := {| quitCh := ChanClosed; syncCh := ChanClosed;
                            minedBlockListener := false;
                            newTxListener := false |};
        chainDBs := map CloseDB (chainDBs s);
        accountStateDB := CloseDB (accountStateDB s);
        lastHeaders := lastHeaders s;
        chainHeaderChangeChannels := chainHeaderChangeChannels s |},
     StopReturned None).
Proof.
  intros Hq Hs. unfold SeeleService_Stop, SeeleProtocol_Stop. cbn.
  rewrite Hq, Hs. reflexivity.
Qed.

(** [Stop] on a service whose quit channel is closed panics before any
    database is touched. *)
Lemma SeeleService_Stop_closed s :
  quitCh (seeleProtocol s) = ChanClosed ->
  snd (SeeleService_Stop s) = StopPanicked "close of closed channel"
  /\ chainDBs (fst (SeeleService_Stop s)) = chainDBs s
  /\ accountStateDB (fst (SeeleService_Stop s)) = accountStateDB s.
Proof.
  intros Hq. unfold SeeleService_Stop, SeeleProtocol_Stop. cbn.
  rewrite Hq. cbn. repeat split.
Qed.

(** C8 as stated fails: a second [Stop] of a service that was stopped
    panics, on closing the quit channel again. *)
Lemma C8_second_stop_panics :
  snd (SeeleService_Stop (fst (SeeleService_Stop (newService [11; 12; 13]))))
  = StopPanicked "close of closed channel".
Proof. reflexivity. Qed.

(** C8, as the code has it: [Stop] is for one use. On a service whose quit
    and sync channels are open the first call returns nil and calls
    [Close] once on every chain database and once on the account-state
    database; a second call panics on closing the closed quit channel,
    before any database is reached, so that no database is closed a
    second time. *)
Theorem C8_stop_once s :
  quitCh (seeleProtocol s) = ChanOpen -> syncCh (seeleProtocol s) = ChanOpen ->
  let s1 := fst (SeeleService_Stop s) in
  let s2 := fst (SeeleService_Stop s1) in
  snd (SeeleService_Stop s) = StopReturned None
  /\ map closeCalls (chainDBs s1) = map S (map closeCalls (chainDBs s))
  /\ closeCalls (accountStateDB s1) = S (closeCalls (accountStateDB s))
  /\ snd (SeeleService_Stop s1) = StopPanicked "close of closed channel"
  /\ chainDBs s2 = chainDBs s1
  /\ accountStateDB s2 = accountStateDB s1.
Proof.
  intros Hq Hs. cbv zeta. rewrite (SeeleService_Stop_open s Hq Hs). cbn [fst snd].
  split; [reflexivity|]. split.
  { cbn [chainDBs]. rewrite !map_map. reflexivity. }
  split; [reflexivity|].
  apply (SeeleService_Stop_closed
           {| seeleProtocol := {| quitCh := ChanClosed; syncCh := ChanClosed;
                                  minedBlockListener := false;
                                  newTxListener := false |};
              chainDBs := map CloseDB (chainDBs s);
              accountStateDB := CloseDB (accountStateDB s);
              lastHeaders := lastHeaders s;
              chainHeaderChangeChannels := chainHeaderChangeChannels s |}
           eq_refl).
Qed.

Lemma C8_stop_once_witness :
  snd (SeeleService_Stop (newService [11; 12; 13])) = StopReturned None
  /\ map closeCalls (chainDBs (fst (SeeleService_Stop (newService [11; 12; 13]))))
     = [1%nat; 1%nat; 1%nat]
  /\ closeCalls (accountStateDB (fst (SeeleService_Stop (newService [11; 12; 13]))))
     = 1%nat.
Proof.
  destruct (C8_stop_once (newService [11; 12; 13]) eq_refl eq_refl)
    as (Hret & Hdbs & Hacc & _).
  split; [exact Hret|]. split; [exact Hdbs|exact Hacc].
Defined.

(* ===================================================================== *)
(** * Further properties of the code *)
(* ===================================================================== *)

(** ** Miner: the nonce search *)

(** The nonces a search hashes are the first nonces of the orbit of its
    starting nonce: nothing is skipped or repeated out of turn. *)
Lemma keyMinerLoop_hashes_orbit env seed min max : forall n nonce dp f w r w',
  keyMinerLoop env n dp seed min max nonce f w = Done r w' ->
  exists k, (k <= n)%nat
    /\ hashedNonces (effects w')
       = hashedNonces (effects w) ++ orbit min max k nonce.
Proof.
  induction n as [|n IH]; intros nonce dp f w r w' Hrun; [discriminate|].
  cbn [keyMinerLoop] in Hrun.
  apply bind_Done in Hrun as (stop & w1 & Hp & Hrun).
  apply pollStop_Done in Hp as [He1 _].
  destruct stop.
  { apply bind_Done in Hrun as (u & w2 & Hem & Hret).
    apply emit_Done in Hem as [He2 _]. apply ret_Done in Hret as [_ ->].
    exists 0%nat. split; [lia|].
    rewrite He2, He1, hashedNonces_app. reflexivity. }
  destruct (negb (f =? 0)).
  { apply bind_Done in Hrun as (u & w2 & Hem & Hret).
    apply emit_Done in Hem as [He2 _]. apply ret_Done in Hret as [_ ->].
    exists 0%nat. split; [lia|].
    rewrite He2, He1, hashedNonces_app. reflexivity. }
  apply bind_Done in Hrun as (u & w2 & Hem & Hrun).
  apply emit_Done in Hem as [He2 _].
  assert (Hw2 : hashedNonces (effects w2) = hashedNonces (effects w) ++ [nonce]).
  { rewrite He2, He1, hashedNonces_app. reflexivity. }
  destruct (MustHash env (setNonce nonce dp) <=? keyTarget env).
  { apply bind_Done in Hrun as (u3 & w3 & Hmo & Hrun).
    apply modify_Done in Hmo as [He3 _].
    apply bind_Done in Hrun as (stop & w4 & Hp & Hrun).
    apply pollStop_Done in Hp as [He4 _].
    exists 1%nat. split; [lia|].
    destruct stop;
      apply bind_Done in Hrun as (u5 & w5 & Hem & Hret);
      apply emit_Done in Hem as [He5 _]; apply ret_Done in Hret as [_ ->];
      rewrite He5, He4, He3, hashedNonces_app, Hw2, app_nil_r; reflexivity. }
  destruct ((if nonce =? max then min else nonce) =? u64 (seed - 1)).
  { apply bind_Done in Hrun as (stop & w3 & Hp & Hrun).
    apply pollStop_Done in Hp as [He3 _].
    apply bind_Done in Hrun as (u4 & w4 & Hem & Hret).
    apply ret_Done in Hret as [_ ->].
    exists 1%nat. split; [lia|].
    destruct stop; apply emit_Done in Hem as [He4 _];
      rewrite He4, He3, hashedNonces_app, Hw2, app_nil_r; reflexivity. }
  apply IH in Hrun as (k & Hk & Hh).
  exists (S k). split; [lia|].
  rewrite Hh, Hw2, <- app_assoc. reflexivity.
Qed.

Lemma nextNonce_in_range min max nonce :
  0 <= min -> min < max -> max <= MaxUint64 ->
  min <= nonce <= max ->
  min < nextNonce min max nonce <= max.
Proof.
  unfold MaxUint64, nextNonce, u64. intros Hmin Hlt Hmax Hn.
  destruct (Z.eqb_spec nonce max); rewrite Z.mod_small; lia.
Qed.

Lemma orbit_in_range min max :
  0 <= min -> min < max -> max <= MaxUint64 ->
  forall k nonce, min <= nonce <= max ->
    Forall (fun x => min <= x <= max) (orbit min max k nonce).
Proof.
  intros Hmin Hlt Hmax. induction k as [|k IH]; intros nonce Hn; cbn [orbit].
  - constructor.
  - constructor; [exact Hn|]. apply IH.
    pose proof (nextNonce_in_range min max nonce Hmin Hlt Hmax Hn). lia.
Qed.

(** X1. A search keeps to its range: started at a seed of a range
    [min, max] with [min < max], [StartMiningForKey] hashes only nonces
    of [min, max], whatever the hash function and the stop signals. *)
Theorem StartMiningForKey_stays_in_range env dp seed min max f w r w' :
  0 <= min -> min < max -> max <= MaxUint64 ->
  min <= seed <= max ->
  StartMiningForKey env dp seed min max f w = Done r w' ->
  exists added,
    hashedNonces (effects w') = hashedNonces (effects w) ++ added
    /\ Forall (fun x => min <= x <= max) added.
Proof.
  intros Hmin Hlt Hmax Hs Hrun. unfold StartMiningForKey in Hrun.
  apply keyMinerLoop_hashes_orbit in Hrun as (k & _ & Hh).
  exists (orbit min max k seed). split; [exact Hh|].
  apply orbit_in_range; assumption.
Qed.

Lemma StartMiningForKey_stays_in_range_witness :
  exists added,
    hashedNonces
      (effects {| miner := miner keyWorld; randPos := 0; pollPos := 10;
                  allocs := 2;
                  effects := map EHash [5; 6; 7; 8; 9; 1; 2; 3; 4]
                             ++ [ELog LogOutage] |})
    = hashedNonces (effects keyWorld) ++ added
    /\ Forall (fun x => 0 <= x <= 9) added.
Proof.
  apply (StartMiningForKey_stays_in_range envNoKey emptyPack 5 0 9 0 keyWorld
           ({| Heights := [0; 0; 0]; TxHashes := [0; 0; 0]; dp_Nonce := 4 |}, 0)
           {| miner := miner keyWorld; randPos := 0; pollPos := 10; allocs := 2;
              effects := map EHash [5; 6; 7; 8; 9; 1; 2; 3; 4]
                         ++ [ELog LogOutage] |}).
  - lia.
  - lia.
  - unfold MaxUint64. lia.
  - lia.
  - vm_compute. reflexivity.
Defined.

Lemma pollStop_returns env w : exists b w1, pollStop env w = Done b w1.
Proof. unfold pollStop. destruct (stopChan (miner w)); eauto. Qed.

(** From a nonce of the range other than [min], a search seeded above
    [min] returns within the number of nonces left before [seed - 1]. *)
Lemma keyMinerLoop_returns env seed min max :
  0 <= min -> min < seed -> seed <= max -> max <= MaxUint64 ->
  forall n nonce dp f w,
    (seed <= nonce <= max \/ min < nonce < seed) ->
    (if seed <=? nonce then max - nonce + (seed - min) else seed - nonce)
      <= Z.of_nat n ->
    exists r w', keyMinerLoop env n dp seed min max nonce f w = Done r w'.
Proof.
  intros Hmin Hseed Hmax Hu. unfold MaxUint64 in Hu.
  assert (Hs1 : u64 (seed - 1) = seed - 1).
  { unfold u64. apply Z.mod_small. lia. }
  induction n as [|n IH]; intros nonce dp f w Hdom Hfuel.
  { destruct (Z.leb_spec seed nonce); lia. }
  cbn [keyMinerLoop]. unfold bind at 1.
  destruct (pollStop_returns env w) as (stop & w1 & ->).
  destruct stop; [unfold bind, emit, ret; eauto|].
  destruct (negb (f =? 0)); [unfold bind, emit, ret; eauto|].
  unfold bind at 1. unfold emit at 1.
  destruct (MustHash env (setNonce nonce dp) <=? keyTarget env).
  { unfold bind at 1. unfold modify at 1. unfold bind at 1.
    match goal with |- context [pollStop env ?w2] =>
      destruct (pollStop_returns env w2) as (stop & w3 & ->) end.
    destruct stop; unfold bind, emit, ret; eauto. }
  rewrite Hs1.
  destruct (Z.eqb_spec (if nonce =? max then min else nonce) (seed - 1))
    as [Hout|Hgo].
  { unfold bind at 1.
    match goal with |- context [pollStop env ?w2] =>
      destruct (pollStop_returns env w2) as (stop & w3 & ->) end.
    destruct stop; unfold bind, emit, ret; eauto. }
  apply IH.
  - unfold u64. destruct (Z.eqb_spec nonce max); rewrite Z.mod_small; lia.
  - unfold u64.
    destruct (Z.eqb_spec nonce max); rewrite Z.mod_small by lia;
      destruct (Z.leb_spec seed nonce);
      match goal with |- context [seed <=? ?x] =>
        destruct (Z.leb_spec seed x) end; lia.
Qed.

(** X2. A search seeded above [min] ends: with [min < seed <= max] and
    at least [max - min] rounds allowed, [StartMiningForKey] returns (a key
    found, a stop, or the outage), whatever the hash function and the
    signals. *)
Theorem StartMiningForKey_returns env dp seed min max f w :
  0 <= min -> min < seed -> seed <= max -> max <= MaxUint64 ->
  max - min <= Z.of_nat (fuel env) ->
  exists r w', StartMiningForKey env dp seed min max f w = Done r w'.
Proof.
  intros Hmin Hseed Hmax Hu Hfuel. unfold StartMiningForKey.
  apply keyMinerLoop_returns; try assumption; [lia|].
  destruct (Z.leb_spec seed seed); lia.
Qed.

Lemma StartMiningForKey_returns_witness :
  exists r w', StartMiningForKey envNoKey emptyPack 5 0 9 0 keyWorld = Done r w'.
Proof.
  apply (StartMiningForKey_returns envNoKey emptyPack 5 0 9 0 keyWorld).
  - lia.
  - lia.
  - lia.
  - unfold MaxUint64. lia.
  - cbn. lia.
Defined.

(** When a search that entered with the flag down returns with the flag
    up, the key it stored is the hash of the data pack it returns, and
    that hash meets the target. *)
Lemma keyMinerLoop_found_sound env seed min max : forall n nonce dp w dp' w',
  keyMinerLoop env n dp seed min max nonce 0 w = Done (dp', 1) w' ->
  miningKeyHash (miner w') = MustHash env dp'
  /\ MustHash env dp' <= keyTarget env
  /\ In (dp_Nonce dp') (hashedNonces (effects w')).
Proof.
  induction n as [|n IH]; intros nonce dp w dp' w' Hrun; [discriminate|].
  cbn [keyMinerLoop] in Hrun.
  apply bind_Done in Hrun as (stop & w1 & Hp & Hrun).
  apply pollStop_Done in Hp as [He1 Hm1].
  destruct stop.
  { apply bind_Done in Hrun as (u & w2 & _ & Hret).
    apply ret_Done in Hret as [Heq _]. discriminate. }
  cbn [Z.eqb negb] in Hrun.
  apply bind_Done in Hrun as (u & w2 & Hem & Hrun).
  apply emit_Done in Hem as [He2 Hm2].
  destruct (Z.leb_spec (MustHash env (setNonce nonce dp)) (keyTarget env))
    as [Hle|Hgt].
  { apply bind_Done in Hrun as (u3 & w3 & Hmo & Hrun).
    apply modify_Done in Hmo as [He3 Hm3].
    apply bind_Done in Hrun as (stop & w4 & Hp & Hrun).
    apply pollStop_Done in Hp as [He4 Hm4].
    destruct stop;
      apply bind_Done in Hrun as (u5 & w5 & Hem & Hret);
      apply emit_Done in Hem as [He5 Hm5]; apply ret_Done in Hret as [Heq ->];
      [discriminate|].
    injection Heq as ->.
    rewrite Hm5, Hm4, Hm3. split; [reflexivity|]. split; [exact Hle|].
    rewrite He5, He4, He3, He2, !hashedNonces_app, !in_app_iff. cbn. tauto. }
  destruct ((if nonce =? max then min else nonce) =? u64 (seed - 1)).
  { apply bind_Done in Hrun as (stop & w3 & _ & Hrun).
    apply bind_Done in Hrun as (u4 & w4 & _ & Hret).
    apply ret_Done in Hret as [Heq _]. discriminate. }
  exact (IH _ _ _ _ _ Hrun).
Qed.

(** X3. A key that is found is sound: when [StartMiningForKey], entered
    with [isNonceFound] at 0, returns with the flag at 1, the miner's
    [miningKeyHash] is the hash of the returned data pack, that hash is at
    most the key target, and the pack's nonce is one the search hashed. *)
Theorem StartMiningForKey_found_sound env dp seed min max w dp' w' :
  StartMiningForKey env dp seed min max 0 w = Done (dp', 1) w' ->
  miningKeyHash (miner w') = MustHash env dp'
  /\ MustHash env dp' <= keyTarget env
  /\ In (dp_Nonce dp') (hashedNonces (effects w')).
Proof. apply keyMinerLoop_found_sound. Qed.

Lemma StartMiningForKey_found_sound_witness :
  exists dp' w',
    StartMiningForKey envAtGenesis emptyPack 5 0 9 0 keyWorld = Done (dp', 1) w'
    /\ miningKeyHash (miner w') = MustHash envAtGenesis dp'
    /\ MustHash envAtGenesis dp' <= keyTarget envAtGenesis
    /\ In (dp_Nonce dp') (hashedNonces (effects w')).
Proof.
  eexists _, _. split; [vm_compute; reflexivity|].
  eapply (StartMiningForKey_found_sound envAtGenesis emptyPack 5 0 9 keyWorld).
  vm_compute. reflexivity.
Defined.

(** ** Miner: the ranges of the search threads *)

(** The thread loop of [commitTaskToKeyMining] runs thread [i] on the
    seed, the lower bound and the upper bound named above. *)
Lemma keyThreads_unfold env i rest threads step dp f :
  keyThreads env (i :: rest) threads step dp f
  = (mlet seed := drawSeed env threads step in
     mlet r := StartMiningForKey env dp (threadSeed seed i step)
                 (rangeMin i step) (rangeMax i threads step) f in
     emit EWgWait ;; keyThreads env rest threads step (fst r) (snd r)).
Proof. reflexivity. Qed.

Lemma rangeStep_bounds threads :
  1 <= threads <= 2 ^ 63 - 1 ->
  1 <= rangeStep threads /\ threads * rangeStep threads <= MaxUint64
  /\ MaxUint64 < threads * rangeStep threads + threads.
Proof.
  intros Ht. unfold rangeStep, MaxUint64, u64.
  destruct (Z.eqb_spec threads 0); [lia|]. cbn [negb].
  rewrite (Z.mod_small threads) by lia.
  pose proof (Z.mul_div_le (2 ^ 64 - 1) threads ltac:(lia)).
  pose proof (Z.mul_succ_div_gt (2 ^ 64 - 1) threads ltac:(lia)).
  assert (1 <= (2 ^ 64 - 1) / threads).
  { apply Z.div_le_lower_bound; lia. }
  lia.
Qed.

(** X4. The ranges of the key-mining threads tile the nonce space: for
    [threads] from 1 to 2^63 - 1, the first range starts at 0, the last
    ends at 2^64 - 1, each range starts right after the one before, and
    no range is empty. *)
Theorem key_thread_ranges_tile threads :
  1 <= threads <= 2 ^ 63 - 1 ->
  rangeMin 0 (rangeStep threads) = 0
  /\ rangeMax (threads - 1) threads (rangeStep threads) = MaxUint64
  /\ (forall i, 0 <= i < threads - 1 ->
        rangeMin (i + 1) (rangeStep threads)
        = rangeMax i threads (rangeStep threads) + 1)
  /\ (forall i, 0 <= i < threads ->
        0 <= rangeMin i (rangeStep threads)
           <= rangeMax i threads (rangeStep threads)
        /\ rangeMax i threads (rangeStep threads) <= MaxUint64).
Proof.
  intros Ht. destruct (rangeStep_bounds threads Ht) as (Hs1 & Hs2 & _).
  set (step := rangeStep threads) in *. unfold MaxUint64 in *.
  assert (Hmin : forall i, 0 <= i < threads -> rangeMin i step = i * step).
  { intros i Hi. unfold rangeMin, u64. apply Z.mod_small. nia. }
  split; [reflexivity|]. split.
  { unfold rangeMax. rewrite Z.eqb_refl. reflexivity. }
  split.
  - intros i Hi. unfold rangeMax.
    destruct (Z.eqb_spec i (threads - 1)); [lia|]. cbn [negb].
    rewrite !Hmin by lia. unfold u64. rewrite Z.mod_small by nia. lia.
  - intros i Hi. unfold rangeMax. rewrite Hmin by lia.
    destruct (Z.eqb_spec i (threads - 1)); cbn [negb].
    + unfold MaxUint64. nia.
    + unfold u64. rewrite Z.mod_small by nia. nia.
Qed.

Lemma key_thread_ranges_tile_witness :
  rangeMin 0 (rangeStep 4) = 0
  /\ rangeMax (4 - 1) 4 (rangeStep 4) = MaxUint64
  /\ rangeMin (1 + 1) (rangeStep 4) = rangeMax 1 4 (rangeStep 4) + 1.
Proof.
  destruct (key_thread_ranges_tile 4 ltac:(lia)) as (H0 & Hlast & Hnext & _).
  split; [exact H0|]. split; [exact Hlast|]. apply Hnext. lia.
Defined.

(** X5. The seed of a thread lies in the range of the thread: whatever
    the random source yields, the seed that [commitTaskToKeyMining] gives
    thread [i] is between the bounds it gives that thread. *)
Theorem key_thread_seed_in_range env threads i w seed w1 :
  1 <= threads <= 2 ^ 63 - 1 ->
  0 <= i < threads ->
  drawSeed env threads (rangeStep threads) w = Done seed w1 ->
  rangeMin i (rangeStep threads)
    <= threadSeed seed i (rangeStep threads)
    <= rangeMax i threads (rangeStep threads).
Proof.
  intros Ht Hi Hd.
  destruct (rangeStep_bounds threads Ht) as (Hs1 & Hs2 & Hs3).
  set (step := rangeStep threads) in *. unfold MaxUint64 in *.
  assert (Hmin : rangeMin i step = i * step).
  { unfold rangeMin, u64. apply Z.mod_small. nia. }
  unfold drawSeed in Hd. destruct (Z.eqb_spec threads 1) as [->|Hne].
  - assert (i = 0) as -> by lia.
    unfold Uint64, bind, draw, ret in Hd. injection Hd as <- _.
    pose proof (Z.mod_pos_bound (randSrc env (randPos w)) (2 ^ 64) ltac:(lia))
      as Hr.
    unfold threadSeed, rangeMax, rangeMin.
    replace (0 * step) with 0 by lia. change (1 - 1) with 0.
    rewrite Z.eqb_refl, Z.add_0_r. cbn [negb].
    unfold u64, MaxUint64. rewrite (Z.mod_small (_ mod _)) by lia.
    rewrite Z.mod_0_l by lia. lia.
  - apply bind_Done in Hd as (v & w2 & Hv & Hret).
    apply ret_Done in Hret as [-> _].
    apply Intn_Done in Hv as (_ & Hv & _).
    assert (Hst : toInt64 step = step).
    { unfold toInt64. destruct (Z.ltb_spec step (2 ^ 63)); [reflexivity|nia]. }
    rewrite Hst in Hv.
    assert (Hv64 : u64 v = v). { unfold u64. apply Z.mod_small. nia. }
    rewrite Hv64, Hmin. unfold threadSeed, rangeMax. rewrite Hmin.
    assert (Hseed : u64 (v + i * step) = v + i * step).
    { unfold u64. apply Z.mod_small. nia. }
    rewrite Hseed.
    destruct (Z.eqb_spec i (threads - 1)); cbn [negb].
    + unfold MaxUint64. nia.
    + unfold u64. rewrite Z.mod_small by nia. lia.
Qed.

Lemma key_thread_seed_in_range_witness :
  rangeMin 2 (rangeStep 4)
    <= threadSeed (u64 (randSrc envNoKey 0 mod toInt64 (rangeStep 4))) 2 (rangeStep 4)
    <= rangeMax 2 4 (rangeStep 4).
Proof.
  apply (key_thread_seed_in_range envNoKey 4 2 (NewMiner 0) _
           {| miner := miner (NewMiner 0); randPos := 1; pollPos := 0;
              allocs := 1; effects := [] |}).
  - lia.
  - lia.
  - reflexivity.
Defined.

(** ** Miner: chain selection *)

(** X6. The chain a mining key selects exists: for every key hash, the
    chain number computed by [getChainNumByMiningKey] is one of the
    [numOfChains] chains, so indexing the chain array with it is safe. *)
Theorem getChainNumByMiningKey_valid miningKeyHashInt :
  0 <= getChainNumByMiningKey miningKeyHashInt < Z.of_nat numOfChains.
Proof.
  unfold getChainNumByMiningKey. apply Z.mod_pos_bound.
  change (Z.of_nat numOfChains) with 3. lia.
Qed.

(** X7. [int2bytes] writes the low 32 bits, most significant byte first:
    the result has four bytes, each below 256, and read back big-endian
    they give the number modulo 2^32. *)
Theorem int2bytes_big_endian num :
  length (int2bytes num) = 4%nat
  /\ Forall (fun b => 0 <= b < 256) (int2bytes num)
  /\ fold_left (fun acc b => acc * 256 + b) (int2bytes num) 0 = num mod 2 ^ 32.
Proof.
  unfold int2bytes. set (v := num mod 2 ^ 32).
  assert (Hv : 0 <= v < 2 ^ 32) by (apply Z.mod_pos_bound; lia).
  split; [reflexivity|]. split.
  - repeat constructor; try (apply Z.mod_pos_bound; lia).
    + apply Z.div_pos; lia.
    + apply Z.div_lt_upper_bound; lia.
  - cbn [fold_left].
    pose proof (Z.div_mod v (2 ^ 8) ltac:(lia)) as H8.
    pose proof (Z.div_mod (v / 2 ^ 8) (2 ^ 8) ltac:(lia)) as H16.
    pose proof (Z.div_mod (v / 2 ^ 8 / 2 ^ 8) (2 ^ 8) ltac:(lia)) as H24.
    rewrite !Z.div_div in * by lia.
    change (2 ^ 8 * 2 ^ 8) with (2 ^ 16) in *.
    change (2 ^ 16 * 2 ^ 8) with (2 ^ 24) in *.
    assert (H32 : v / 2 ^ 24 / 2 ^ 8 = 0).
    { rewrite Z.div_div by lia. apply Z.div_small. change (2 ^ 24 * 2 ^ 8) with (2 ^ 32). lia. }
    assert (Hsm : (v / 2 ^ 24) mod 2 ^ 8 = v / 2 ^ 24).
    { apply Z.mod_small. split; [apply Z.div_pos; lia|].
      apply Z.div_lt_upper_bound; lia. }
    change 256 with (2 ^ 8). lia.
Qed.

(** ** Miner: what a mining loop leaves alone *)

Lemma draw_Done env w r w1 :
  draw env w = Done r w1 -> miner w1 = miner w /\ effects w1 = effects w.
Proof. unfold draw. intros H. injection H as _ <-. split; reflexivity. Qed.

Lemma alloc_Done w r w1 :
  alloc w = Done r w1 -> miner w1 = miner w /\ effects w1 = effects w.
Proof. unfold alloc. intros H. injection H as _ <-. split; reflexivity. Qed.

Lemma getMiner_Done w m w1 : getMiner w = Done m w1 -> m = miner w /\ w1 = w.
Proof. unfold getMiner. intros H. injection H as <- <-. split; reflexivity. Qed.

Lemma keyMinerLoop_control env seed min max : forall n nonce dp f w r w',
  keyMinerLoop env n dp seed min max nonce f w = Done r w' ->
  control (miner w') = control (miner w).
Proof.
  induction n as [|n IH]; intros nonce dp f w r w' Hrun; [discriminate|].
  cbn [keyMinerLoop] in Hrun.
  apply bind_Done in Hrun as (stop & w1 & Hp & Hrun).
  apply pollStop_Done in Hp as [_ Hm1].
  destruct stop.
  { apply bind_Done in Hrun as (u & w2 & Hem & Hret).
    apply emit_Done in Hem as [_ Hm2]. apply ret_Done in Hret as [_ ->].
    rewrite Hm2, Hm1. reflexivity. }
  destruct (negb (f =? 0)).
  { apply bind_Done in Hrun as (u & w2 & Hem & Hret).
    apply emit_Done in Hem as [_ Hm2]. apply ret_Done in Hret as [_ ->].
    rewrite Hm2, Hm1. reflexivity. }
  apply bind_Done in Hrun as (u & w2 & Hem & Hrun).
  apply emit_Done in Hem as [_ Hm2].
  destruct (MustHash env (setNonce nonce dp) <=? keyTarget env).
  { apply bind_Done in Hrun as (u3 & w3 & Hmo & Hrun).
    apply modify_Done in Hmo as [_ Hm3].
    apply bind_Done in Hrun as (stop & w4 & Hp & Hrun).
    apply pollStop_Done in Hp as [_ Hm4].
    destruct stop;
      apply bind_Done in Hrun as (u5 & w5 & Hem & Hret);
      apply emit_Done in Hem as [_ Hm5]; apply ret_Done in Hret as [_ ->];
      rewrite Hm5, Hm4, Hm3, Hm2, Hm1; reflexivity. }
  destruct ((if nonce =? max then min else nonce) =? u64 (seed - 1)).
  { apply bind_Done in Hrun as (stop & w3 & Hp & Hrun).
    apply pollStop_Done in Hp as [_ Hm3].
    apply bind_Done in Hrun as (u4 & w4 & Hem & Hret).
    apply ret_Done in Hret as [_ ->].
    destruct stop; apply emit_Done in Hem as [_ Hm4];
      rewrite Hm4, Hm3, Hm2, Hm1; reflexivity. }
  apply IH in Hrun. rewrite Hrun, Hm2, Hm1. reflexivity.
Qed.

Lemma drawSeed_control env threads step w seed w1 :
  drawSeed env threads step w = Done seed w1 -> miner w1 = miner w.
Proof.
  unfold drawSeed, Uint64, Intn.
  destruct (threads =? 1).
  - intros H. apply bind_Done in H as (r & w2 & Hd & Hret).
    apply draw_Done in Hd as [Hm _]. apply ret_Done in Hret as [_ ->]. exact Hm.
  - destruct (toInt64 step <=? 0); [discriminate|].
    intros H. apply bind_Done in H as (v & w2 & Hd & Hret).
    apply bind_Done in Hd as (r & w3 & Hd & Hret').
    apply draw_Done in Hd as [Hm _]. apply ret_Done in Hret' as [_ ->].
    apply ret_Done in Hret as [_ ->]. exact Hm.
Qed.

Lemma keyThreads_control env threads step : forall idxs dp f w r w',
  keyThreads env idxs threads step dp f w = Done r w' ->
  control (miner w') = control (miner w).
Proof.
  induction idxs as [|i rest IH]; intros dp f w r w' Hrun.
  - apply ret_Done in Hrun as [_ ->]. reflexivity.
  - rewrite keyThreads_unfold in Hrun.
    apply bind_Done in Hrun as (seed & w1 & Hd & Hrun).
    apply drawSeed_control in Hd.
    apply bind_Done in Hrun as (r1 & w2 & Hs & Hrun).
    apply keyMinerLoop_control in Hs.
    apply bind_Done in Hrun as (u & w3 & Hem & Hrun).
    apply emit_Done in Hem as [_ Hm3].
    apply IH in Hrun. rewrite Hrun, Hm3, Hs, Hd. reflexivity.
Qed.

Lemma commitTaskToKeyMining_control env dp w u w' :
  commitTaskToKeyMining env dp w = Done u w' ->
  control (miner w') = control (miner w).
Proof.
  unfold commitTaskToKeyMining. intros Hrun.
  apply bind_Done in Hrun as (m & w1 & Hg & Hrun).
  apply getMiner_Done in Hg as [-> ->].
  destruct (negb (mining (miner w) =? 1)).
  - apply ret_Done in Hrun as [_ ->]. reflexivity.
  - apply bind_Done in Hrun as (r & w2 & Hk & Hret).
    apply ret_Done in Hret as [_ ->].
    exact (keyThreads_control _ _ _ _ _ _ _ _ _ Hk).
Qed.

Lemma getMiningKeyLoop_control env : forall idxs heights txHashes w r w',
  getMiningKeyLoop env idxs heights txHashes w = Done r w' ->
  control (miner w') = control (miner w) /\ effects w' = effects w.
Proof.
  induction idxs as [|i rest IH]; intros heights txHashes w r w' Hrun.
  - apply ret_Done in Hrun as [_ ->]. split; reflexivity.
  - cbn [getMiningKeyLoop] in Hrun.
    destruct (chainHeight env i >? StartHeightOfGetMiningKeyFromChain).
    + apply bind_Done in Hrun as (x & w1 & Hx & Hrun).
      apply Intn_Done in Hx as (_ & _ & He1 & Hm1).
      destruct (GetBlockByHeight env i _) as [blk|e].
      2:{ apply ret_Done in Hrun as [_ ->]. rewrite Hm1, He1. split; reflexivity. }
      apply bind_Done in Hrun as (k & w2 & Hk & Hrun).
      apply Intn_Done in Hk as (_ & _ & He2 & Hm2).
      destruct (Transactions blk !! Z.to_nat k); [|discriminate].
      apply IH in Hrun as [Hc He]. rewrite Hc, He, Hm2, He2, Hm1, He1.
      split; reflexivity.
    + apply bind_Done in Hrun as (x & w1 & Hx & Hrun).
      apply Intn_Done in Hx as (_ & _ & He1 & Hm1).
      apply bind_Done in Hrun as (u & w2 & Hmo & Hret).
      apply modify_Done in Hmo as [He2 Hm2]. apply ret_Done in Hret as [_ ->].
      rewrite Hm2, He2, Hm1, He1. split; reflexivity.
Qed.

Lemma getMiningKey_control env w r w' :
  getMiningKey env w = Done r w' -> control (miner w') = control (miner w).
Proof.
  unfold getMiningKey. intros Hrun.
  apply bind_Done in Hrun as (x & w1 & Hl & Hrun).
  apply getMiningKeyLoop_control in Hl as [Hc _].
  destruct x as [e|hs ts].
  - apply ret_Done in Hrun as [_ ->]. exact Hc.
  - apply bind_Done in Hrun as (u & w2 & Hk & Hret).
    apply ret_Done in Hret as [_ ->].
    apply commitTaskToKeyMining_control in Hk. rewrite Hk. exact Hc.
Qed.

Lemma prepareNewBlock_control env chainNum w r w' :
  prepareNewBlock env chainNum w = Done r w' ->
  control (miner w') = control (miner w).
Proof.
  unfold prepareNewBlock. intros Hrun.
  destruct (GetCurrentInfo env chainNum) as [parent|e].
  2:{ apply ret_Done in Hrun as [_ ->]. reflexivity. }
  apply bind_Done in Hrun as (u & w1 & Hsl & Hrun).
  assert (Hm1 : miner w1 = miner w).
  { destruct (_ >? _) in Hsl.
    - apply emit_Done in Hsl as [_ H]. exact H.
    - apply ret_Done in Hsl as [_ ->]. reflexivity. }
  apply bind_Done in Hrun as (m & w2 & Hg & Hrun).
  apply getMiner_Done in Hg as [-> ->].
  apply bind_Done in Hrun as (id & w3 & Ha & Hrun).
  apply alloc_Done in Ha as [Hm3 _].
  apply bind_Done in Hrun as (u4 & w4 & Hmo & Hrun).
  apply modify_Done in Hmo as [_ Hm4].
  destruct (snd (applyTransactionsAndDebts env _)) as [err|].
  - apply ret_Done in Hrun as [_ ->]. rewrite Hm4, Hm3, Hm1. reflexivity.
  - apply bind_Done in Hrun as (u5 & w5 & Hc & Hret).
    apply ret_Done in Hret as [_ ->].
    unfold commitTask in Hc.
    apply bind_Done in Hc as (m5 & w6 & Hg & Hc).
    apply getMiner_Done in Hg as [-> ->].
    assert (Hm5 : miner w5 = miner w4).
    { destruct (negb _) in Hc.
      - apply ret_Done in Hc as [_ ->]. reflexivity.
      - apply emit_Done in Hc as [_ H]. exact H. }
    rewrite Hm5, Hm4, Hm3, Hm1. reflexivity.
Qed.

(** The mining loop writes the mining key and the current task and
    nothing else of the miner: flags, channels, thread count and coinbase
    are as before. *)
Lemma NewMiningLoop_control env w r w' :
  NewMiningLoop env w = Done r w' -> control (miner w') = control (miner w).
Proof.
  unfold NewMiningLoop. intros Hrun.
  apply bind_Done in Hrun as (err & w1 & Hk & Hrun).
  apply getMiningKey_control in Hk.
  destruct err as [e|].
  - apply ret_Done in Hrun as [_ ->]. exact Hk.
  - apply bind_Done in Hrun as (m & w2 & Hg & Hrun).
    apply getMiner_Done in Hg as [-> ->].
    apply prepareNewBlock_control in Hrun. rewrite Hrun. exact Hk.
Qed.

(** ** Miner: starting and stopping *)

(** The ways [Start] returns. *)
Lemma Start_cases env w r w' :
  Start env w = Done r w' ->
  (r = Some ErrMinerIsRunning /\ mining (miner w) = 1 /\ miner w' = miner w)
  \/ (r = Some ErrNodeIsSyncing /\ mining (miner w) <> 1
      /\ canStart (miner w) = 0 /\ miner w' = miner w)
  \/ (r = None /\ mining (miner w) <> 1 /\ mining (miner w) <> 0
      /\ canStart (miner w) <> 0 /\ miner w' = miner w)
  \/ ((exists e, r = Some e) /\ mining (miner w) = 0
      /\ canStart (miner w) <> 0
      /\ control (miner w')
         = control (setStopChan (Some (allocs w)) (miner w)))
  \/ (r = None /\ mining (miner w) = 0 /\ canStart (miner w) <> 0
      /\ control (miner w')
         = control (setStopped 0 (setStopChan (Some (allocs w))
                                    (setMining 1 (miner w))))
      /\ In EGoWaitBlock (effects w')).
Proof.
  unfold Start. intros Hrun.
  apply bind_Done in Hrun as (m & w0 & Hg & Hrun).
  apply getMiner_Done in Hg as [-> ->].
  destruct (Z.eqb_spec (mining (miner w)) 1) as [Hm1|Hm1].
  { apply bind_Done in Hrun as (u & w1 & Hem & Hret).
    apply emit_Done in Hem as [_ Hm]. apply ret_Done in Hret as [-> ->].
    left. auto. }
  destruct (Z.eqb_spec (canStart (miner w)) 0) as [Hc|Hc].
  { apply bind_Done in Hrun as (u & w1 & Hem & Hret).
    apply emit_Done in Hem as [_ Hm]. apply ret_Done in Hret as [-> ->].
    right. left. auto. }
  destruct (Z.eqb_spec (mining (miner w)) 0) as [Hm0|Hm0]; cbn [negb] in Hrun.
  2:{ apply bind_Done in Hrun as (u & w1 & Hem & Hret).
      apply emit_Done in Hem as [_ Hm]. apply ret_Done in Hret as [-> ->].
      right. right. left. auto. }
  apply bind_Done in Hrun as (u1 & w1 & Hmo1 & Hrun).
  unfold modify in Hmo1. injection Hmo1 as Hw1. subst w1.
  apply bind_Done in Hrun as (c & w2 & Ha & Hrun).
  unfold alloc in Ha. cbn [allocs miner randPos pollPos effects] in Ha.
  injection Ha as Hc2 Hw2. subst c w2.
  apply bind_Done in Hrun as (u3 & w3 & Hmo3 & Hrun).
  apply modify_Done in Hmo3 as [_ Hmm3]. cbn [miner] in Hmm3.
  apply bind_Done in Hrun as (err & w4 & Hl & Hrun).
  apply NewMiningLoop_control in Hl.
  destruct err as [e|].
  - apply bind_Done in Hrun as (u5 & w5 & Hem & Hrun).
    apply emit_Done in Hem as [_ Hmm5].
    apply bind_Done in Hrun as (u6 & w6 & Hmo6 & Hret).
    apply modify_Done in Hmo6 as [_ Hmm6]. apply ret_Done in Hret as [-> ->].
    right. right. right. left.
    split; [eauto|]. split; [exact Hm0|]. split; [exact Hc|].
    rewrite Hmm6. unfold control in *. cbn.
    rewrite Hmm5 in *. rewrite Hmm3 in Hl. cbn in Hl.
    injection Hl as _ -> -> -> -> -> -> ->. rewrite Hm0. reflexivity.
  - apply bind_Done in Hrun as (u5 & w5 & Hmo5 & Hrun).
    apply modify_Done in Hmo5 as [He5 Hmm5].
    apply bind_Done in Hrun as (u6 & w6 & Hem6 & Hrun).
    apply emit_Done in Hem6 as [He6 Hmm6].
    apply bind_Done in Hrun as (u7 & w7 & Hem7 & Hret).
    apply emit_Done in Hem7 as [He7 Hmm7]. apply ret_Done in Hret as [-> ->].
    right. right. right. right.
    split; [reflexivity|]. split; [exact Hm0|]. split; [exact Hc|]. split.
    + rewrite Hmm7, Hmm6, Hmm5. unfold control in *. cbn.
      rewrite Hmm3 in Hl. cbn in Hl.
      injection Hl as -> -> _ -> -> -> -> ->. reflexivity.
    + rewrite He7, He6, !in_app_iff. cbn. tauto.
Qed.

(** X8. [Start] holds the mining flag only when it succeeds. From a miner
    that is not mining (flag 0): if [Start] returns an error the flag is
    0 again; if it returns nil after a start was allowed, the flag is 1,
    [stopped] is 0, the stop channel is the channel just made and
    [waitBlock] has been launched. In both cases canStart, the receive
    channel, isFirstDownloader, the thread count and the coinbase are
    untouched. *)
Theorem Start_from_idle env w r w' :
  mining (miner w) = 0 ->
  Start env w = Done r w' ->
  canStart (miner w') = canStart (miner w)
  /\ recv (miner w') = recv (miner w)
  /\ isFirstDownloader (miner w') = isFirstDownloader (miner w)
  /\ threads (miner w') = threads (miner w)
  /\ coinbase (miner w') = coinbase (miner w)
  /\ match r with
     | Some _ => mining (miner w') = 0 /\ stopped (miner w') = stopped (miner w)
     | None => mining (miner w') = 1 /\ stopped (miner w') = 0
               /\ stopChan (miner w') = Some (allocs w)
               /\ In EGoWaitBlock (effects w')
     end.
Proof.
  intros Hm Hrun.
  destruct (Start_cases env w r w' Hrun)
    as [(_ & H1 & _)|[(-> & _ & _ & ->)|[(_ & _ & H0 & _)|[((e & ->) & _ & _ & Hc)
       |(-> & _ & _ & Hc & Hin)]]]]; try congruence.
  - repeat split; exact Hm.
  - unfold control in Hc. cbn in Hc. injection Hc as -> -> -> _ -> -> -> ->.
    rewrite Hm. repeat split.
  - unfold control in Hc. cbn in Hc. injection Hc as -> -> -> -> -> -> -> ->.
    repeat split. exact Hin.
Qed.

Lemma Start_from_idle_witness :
  exists w',
    Start envAtGenesis (NewMiner 0) = Done None w'
    /\ mining (miner w') = 1 /\ stopped (miner w') = 0
    /\ stopChan (miner w') = Some 1%nat
    /\ In EGoWaitBlock (effects w').
Proof.
  eexists. split; [vm_compute; reflexivity|].
  eapply (proj2 (proj2 (proj2 (proj2 (proj2
           (Start_from_idle envAtGenesis (NewMiner 0) None _ eq_refl _)))))).
  Unshelve. vm_compute. reflexivity.
Defined.

Lemma flagsOK_control m m' :
  control m' = control m -> flagsOK m -> flagsOK m'.
Proof.
  unfold control, flagsOK. intros H. injection H as -> -> -> _ _ -> _ _.
  tauto.
Qed.

Lemma stopMining_flags w u w' :
  stopMining w = Done u w' -> flagsOK (miner w) -> flagsOK (miner w').
Proof.
  unfold stopMining. intros Hrun Hf.
  apply bind_Done in Hrun as (m & w0 & Hg & Hrun).
  apply getMiner_Done in Hg as [-> ->].
  destruct (negb (mining (miner w) =? 1)).
  { apply ret_Done in Hrun as [_ ->]. exact Hf. }
  apply bind_Done in Hrun as (u1 & w1 & Hmo & Hrun).
  apply modify_Done in Hmo as [_ Hm1].
  apply bind_Done in Hrun as (u2 & w2 & Hcl & Hrun).
  assert (Hm2 : flagsOK (miner w2)).
  { destruct (stopChan (miner w)).
    - apply bind_Done in Hcl as (u3 & w3 & Hem & Hmo).
      apply emit_Done in Hem as [_ Hm3]. apply modify_Done in Hmo as [_ Hm4].
      rewrite Hm4, Hm3, Hm1. unfold flagsOK, isFlag in *. cbn. tauto.
    - apply ret_Done in Hcl as [_ ->]. rewrite Hm1.
      unfold flagsOK, isFlag in *. cbn. tauto. }
  apply bind_Done in Hrun as (u5 & w5 & Hem & Hem').
  apply emit_Done in Hem as [_ Hm5]. apply emit_Done in Hem' as [_ Hm6].
  rewrite Hm6, Hm5. exact Hm2.
Qed.

Lemma Start_flags env w r w' :
  Start env w = Done r w' -> flagsOK (miner w) -> flagsOK (miner w').
Proof.
  intros Hrun Hf.
  destruct (Start_cases env w r w' Hrun)
    as [(_ & _ & ->)|[(_ & _ & _ & ->)|[(_ & _ & _ & _ & ->)|[(_ & _ & _ & Hc)
       |(_ & _ & _ & Hc & _)]]]]; try exact Hf.
  - apply (flagsOK_control _ _ Hc). unfold flagsOK, isFlag in *. cbn. tauto.
  - apply (flagsOK_control _ _ Hc). unfold flagsOK, isFlag in *. cbn. tauto.
Qed.

Lemma newTxCallback_flags env w u w' :
  newTxCallback env w = Done u w' -> flagsOK (miner w) -> flagsOK (miner w').
Proof.
  unfold newTxCallback. intros Hrun Hf.
  apply bind_Done in Hrun as (m & w0 & Hg & Hrun).
  apply getMiner_Done in Hg as [-> ->].
  destruct (_ && _).
  2:{ apply ret_Done in Hrun as [_ ->]. exact Hf. }
  apply bind_Done in Hrun as (u1 & w1 & Hmo & Hrun).
  apply modify_Done in Hmo as [_ Hm1].
  apply bind_Done in Hrun as (err & w2 & Hl & Hrun).
  apply NewMiningLoop_control in Hl.
  assert (Hf2 : flagsOK (miner w2)).
  { apply (flagsOK_control _ _ Hl). rewrite Hm1.
    unfold flagsOK, isFlag in *. cbn. tauto. }
  destruct err as [e|].
  - apply bind_Done in Hrun as (u3 & w3 & Hem & Hmo).
    apply emit_Done in Hem as [_ Hm3]. apply modify_Done in Hmo as [_ Hm4].
    rewrite Hm4, Hm3. unfold flagsOK, isFlag in *. cbn. tauto.
  - apply ret_Done in Hrun as [_ ->]. exact Hf2.
Qed.

Lemma run_flags env c w w' :
  run env c w = Done tt w' -> flagsOK (miner w) -> flagsOK (miner w').
Proof.
  destruct c as [| |e| |res|n]; cbn [run]; intros Hrun Hf.
  - apply bind_Done in Hrun as (r & w1 & Hs & Hret).
    apply ret_Done in Hret as [_ ->]. exact (Start_flags _ _ _ _ Hs Hf).
  - unfold Stop in Hrun. apply bind_Done in Hrun as (u & w1 & Hmo & Hrun).
    apply modify_Done in Hmo as [_ Hm1].
    apply (stopMining_flags _ _ _ Hrun). rewrite Hm1.
    unfold flagsOK, isFlag in *. cbn. tauto.
  - unfold downloaderEventCallback in Hrun.
    apply bind_Done in Hrun as (m & w0 & Hg & Hrun).
    apply getMiner_Done in Hg as [-> ->].
    destruct (isFirstDownloader (miner w) =? 0).
    { apply ret_Done in Hrun as [_ ->]. exact Hf. }
    destruct e.
    + apply bind_Done in Hrun as (u1 & w1 & Hmo & Hrun).
      apply modify_Done in Hmo as [_ Hm1].
      apply bind_Done in Hrun as (m & w2 & Hg & Hrun).
      apply getMiner_Done in Hg as [-> ->].
      assert (Hf1 : flagsOK (miner w1)).
      { rewrite Hm1. unfold flagsOK, isFlag in *. cbn. tauto. }
      destruct (IsMining (miner w1)).
      * exact (stopMining_flags _ _ _ Hrun Hf1).
      * apply ret_Done in Hrun as [_ ->]. exact Hf1.
    + apply bind_Done in Hrun as (u1 & w1 & Hmo & Hrun).
      apply modify_Done in Hmo as [_ Hm1].
      apply bind_Done in Hrun as (u2 & w2 & Hmo & Hrun).
      apply modify_Done in Hmo as [_ Hm2].
      apply bind_Done in Hrun as (m & w3 & Hg & Hrun).
      apply getMiner_Done in Hg as [-> ->].
      assert (Hf2 : flagsOK (miner w2)).
      { rewrite Hm2, Hm1. unfold flagsOK, isFlag in *. cbn. tauto. }
      destruct (stopped (miner w2) =? 0).
      * apply bind_Done in Hrun as (r & w4 & Hs & Hret).
        apply ret_Done in Hret as [_ ->]. exact (Start_flags _ _ _ _ Hs Hf2).
      * apply ret_Done in Hrun as [_ ->]. exact Hf2.
    + apply bind_Done in Hrun as (u1 & w1 & Hmo & Hrun).
      apply modify_Done in Hmo as [_ Hm1].
      apply bind_Done in Hrun as (u2 & w2 & Hmo & Hrun).
      apply modify_Done in Hmo as [_ Hm2].
      apply bind_Done in Hrun as (m & w3 & Hg & Hrun).
      apply getMiner_Done in Hg as [-> ->].
      assert (Hf2 : flagsOK (miner w2)).
      { rewrite Hm2, Hm1. unfold flagsOK, isFlag in *. cbn. tauto. }
      destruct (stopped (miner w2) =? 0).
      * apply bind_Done in Hrun as (r & w4 & Hs & Hret).
        apply ret_Done in Hret as [_ ->]. exact (Start_flags _ _ _ _ Hs Hf2).
      * apply ret_Done in Hrun as [_ ->]. exact Hf2.
    + apply ret_Done in Hrun as [_ ->]. exact Hf.
  - exact (newTxCallback_flags _ _ _ _ Hrun Hf).
  - unfold waitBlockRecv in Hrun.
    apply bind_Done in Hrun as (m & w0 & Hg & Hrun).
    apply getMiner_Done in Hg as [-> ->].
    apply bind_Done in Hrun as (u1 & w1 & Hres & Hrun).
    assert (Hm1 : miner w1 = miner w).
    { destruct res as [res|]; [|apply ret_Done in Hres as [_ ->]; reflexivity].
      destruct (match current (miner w) with Some _ => _ | None => _ end).
      - apply bind_Done in Hres as (u2 & w2 & Hem & Hres).
        apply emit_Done in Hem as [_ Hm2].
        destruct (WriteBlock env (res_block res));
          apply emit_Done in Hres as [_ Hm3]; rewrite Hm3, Hm2; reflexivity.
      - apply ret_Done in Hres as [_ ->]. reflexivity. }
    apply bind_Done in Hrun as (u3 & w3 & Hmo & Hrun).
    apply modify_Done in Hmo as [_ Hm3].
    apply (newTxCallback_flags _ _ _ _ Hrun). rewrite Hm3, Hm1.
    unfold flagsOK, isFlag in *. cbn. tauto.
  - unfold SetThreads in Hrun.
    destruct (u64 n =? 0); apply modify_Done in Hrun as [_ ->];
      unfold flagsOK, isFlag in *; cbn; tauto.
Qed.

(** X9. The flags of the miner stay flags: in every state a miner
    reaches from [NewMiner] through Start, Stop, downloader events,
    transaction events, delivered blocks and SetThreads, each of mining,
    canStart, stopped and isFirstDownloader is 0 or 1. *)
Theorem reachable_flags env w :
  reachable env w -> flagsOK (miner w).
Proof.
  induction 1 as [addr|w c w' _ IH Hrun].
  - unfold flagsOK, isFlag. cbn. tauto.
  - exact (run_flags env c w w' Hrun IH).
Qed.

Lemma reachable_flags_witness : flagsOK (miner syncingWorld).
Proof.
  apply (reachable_flags envAtGenesis syncingWorld).
  apply syncingWorld_reachable.
Defined.

(** A call other than Start on a stopped, idle miner returns and leaves it
    stopped and idle. *)
Lemma run_stays_stopped env c w :
  isStartCall c = false ->
  stopped (miner w) = 1 -> IsMining (miner w) = false ->
  exists w', run env c w = Done tt w'
    /\ stopped (miner w') = 1 /\ IsMining (miner w') = false.
Proof.
  intros Hc Hs Hm. unfold IsMining in Hm.
  destruct w as [m rp pp al ef].
  destruct m as [cb mi cs st sc cu rc fd th fb kh]. cbn in Hs, Hm. subst st.
  destruct c as [| |e| |res|n]; [discriminate| | | | |].
  - cbn. unfold Stop, stopMining, bind, modify, getMiner, ret. cbn.
    rewrite Hm. cbn. eexists. split; [reflexivity|]. cbn. split; [reflexivity|].
    unfold IsMining. exact Hm.
  - cbn. unfold downloaderEventCallback, bind, getMiner. cbn.
    destruct (fd =? 0).
    { eexists. split; [reflexivity|]. cbn. split; [reflexivity|exact Hm]. }
    destruct e; unfold modify, ret, IsMining; cbn; rewrite ?Hm;
      eexists; (split; [reflexivity|]); cbn; (split; [reflexivity|exact Hm]).
  - cbn. unfold newTxCallback, bind, getMiner, ret. cbn.
    eexists. split; [reflexivity|]. cbn. split; [reflexivity|exact Hm].
  - cbn. unfold waitBlockRecv, newTxCallback, bind, getMiner, modify, ret, emit.
    cbn.
    destruct res as [res|];
      [destruct (match cu with Some _ => _ | None => _ end);
        [destruct (WriteBlock env (res_block res))|]|];
      cbn; eexists; (split; [reflexivity|]); cbn; split; reflexivity.
  - cbn [run runAll]. unfold SetThreads, modify.
    destruct (u64 n =? 0); eexists; (split; [reflexivity|]); cbn;
      (split; [reflexivity|exact Hm]).
Qed.

(** X10. A stopped miner stays stopped: after [Stop], no sequence of
    downloader events, transaction events, delivered blocks, further
    stops or thread settings makes the miner mine again; every such call
    returns, and the miner is left with [stopped] at 1 and not mining.
    Only [Start] restarts it. *)
Theorem Stop_is_lasting env calls w :
  forallb (fun c => negb (isStartCall c)) calls = true ->
  exists w',
    runAll env (CallStop :: calls) w = Done tt w'
    /\ stopped (miner w') = 1 /\ IsMining (miner w') = false.
Proof.
  intros Hcalls.
  assert (Hstop : exists w1, run env CallStop w = Done tt w1
            /\ stopped (miner w1) = 1 /\ IsMining (miner w1) = false).
  { destruct w as [m rp pp al ef].
    destruct m as [cb mi cs st sc cu rc fd th fb kh].
    cbn. unfold Stop, stopMining, bind, modify, getMiner, ret, emit. cbn.
    destruct (Z.eqb_spec mi 1) as [->|Hne]; cbn.
    - destruct sc; cbn; eexists; (split; [reflexivity|]); cbn;
        split; reflexivity.
    - eexists. split; [reflexivity|]. cbn. split; [reflexivity|].
      unfold IsMining. cbn. apply Z.eqb_neq. exact Hne. }
  destruct Hstop as (w1 & Hrun & Hs & Hm).
  cbn [runAll]. unfold bind at 1. rewrite Hrun. clear Hrun w.
  revert w1 Hs Hm. induction calls as [|c rest IH]; intros w Hs Hm.
  - exists w. repeat split; assumption.
  - cbn [forallb] in Hcalls. apply andb_true_iff in Hcalls as [Hc Hrest].
    apply negb_true_iff in Hc.
    destruct (run_stays_stopped env c w Hc Hs Hm) as (w1 & Hrun & Hs1 & Hm1).
    cbn [runAll]. unfold bind at 1. rewrite Hrun. exact (IH Hrest w1 Hs1 Hm1).
Qed.

Lemma Stop_is_lasting_witness :
  exists w',
    runAll envAtGenesis
      [CallStop; CallDownloaderEvent DownloaderStartEvent;
       CallDownloaderEvent DownloaderDoneEvent; CallNewTx]
      (NewMiner 0) = Done tt w'
    /\ stopped (miner w') = 1 /\ IsMining (miner w') = false.
Proof.
  apply (Stop_is_lasting envAtGenesis
           [CallDownloaderEvent DownloaderStartEvent;
            CallDownloaderEvent DownloaderDoneEvent; CallNewTx]
           (NewMiner 0) eq_refl).
Defined.

(** ** Service: head changes from the event to the pools *)

Lemma headsFor_single c e :
  headsFor c [e]
  = if negb (IsEmpty (chm_HeaderHash e))
       && (Z.to_nat (chm_ChainNum e) =? c)%nat
    then [chm_HeaderHash e] else [].
Proof. unfold headsFor. cbn. destruct (_ && _); reflexivity. Qed.

Lemma chainHeaderChanged_channels e s c :
  (Z.to_nat (chm_ChainNum e) < length (chainHeaderChangeChannels s))%nat ->
  (forall q, chainHeaderChangeChannels s !! Z.to_nat (chm_ChainNum e) = Some q ->
             (length q < chainHeaderChangeBuffSize)%nat) ->
  lastHeaders (fst (chainHeaderChanged e s)) = lastHeaders s
  /\ length (chainHeaderChangeChannels (fst (chainHeaderChanged e s)))
     = length (chainHeaderChangeChannels s)
  /\ chainHeaderChangeChannels (fst (chainHeaderChanged e s)) !! c
     = (fun q => q ++ headsFor c [e]) <$> chainHeaderChangeChannels s !! c.
Proof.
  intros Hv Hroom. unfold chainHeaderChanged. rewrite headsFor_single.
  destruct (IsEmpty (chm_HeaderHash e)) eqn:He; cbn [negb andb fst].
  { repeat split. destruct (_ !! c); cbn; [rewrite app_nil_r|]; reflexivity. }
  destruct (lookup_lt_is_Some_2 _ _ Hv) as [q Hq]. rewrite Hq.
  specialize (Hroom q Hq).
  destruct (Nat.leb_spec chainHeaderChangeBuffSize (length q)); [lia|].
  cbn [fst setChannels lastHeaders chainHeaderChangeChannels].
  split; [reflexivity|]. split; [apply length_insert|].
  destruct (Nat.eqb_spec (Z.to_nat (chm_ChainNum e)) c) as [Heq|Hne].
  - subst c. rewrite list_lookup_insert_eq by assumption. rewrite Hq. reflexivity.
  - rewrite list_lookup_insert_ne by assumption.
    destruct (_ !! c); cbn; [rewrite app_nil_r|]; reflexivity.
Qed.

(** With room in the buffer, the send of a listener is made or the head
    is empty and dropped: the listener neither blocks nor panics. *)
Lemma chainHeaderChanged_completes e s :
  (Z.to_nat (chm_ChainNum e) < length (chainHeaderChangeChannels s))%nat ->
  (forall q, chainHeaderChangeChannels s !! Z.to_nat (chm_ChainNum e) = Some q ->
             (length q < chainHeaderChangeBuffSize)%nat) ->
  snd (chainHeaderChanged e s) = Sent \/ snd (chainHeaderChanged e s) = Dropped.
Proof.
  intros Hv Hroom. unfold chainHeaderChanged.
  destruct (IsEmpty (chm_HeaderHash e)); [right; reflexivity|].
  destruct (lookup_lt_is_Some_2 _ _ Hv) as [q Hq]. rewrite Hq.
  specialize (Hroom q Hq).
  destruct (Nat.leb_spec chainHeaderChangeBuffSize (length q)); [lia|].
  left. reflexivity.
Qed.

(** What a listener puts on a channel: a send that is made appends the
    head of the event, which is not empty, behind the heads queued for
    its chain, and touches no other channel and no recorded head. *)
Lemma chainHeaderChanged_Sent e s s' :
  chainHeaderChanged e s = (s', Sent) ->
  IsEmpty (chm_HeaderHash e) = false
  /\ lastHeaders s' = lastHeaders s
  /\ exists q,
       chainHeaderChangeChannels s !! Z.to_nat (chm_ChainNum e) = Some q
       /\ chainHeaderChangeChannels s'
          = <[Z.to_nat (chm_ChainNum e) := q ++ [chm_HeaderHash e]]>
              (chainHeaderChangeChannels s).
Proof.
  unfold chainHeaderChanged.
  destruct (IsEmpty (chm_HeaderHash e)); [discriminate|].
  destruct (_ !! Z.to_nat (chm_ChainNum e)) as [q|]; [|discriminate].
  destruct (_ <=? _)%nat; [discriminate|].
  intros [= <-]. split; [reflexivity|]. split; [reflexivity|].
  exists q. split; reflexivity.
Qed.

Lemma headsFor_app c es1 es2 :
  headsFor c (es1 ++ es2) = headsFor c es1 ++ headsFor c es2.
Proof. unfold headsFor. apply omap_app. Qed.

Lemma headsFor_length c es : (length (headsFor c es) <= length es)%nat.
Proof.
  induction es as [|e es IH]; [cbn; lia|].
  change (e :: es) with ([e] ++ es). rewrite headsFor_app, !length_app.
  rewrite headsFor_single.
  destruct (_ && _); cbn [length]; lia.
Qed.

(** Handling a list of head changes appends to the channel of each
    chain the non-empty heads meant for it, in order, and leaves no
    listener blocked, as long as the buffers have room. *)
Lemma deliver_channels : forall es s parked,
  Forall (fun e => (Z.to_nat (chm_ChainNum e)
                    < length (chainHeaderChangeChannels s))%nat) es ->
  (forall k q, chainHeaderChangeChannels s !! k = Some q ->
               (length q + length es <= chainHeaderChangeBuffSize)%nat) ->
  exists s1,
    deliver es s parked = Some (s1, parked)
    /\ lastHeaders s1 = lastHeaders s
    /\ forall c, chainHeaderChangeChannels s1 !! c
                 = (fun q => q ++ headsFor c es)
                     <$> chainHeaderChangeChannels s !! c.
Proof.
  induction es as [|e es IH]; intros s parked Hv Hroom.
  - exists s. cbn [deliver]. split; [reflexivity|]. split; [reflexivity|].
    intros c. destruct (_ !! c); cbn; [rewrite app_nil_r|]; reflexivity.
  - apply Forall_cons in Hv as [He Hes]. cbn [deliver].
    assert (Hroom1 : forall q,
              chainHeaderChangeChannels s !! Z.to_nat (chm_ChainNum e) = Some q ->
              (length q < chainHeaderChangeBuffSize)%nat).
    { intros q Hq. specialize (Hroom _ _ Hq). cbn [length] in Hroom. lia. }
    pose proof (chainHeaderChanged_channels e s) as Hstep.
    pose proof (chainHeaderChanged_completes e s He Hroom1) as Hdone.
    destruct (Hstep 0%nat He Hroom1) as (Hl & Hlen & _).
    destruct (chainHeaderChanged e s) as [s0 out] eqn:Hrun.
    cbn [fst snd] in *.
    destruct (IH s0 parked) as (s1 & Hd & Hl2 & Hc2).
    + rewrite Hlen. exact Hes.
    + intros k q Hq. destruct (Hstep k He Hroom1) as (_ & _ & Hk).
      rewrite Hq in Hk.
      destruct (chainHeaderChangeChannels s !! k) as [q0|] eqn:Hq0;
        [|discriminate].
      change (Some q = Some (q0 ++ headsFor k [e])) in Hk.
      assert (Hqq : q = q0 ++ headsFor k [e]) by congruence.
      rewrite Hqq. clear Hk Hq Hqq. specialize (Hroom _ _ Hq0).
      rewrite length_app. pose proof (headsFor_length k [e]) as Hh.
      change (length [e]) with 1%nat in Hh.
      change (length (e :: es)) with (S (length es)) in Hroom. lia.
    + exists s1. split.
      { destruct Hdone as [-> | ->]; exact Hd. }
      split; [congruence|]. intros c. rewrite Hc2.
      destruct (Hstep c He Hroom1) as (_ & _ & ->).
      change (e :: es) with ([e] ++ es). rewrite headsFor_app.
      destruct (chainHeaderChangeChannels s !! c) as [l|]; [|reflexivity].
      change (Some ((l ++ headsFor c [e]) ++ headsFor c es)
              = Some (l ++ headsFor c [e] ++ headsFor c es)).
      rewrite <- app_assoc. reflexivity.
Qed.

Lemma headsFor_nonempty c es :
  Forall (fun h => IsEmpty h = false) (headsFor c es).
Proof.
  induction es as [|e es IH]; [constructor|].
  change (e :: es) with ([e] ++ es). rewrite headsFor_app.
  apply Forall_app. split; [|exact IH].
  rewrite headsFor_single.
  destruct (IsEmpty (chm_HeaderHash e)) eqn:He; cbn [negb andb]; [constructor|].
  destruct (_ =? _)%nat; repeat constructor. exact He.
Qed.

(** One round of the life of a monitor: a batch of head changes, then
    the monitor on what its channel holds. *)
Lemma monitor_after_deliver es s c lastHeader :
  chainHeaderChangeChannels s = replicate NumOfChains [] ->
  lastHeaders s !! c = Some lastHeader ->
  IsEmpty lastHeader = false ->
  (c < NumOfChains)%nat ->
  Forall (fun e => 0 <= chm_ChainNum e < Z.of_nat NumOfChains) es ->
  (length es <= chainHeaderChangeBuffSize)%nat ->
  exists s1 s',
    deliver es s [] = Some (s1, [])
    /\ MonitorChainHeaderChange c s1
       = (s', expectedCalls c lastHeader (headsFor c es), MonitorWaiting)
    /\ chainHeaderChangeChannels s' !! c = Some []
    /\ lastHeaders s' !! c
       = Some (fold_left (fun _ h => h) (headsFor c es) lastHeader).
Proof.
  intros Hch Hlast Hne Hc Hes Hlen.
  destruct (deliver_channels es s []) as (s1 & Hd & Hl & Hq).
  { rewrite Hch, length_replicate. eapply Forall_impl; [exact Hes|].
    cbn. intros e He. unfold NumOfChains in *. lia. }
  { intros k q Hk. rewrite Hch in Hk. apply lookup_replicate in Hk as [-> _].
    cbn [length]. lia. }
  specialize (Hq c).
  rewrite Hch, lookup_replicate_2 in Hq by exact Hc. cbn in Hq.
  exists s1. unfold MonitorChainHeaderChange. rewrite Hq, Hl, Hlast.
  rewrite (monitorLoop_with_head c _ _ Hne (headsFor_nonempty c es)).
  eexists. split; [exact Hd|]. split; [reflexivity|].
  cbn [setLastHeaders setChannels chainHeaderChangeChannels lastHeaders].
  split.
  - apply list_lookup_insert_eq. apply lookup_lt_Some in Hq. exact Hq.
  - apply list_lookup_insert_eq. apply lookup_lt_Some in Hlast.
    rewrite ?Hl. exact Hlast.
Qed.

(** X11. Head changes reach the pools in order. On a service whose
    channels are empty and whose chain [c] has a recorded head, when at
    most [chainHeaderChangeBuffSize] head-change events arrive (for any
    chains), every listener completes, none blocked and none panicking,
    and the monitor of [c] then hands each non-empty head meant for [c]
    to the transaction pool and to the debt pool of [c], in the order
    of arrival, each with the head recorded just before it; it drains
    the channel, records the last head and waits for more. Empty heads
    and the heads of other chains cause no call. *)
Theorem head_changes_reach_pools es s c lastHeader :
  chainHeaderChangeChannels s = replicate NumOfChains [] ->
  lastHeaders s !! c = Some lastHeader ->
  IsEmpty lastHeader = false ->
  (c < NumOfChains)%nat ->
  Forall (fun e => 0 <= chm_ChainNum e < Z.of_nat NumOfChains) es ->
  (length es <= chainHeaderChangeBuffSize)%nat ->
  exists s1 s',
    deliver es s [] = Some (s1, [])
    /\ MonitorChainHeaderChange c s1
       = (s', expectedCalls c lastHeader (headsFor c es), MonitorWaiting)
    /\ chainHeaderChangeChannels s' !! c = Some []
    /\ lastHeaders s' !! c
       = Some (fold_left (fun _ h => h) (headsFor c es) lastHeader).
Proof. apply monitor_after_deliver. Qed.

Lemma head_changes_reach_pools_witness :
  exists s1 s',
    deliver [ {| chm_HeaderHash := 21; chm_ChainNum := 1 |};
              {| chm_HeaderHash := 31; chm_ChainNum := 2 |};
              {| chm_HeaderHash := 0; chm_ChainNum := 1 |};
              {| chm_HeaderHash := 22; chm_ChainNum := 1 |} ]
            (newService [11; 12; 13]) [] = Some (s1, [])
    /\ MonitorChainHeaderChange 1 s1
       = (s', [TxPoolHandleChainHeaderChanged 1 21 12;
               DebtPoolHandleChainHeaderChanged 1 21 12;
               TxPoolHandleChainHeaderChanged 1 22 21;
               DebtPoolHandleChainHeaderChanged 1 22 21], MonitorWaiting)
    /\ chainHeaderChangeChannels s' !! 1%nat = Some []
    /\ lastHeaders s' !! 1%nat = Some 22.
Proof.
  apply (head_changes_reach_pools
           [ {| chm_HeaderHash := 21; chm_ChainNum := 1 |};
             {| chm_HeaderHash := 31; chm_ChainNum := 2 |};
             {| chm_HeaderHash := 0; chm_ChainNum := 1 |};
             {| chm_HeaderHash := 22; chm_ChainNum := 1 |} ]
           (newService [11; 12; 13]) 1%nat 12 eq_refl eq_refl eq_refl).
  - unfold NumOfChains. lia.
  - repeat constructor; cbn; lia.
  - unfold chainHeaderChangeBuffSize. cbn. lia.
Defined.

(** ** Synchroniser: how a round ends *)

(** The loop of a round, from a history without end-of-round events:
    either it ends by firing exactly one of them, as the last effect, or
    it fires none. *)
Lemma syncLoop_end env : forall bestPeers i hist,
  countIf isTerminal hist = 0%nat ->
  let h := fst (syncLoop env i bestPeers hist) in
  (exists h0, h = h0 ++ [EFire Miner.DownloaderDoneEvent]
              /\ countIf isTerminal h0 = 0%nat
              /\ snd (syncLoop env i bestPeers hist) = SyncReturned)
  \/ (exists h0, h = h0 ++ [EFire Miner.DownloaderFailedEvent]
                 /\ countIf isTerminal h0 = 0%nat
                 /\ snd (syncLoop env i bestPeers hist) = SyncReturned)
  \/ countIf isTerminal h = 0%nat.
Proof.
  induction bestPeers as [|[bp|] rest IH]; intros i hist Hc; cbn [syncLoop].
  - left. exists hist. cbn [fst snd]. repeat split. exact Hc.
  - destruct (negb (validChain (Z.of_nat i))); [right; right; exact Hc|].
    destruct (GetBlockTotalDifficulty env hist (Z.of_nat i) _) as [localTD|e];
      [|right; right; exact Hc].
    destruct (peerHead env hist (bp_bestPeer bp) (bp_chainNum bp)) as [pHead pTd].
    destruct (localTD >=? pTd); [apply IH, Hc|].
    set (hist2 := (hist ++ [EFire Miner.DownloaderStartEvent])
                    ++ [EDownload (bp_bestPeer bp) (bp_chainNum bp) pHead pTd
                          localTD]).
    assert (Hc2 : countIf isTerminal hist2 = 0%nat).
    { unfold hist2. rewrite !countIf_app, Hc. reflexivity. }
    destruct (Synchronise env _ _ _ _ _ _) as [err|].
    + right. left. exists hist2. cbn [fst snd]. repeat split. exact Hc2.
    + destruct (broadcastChainHead env hist2 (bp_chainNum bp)) as [hist'|] eqn:Hb;
        [|right; right; exact Hc2].
      apply IH.
      rewrite (broadcastChainHead_count _ _ _ _ isTerminal (fun _ _ => eq_refl) Hb).
      exact Hc2.
  - apply IH, Hc.
Qed.

(** X13. A synchronisation round signals its end at most once, and last:
    the effects of [synchronise] contain no DownloaderDone or
    DownloaderFailed event except possibly the very last effect, so a
    round never reports both a failure and a success, and reports
    neither twice. *)
Theorem synchronise_ends_once env bestPeers :
  let h := fst (synchronise env bestPeers []) in
  (exists h0, h = h0 ++ [EFire Miner.DownloaderDoneEvent]
              /\ countIf isTerminal h0 = 0%nat)
  \/ (exists h0, h = h0 ++ [EFire Miner.DownloaderFailedEvent]
                 /\ countIf isTerminal h0 = 0%nat)
  \/ countIf isTerminal h = 0%nat.
Proof.
  destruct bestPeers as [bps|]; cbn [synchronise]; [|right; right; reflexivity].
  destruct (syncLoop_end env bps 0 [] eq_refl)
    as [(h0 & H1 & H2 & _)|[(h0 & H1 & H2 & _)|H]].
  - left. eauto.
  - right. left. eauto.
  - right. right. exact H.
Qed.

(** ** The message loop: replies to the downloader's queries *)

Lemma collectHeaders_spec env hist chainNum orgNum reverse maxHeight :
  forall n cnt headList,
  exists added,
    collectHeaders env n cnt hist chainNum orgNum reverse maxHeight headList
    = headList ++ added
    /\ (length added <= n)%nat
    /\ Forall (fun h => exists num hash,
                 num <= maxHeight
                 /\ GetBlockHash env hist chainNum num = Ok hash
                 /\ GetBlockHeader env hist chainNum hash = Ok h) added.
Proof.
  induction n as [|n IH]; intros cnt headList; cbn [collectHeaders].
  - exists []. rewrite app_nil_r. repeat split; [cbn; lia|constructor].
  - set (curNum := if reverse then u64 (orgNum - cnt) else u64 (orgNum + cnt)).
    destruct (Z.gtb_spec curNum maxHeight) as [Hgt|Hle].
    { exists []. rewrite app_nil_r. repeat split; [cbn; lia|constructor]. }
    destruct (GetBlockHash env hist chainNum curNum) as [hash|e] eqn:Hh.
    2:{ exists []. rewrite app_nil_r. repeat split; [cbn; lia|constructor]. }
    destruct (GetBlockHeader env hist chainNum hash) as [head|e] eqn:Hd.
    2:{ exists []. rewrite app_nil_r. repeat split; [cbn; lia|constructor]. }
    destruct (IH (cnt + 1) (headList ++ [head])) as (added & Heq & Hlen & Hall).
    exists (head :: added). rewrite Heq, <- app_assoc. repeat split.
    + cbn. lia.
    + constructor; [|exact Hall]. exists curNum, hash. repeat split; assumption.
Qed.

(** X14. The reply to a header query is bounded by the query and by the
    chain: handling a [GetBlockHeadersMsg] leaves the peer as it is and
    either adds nothing to the history or writes one message to the
    asking peer, with the query's magic and chain, holding at most
    [Amount] headers, each of them the stored header of a height not
    above the current block's. *)
Theorem headers_reply_bounded env p hist payload query :
  deHeadersQuery env payload = Ok query ->
  fst (fst (onGetBlockHeaders env p hist payload)) = p
  /\ (snd (fst (onGetBlockHeaders env p hist payload)) = hist
      \/ exists headers,
           snd (fst (onGetBlockHeaders env p hist payload))
           = hist ++ [ESend (peerStrID p)
                        (OutBlockHeaders (q_Magic query) headers
                                         (q_ChainNum query))]
           /\ (length headers <= Z.to_nat (q_Amount query))%nat
           /\ Forall (fun h => exists num hash,
                  num <= Height (Header (CurrentBlock env hist (q_ChainNum query)))
                  /\ GetBlockHash env hist (q_ChainNum query) num = Ok hash
                  /\ GetBlockHeader env hist (q_ChainNum query) hash = Ok h)
                headers).
Proof.
  intros Hq. unfold onGetBlockHeaders. rewrite Hq.
  destruct (negb (validChain (q_ChainNum query))); [split; [reflexivity|left; reflexivity]|].
  set (orgNum := if negb (q_Hash query =? EmptyHash) then _ else _).
  destruct orgNum as [orgNum|]; [|split; [reflexivity|left; reflexivity]].
  set (maxHeight := Height (Header (CurrentBlock env hist (q_ChainNum query)))).
  destruct (collectHeaders_spec env hist (q_ChainNum query) orgNum
              (q_Reverse query) maxHeight (Z.to_nat (q_Amount query)) 0 [])
    as (added & Heq & Hlen & Hall).
  rewrite Heq. cbn [app]. unfold send.
  destruct (sendResult env hist (peerStrID p) _); cbn [fst snd];
    (split; [reflexivity|right; exists added; repeat split; assumption]).
Qed.

Lemma headers_reply_bounded_witness :
  snd (fst (onGetBlockHeaders servingEnv localPeer [] [77; 0; 4; 6; 0; 2]))
  = [ESend 8 (OutBlockHeaders 77
                [Header (Miner.blockAt 4 []); Header (Miner.blockAt 5 [])] 2)]
  /\ (fst (fst (onGetBlockHeaders servingEnv localPeer [] [77; 0; 4; 6; 0; 2]))
      = localPeer
      /\ (snd (fst (onGetBlockHeaders servingEnv localPeer [] [77; 0; 4; 6; 0; 2]))
          = []
          \/ exists headers,
               snd (fst (onGetBlockHeaders servingEnv localPeer []
                           [77; 0; 4; 6; 0; 2]))
               = [] ++ [ESend (peerStrID localPeer)
                          (OutBlockHeaders 77 headers 2)]
               /\ (length headers <= Z.to_nat 6)%nat
               /\ Forall (fun h => exists num hash,
                      num <= Height (Header (CurrentBlock servingEnv [] 2))
                      /\ GetBlockHash servingEnv [] 2 num = Ok hash
                      /\ GetBlockHeader servingEnv [] 2 hash = Ok h)
                    headers)).
Proof.
  split; [vm_compute; reflexivity|].
  apply (headers_reply_bounded servingEnv localPeer [] [77; 0; 4; 6; 0; 2]
           {| q_Magic := 77; q_Hash := 0; q_Number := 4; q_Amount := 6;
              q_Reverse := false; q_ChainNum := 2 |}).
  reflexivity.
Defined.

Lemma blocksLen_snoc env blocks b :
  blocksLen env (blocks ++ [b]) = blocksLen env blocks + serializedLen env b.
Proof.
  unfold blocksLen. induction blocks as [|x xs IH]; cbn [app foldr]; [lia|].
  rewrite IH. lia.
Qed.

Lemma collectBlocks_spec env hist chainNum orgNum :
  (forall b, 0 < serializedLen env b) ->
  forall n cnt totalLen blocksL out,
  totalLen = blocksLen env blocksL ->
  (blocksL = [] \/ 0 < totalLen) ->
  ((length blocksL <= 1)%nat \/ totalLen <= MaxMessageLength env) ->
  collectBlocks env n cnt hist chainNum orgNum totalLen blocksL = Some out ->
  exists added,
    out = blocksL ++ added
    /\ (length added <= n)%nat
    /\ ((length out <= 1)%nat \/ blocksLen env out <= MaxMessageLength env)
    /\ forall k b, added !! k = Some b ->
         exists hash,
           GetBlockHash env hist chainNum (u64 (orgNum + (cnt + Z.of_nat k)))
           = Ok hash
           /\ GetBlock env hist chainNum hash = Ok b.
Proof.
  intros Hpos.
  induction n as [|n IH]; intros cnt totalLen blocksL out Ht Hz Hb;
    cbn [collectBlocks].
  - intros [= <-]. exists []. rewrite app_nil_r. subst totalLen.
    repeat split; [cbn; lia|exact Hb|]. intros k b Hk. destruct k; discriminate.
  - destruct (GetBlockHash env hist chainNum (u64 (orgNum + cnt)))
      as [hash|e] eqn:Hh.
    2:{ intros [= <-]. exists []. rewrite app_nil_r. subst totalLen.
        repeat split; [cbn; lia|exact Hb|].
        intros k b Hk. destruct k; discriminate. }
    destruct (GetBlock env hist chainNum hash) as [block|e] eqn:Hg;
      [|discriminate].
    destruct ((totalLen >? 0)
              && (totalLen + serializedLen env block >? MaxMessageLength env))
      eqn:Hfull.
    { intros [= <-]. exists []. rewrite app_nil_r. subst totalLen.
      repeat split; [cbn; lia|exact Hb|].
      intros k b Hk. destruct k; discriminate. }
    intros Hrun.
    destruct (IH (cnt + 1) (totalLen + serializedLen env block)
                 (blocksL ++ [block]) out) as (added & Ho & Hlen & Hsz & Hat).
    + rewrite blocksLen_snoc. lia.
    + right. pose proof (Hpos block).
      destruct Hz as [ -> |Hz]; [subst totalLen; cbn; lia|lia].
    + apply andb_false_iff in Hfull.
      destruct Hfull as [Hfull|Hfull].
      * left. destruct Hz as [ -> |Hz]; [cbn; lia|].
        rewrite Z.gtb_ltb in Hfull. apply Z.ltb_ge in Hfull. lia.
      * right. rewrite Z.gtb_ltb in Hfull. apply Z.ltb_ge in Hfull. lia.
    + exact Hrun.
    + exists (block :: added). split; [rewrite Ho, <- app_assoc; reflexivity|].
      repeat split.
      * cbn. lia.
      * exact Hsz.
      * intros [|k] b Hk.
        -- injection Hk as <-. exists hash. rewrite Z.add_0_r. split; assumption.
        -- destruct (Hat k b Hk) as (h' & H1 & H2). exists h'.
           replace (orgNum + (cnt + Z.of_nat (S k)))
             with (orgNum + (cnt + 1 + Z.of_nat k)) by lia.
           split; assumption.
Qed.

(** X15. The reply to a block query fits a message and is a run of the
    chain: when every serialized block has a positive length, handling a
    [GetBlocksMsg] writes at most one message, to the asking peer; it
    holds at most [Amount] blocks, which are the stored blocks of the
    consecutive heights from the requested one on (the query's number,
    or the height of the header of the query's hash), and either it
    holds at most one block or its blocks together are no longer than
    [MaxMessageLength]. *)
Theorem blocks_reply_bounded env p hist payload query :
  (forall b, 0 < serializedLen env b) ->
  deBlocksQuery env payload = Ok query ->
  fst (fst (onGetBlocks env p hist payload)) = p
  /\ (snd (fst (onGetBlocks env p hist payload)) = hist
      \/ exists blocks orgNum,
           snd (fst (onGetBlocks env p hist payload))
           = hist ++ [ESend (peerStrID p)
                        (OutBlocks (q_Magic query) blocks (q_ChainNum query))]
           /\ (length blocks <= Z.to_nat (q_Amount query))%nat
           /\ ((length blocks <= 1)%nat
               \/ blocksLen env blocks <= MaxMessageLength env)
           /\ (q_Hash query = EmptyHash -> orgNum = q_Number query)
           /\ (q_Hash query <> EmptyHash ->
               exists head,
                 GetBlockHeader env hist (q_ChainNum query) (q_Hash query)
                 = Ok head /\ orgNum = Height head)
           /\ forall k b, blocks !! k = Some b ->
                exists hash,
                  GetBlockHash env hist (q_ChainNum query)
                               (u64 (orgNum + Z.of_nat k)) = Ok hash
                  /\ GetBlock env hist (q_ChainNum query) hash = Ok b).
Proof.
  intros Hpos Hq. unfold onGetBlocks. rewrite Hq.
  destruct ((negb (q_Hash query =? EmptyHash) || (0 <? q_Amount query))
            && negb (validChain (q_ChainNum query)));
    [split; [reflexivity|left; reflexivity]|].
  assert (Horg : exists o,
    (if negb (q_Hash query =? EmptyHash)
     then match GetBlockHeader env hist (q_ChainNum query) (q_Hash query) with
          | Err _ => None
          | Ok head => Some (Height head)
          end
     else Some (q_Number query)) = o
    /\ forall orgNum, o = Some orgNum ->
         (q_Hash query = EmptyHash -> orgNum = q_Number query)
         /\ (q_Hash query <> EmptyHash ->
             exists head,
               GetBlockHeader env hist (q_ChainNum query) (q_Hash query)
               = Ok head /\ orgNum = Height head)).
  { eexists. split; [reflexivity|]. intros orgNum.
    destruct (Z.eqb_spec (q_Hash query) EmptyHash) as [He|Hne]; cbn [negb].
    - intros [= <-]. split; [reflexivity|contradiction].
    - destruct (GetBlockHeader env hist (q_ChainNum query) (q_Hash query))
        as [head|e]; [|discriminate].
      intros [= <-]. split; [contradiction|]. intros _. exists head. auto. }
  destruct Horg as (o & -> & Ho).
  destruct o as [orgNum|]; [|split; [reflexivity|left; reflexivity]].
  destruct (Ho orgNum eq_refl) as [Hnum Hhead].
  destruct (collectBlocks env (Z.to_nat (q_Amount query)) 0 hist
              (q_ChainNum query) orgNum 0 []) as [blocksL|] eqn:Hc;
    [|split; [reflexivity|left; reflexivity]].
  destruct (collectBlocks_spec env hist (q_ChainNum query) orgNum
              Hpos _ _ _ _ _ eq_refl (or_introl eq_refl)
              (or_introl (Nat.le_0_l 1)) Hc)
    as (added & Hout & Hlen & Hsz & Hat).
  cbn [app] in Hout. subst added. unfold send.
  destruct (sendResult env hist (peerStrID p) _); cbn [fst snd];
    (split; [reflexivity|right; exists blocksL, orgNum; repeat split;
                          [exact Hlen|exact Hsz|exact Hnum|exact Hhead
                          |exact Hat]]).
Qed.

Lemma blocks_reply_bounded_witness :
  snd (fst (onGetBlocks servingEnv localPeer [] [77; 0; 1; 5; 0; 2]))
  = [ESend 8 (OutBlocks 77 [Miner.blockAt 1 []; Miner.blockAt 2 []] 2)]
  /\ (forall b, 0 < serializedLen servingEnv b)
  /\ fst (fst (onGetBlocks servingEnv localPeer [] [77; 0; 1; 5; 0; 2]))
     = localPeer.
Proof.
  split; [vm_compute; reflexivity|].
  split; [intros b; reflexivity|].
  apply (blocks_reply_bounded servingEnv localPeer [] [77; 0; 1; 5; 0; 2]
           {| q_Magic := 77; q_Hash := 0; q_Number := 1; q_Amount := 5;
              q_Reverse := false; q_ChainNum := 2 |});
    [intros b; reflexivity|reflexivity].
Defined.

(** ** The message loop: announcements and the peer's own effects *)

Lemma lruContains_lruAdd cap h c :
  (0 < cap)%nat -> lruContains h (lruAdd cap h c) = true.
Proof.
  intros Hcap. unfold lruContains, lruAdd.
  destruct cap as [|cap]; [lia|]. cbn [take].
  apply bool_decide_eq_true. apply list_elem_of_here.
Qed.

(** X16. A hash announced twice is requested once: with a known-hash
    cache of positive capacity, once a round of the loop has handled a
    transaction-hash or block-hash announcement of a peer without
    leaving the loop, handling the same announcement again changes
    neither the peer nor the history, whatever happened in between to
    the history. *)
Theorem announcement_requested_once env p hist hist2 msg p' hist' :
  (0 < knownCap env)%nat ->
  Code msg = transactionHashMsgCode \/ Code msg = blockHashMsgCode ->
  handleOne env p hist msg = (p', hist', Continue) ->
  handleOne env p' hist2 msg = (p', hist2, Continue).
Proof.
  intros Hcap Hcode. unfold handleOne. cbv zeta.
  destruct Hcode as [Hc|Hc]; rewrite !Hc.
  - change (negb (transactionHashMsgCode =? transactionsMsgCode)
            && negb (transactionHashMsgCode =? debtMsgCode)) with true.
    change (transactionHashMsgCode =? transactionHashMsgCode) with true.
    cbv iota. rewrite !andb_true_r. unfold onTransactionHash.
    destruct (NodeShard p =? LocalShardNumber env) eqn:Hs; cbn [negb].
    2:{ intros [= <- <-]. rewrite Hs. reflexivity. }
    destruct (deTxHashMsg env (Payload msg)) as [m|e].
    2:{ intros [= <- <-]. rewrite Hs. reflexivity. }
    destruct (lruContains (thm_TxHash m) (knownTxs p)) eqn:Hk; cbn [negb].
    { intros [= <- <-]. rewrite Hs, Hk. reflexivity. }
    unfold send. destruct (sendResult env hist _ _); [discriminate|].
    intros [= <- <-]. cbn [NodeShard setKnownTxs knownTxs].
    rewrite Hs, lruContains_lruAdd by exact Hcap. reflexivity.
  - change (negb (blockHashMsgCode =? transactionsMsgCode)
            && negb (blockHashMsgCode =? debtMsgCode)) with true.
    change (blockHashMsgCode =? transactionHashMsgCode) with false.
    change (blockHashMsgCode =? transactionRequestMsgCode) with false.
    change (blockHashMsgCode =? transactionsMsgCode) with false.
    change (blockHashMsgCode =? blockHashMsgCode) with true.
    cbv iota. rewrite !andb_true_r. unfold onBlockHash.
    destruct (NodeShard p =? LocalShardNumber env) eqn:Hs; cbn [negb].
    2:{ intros [= <- <-]. rewrite Hs. reflexivity. }
    destruct (deBlockHashMsg env (Payload msg)) as [m|e].
    2:{ intros [= <- <-]. rewrite Hs. reflexivity. }
    destruct (lruContains (bhm_BlockHash m) (knownBlocks p)) eqn:Hk; cbn [negb].
    { intros [= <- <-]. rewrite Hs, Hk. reflexivity. }
    unfold send. destruct (sendResult env hist _ _); [discriminate|].
    intros [= <- <-]. cbn [NodeShard setKnownBlocks knownBlocks].
    rewrite Hs, lruContains_lruAdd by exact Hcap. reflexivity.
Qed.

Lemma announcement_requested_once_witness :
  handleOne servingEnv localPeer []
    {| Code := transactionHashMsgCode; Payload := [0; 41] |}
  = (setKnownTxs [41] localPeer,
     [ESend 8 (OutTransactionRequest {| thm_ChainNum := 0; thm_TxHash := 41 |})],
     Continue)
  /\ handleOne servingEnv (setKnownTxs [41] localPeer) [ESignalSync]
       {| Code := transactionHashMsgCode; Payload := [0; 41] |}
     = (setKnownTxs [41] localPeer, [ESignalSync], Continue).
Proof.
  split; [vm_compute; reflexivity|].
  apply (announcement_requested_once servingEnv localPeer [] [ESignalSync]
           {| Code := transactionHashMsgCode; Payload := [0; 41] |}
           (setKnownTxs [41] localPeer)
           [ESend 8 (OutTransactionRequest
                       {| thm_ChainNum := 0; thm_TxHash := 41 |})]).
  - cbn. lia.
  - left. reflexivity.
  - vm_compute. reflexivity.
Defined.









(** X18. A failed read ends the loop: if one of the reads of
    [handleMsg] fails, the loop does not go on waiting for messages; it
    ends with the peer deleted or in a panic. *)
Theorem handleMsg_read_failure_ends env : forall incoming p hist e,
  In (Err e) incoming ->
  snd (handleMsg env incoming p hist) = PeerDeleted
  \/ exists why, snd (handleMsg env incoming p hist) = LoopPanicked why.
Proof.
  induction incoming as [|[msg|e'] rest IH]; intros p hist e Hin;
    cbn [handleMsg].
  - destruct Hin.
  - destruct Hin as [Heq|Hin]; [discriminate|].
    destruct (handleOne env p hist msg) as [[p1 h1] c].
    destruct c; [eapply IH; exact Hin|left; reflexivity|right; eauto].
  - left. reflexivity.
Qed.

Lemma handleMsg_read_failure_ends_witness :
  In (Err ErrNotFound)
     [Ok {| Code := transactionHashMsgCode; Payload := [0; 41] |};
      Err ErrNotFound;
      Ok {| Code := blockHashMsgCode; Payload := [0; 42] |}]
  /\ (snd (handleMsg servingEnv
             [Ok {| Code := transactionHashMsgCode; Payload := [0; 41] |};
              Err ErrNotFound;
              Ok {| Code := blockHashMsgCode; Payload := [0; 42] |}]
             localPeer []) = PeerDeleted
      \/ exists why,
           snd (handleMsg servingEnv
                  [Ok {| Code := transactionHashMsgCode; Payload := [0; 41] |};
                   Err ErrNotFound;
                   Ok {| Code := blockHashMsgCode; Payload := [0; 42] |}]
                  localPeer []) = LoopPanicked why).
Proof.
  assert (Hin : In (Err ErrNotFound)
     [Ok {| Code := transactionHashMsgCode; Payload := [0; 41] |};
      Err ErrNotFound;
      Ok {| Code := blockHashMsgCode; Payload := [0; 42] |}])
    by (right; left; reflexivity).
  split; [exact Hin|].
  exact (handleMsg_read_failure_ends servingEnv _ localPeer [] ErrNotFound Hin).
Defined.

(** ** Debt propagation *)

Lemma index_Some {A} (l : list A) i x :
  index l i = Some x <-> 0 <= i /\ l !! Z.to_nat i = Some x.
Proof.
  unfold index. destruct (Z.ltb_spec i 0); split.
  - discriminate.
  - intros [? _]. lia.
  - auto.
  - intros [_ ?]. assumption.
Qed.

Lemma index_in_range {A} (l : list A) i :
  0 <= i < Z.of_nat (length l) -> exists x, index l i = Some x.
Proof.
  intros Hi. destruct (lookup_lt_is_Some_2 l (Z.to_nat i)) as [x Hx]; [lia|].
  exists x. apply index_Some. split; [lia|exact Hx].
Qed.

Lemma debtsOfShard_snoc shard debts d :
  debtsOfShard shard (debts ++ [d])
  = debtsOfShard shard debts ++ (if decide (debt_Shard d = shard) then [d] else []).
Proof.
  unfold debtsOfShard. rewrite filter_app. reflexivity.
Qed.

(** The buckets after the loop: bucket [k] has grown by the debts for
    the shard [k], in order. *)
Lemma bucketDebts_spec : forall debts done debtsMap,
  Forall (fun d => 0 <= debt_Shard d < Z.of_nat (length debtsMap)) debts ->
  (forall k, (k < length debtsMap)%nat ->
             debtsMap !! k = Some (debtsOfShard (Z.of_nat k) done)) ->
  exists m, bucketDebts debts debtsMap = Some m
            /\ length m = length debtsMap
            /\ forall k, (k < length debtsMap)%nat ->
                 m !! k = Some (debtsOfShard (Z.of_nat k) (done ++ debts)).
Proof.
  induction debts as [|d rest IH]; intros done debtsMap Hall Hinv.
  - exists debtsMap. rewrite app_nil_r. auto.
  - apply Forall_cons in Hall as [Hd Hall]. cbn [bucketDebts].
    destruct (index_in_range debtsMap (debt_Shard d) Hd) as [bucket Hb].
    rewrite Hb.
    destruct (IH (done ++ [d])
                 (<[Z.to_nat (debt_Shard d) := bucket ++ [d]]> debtsMap))
      as (m & Hm & Hlen & Hk).
    + rewrite length_insert. exact Hall.
    + rewrite length_insert. intros k Hlt. rewrite debtsOfShard_snoc.
      apply index_Some in Hb as [_ Hb].
      destruct (decide (k = Z.to_nat (debt_Shard d))) as [->|Hne].
      * rewrite list_lookup_insert_eq by exact Hlt.
        rewrite Hinv in Hb by exact Hlt. injection Hb as <-.
        rewrite Z2Nat.id by lia.
        destruct (decide (debt_Shard d = debt_Shard d)); [reflexivity|congruence].
      * rewrite list_lookup_insert_ne by congruence.
        rewrite Hinv by exact Hlt.
        destruct (decide (debt_Shard d = Z.of_nat k)); [lia|].
        now rewrite app_nil_r.
    + exists m. rewrite length_insert in Hlen, Hk.
      rewrite <- app_assoc in Hk. auto.
Qed.

Lemma propagateDebtMap_spec env debts debtsMap : forall peers hist,
  Forall (fun p => 0 <= NodeShard p < Z.of_nat (length debtsMap)) peers ->
  (forall k, (k < length debtsMap)%nat ->
             debtsMap !! k = Some (debtsOfShard (Z.of_nat k) debts)) ->
  propagateDebtMap env peers debtsMap hist
  = (hist ++ omap (debtsFor debts) peers, None).
Proof.
  induction peers as [|p rest IH]; intros hist Hall Hinv.
  - cbn. now rewrite app_nil_r.
  - apply Forall_cons in Hall as [Hp Hall]. cbn [propagateDebtMap].
    destruct (index_in_range debtsMap (NodeShard p) Hp) as [ds Hds].
    rewrite Hds. apply index_Some in Hds as [_ Hds].
    rewrite Hinv in Hds by lia. rewrite Z2Nat.id in Hds by lia.
    injection Hds as <-.
    assert (Hstep : omap (debtsFor debts) (p :: rest)
                    = match debtsFor debts p with
                      | Some e => e :: omap (debtsFor debts) rest
                      | None => omap (debtsFor debts) rest
                      end) by reflexivity.
    rewrite Hstep. clear Hstep.
    destruct (debtsFor debts p) as [e|] eqn:Hfor; unfold debtsFor in Hfor;
      destruct (debtsOfShard (NodeShard p) debts) as [|d ds];
      try discriminate.
    + injection Hfor as <-.
      change (0 <? length (d :: ds))%nat with true. cbv iota.
      unfold send. cbn [fst]. rewrite IH by assumption.
      now rewrite <- app_assoc.
    + change (0 <? length (@nil Debt))%nat with false. cbv iota.
      apply IH; assumption.
Qed.

(** X19. Debts are grouped by destination shard: when the shard of every
    debt and of every peer is at most [ShardCount], [propagateDebt]
    does not panic and writes, in the order the peers are visited, one
    message to each peer whose shard some debt is for, holding exactly
    the debts for that shard in their original order, and nothing to
    the other peers. *)
Theorem propagateDebt_groups_by_shard env ShardCount peers debts hist :
  Forall (fun d => 0 <= debt_Shard d <= Z.of_nat ShardCount) debts ->
  Forall (fun p => 0 <= NodeShard p <= Z.of_nat ShardCount) peers ->
  propagateDebt env ShardCount peers debts hist
  = (hist ++ omap (debtsFor debts) peers, None).
Proof.
  intros Hd Hp. unfold propagateDebt.
  destruct (bucketDebts_spec debts [] (replicate (S ShardCount) []))
    as (m & Hm & Hlen & Hk).
  - rewrite length_replicate. eapply Forall_impl; [exact Hd|].
    cbn beta. intros d ?. lia.
  - rewrite length_replicate. intros k Hlt.
    rewrite lookup_replicate_2 by exact Hlt. reflexivity.
  - rewrite Hm. rewrite length_replicate in Hlen, Hk. cbn [app] in Hk.
    apply propagateDebtMap_spec.
    + rewrite Hlen. eapply Forall_impl; [exact Hp|]. cbn beta. intros p ?. lia.
    + rewrite Hlen. exact Hk.
Qed.

Lemma propagateDebt_groups_by_shard_witness :
  propagateDebt servingEnv 2 demoPeers demoDebts []
  = ([] ++ omap (debtsFor demoDebts) demoPeers, None)
  /\ omap (debtsFor demoDebts) demoPeers
     = [ESend 8 (OutDebts [{| debt_Hash := 2; debt_Shard := 1;
                              debt_ChainNum := 1; debt_Amount := 6 |}]);
        ESend 7 (OutDebts [{| debt_Hash := 1; debt_Shard := 2;
                              debt_ChainNum := 0; debt_Amount := 5 |};
                           {| debt_Hash := 3; debt_Shard := 2;
                              debt_ChainNum := 2; debt_Amount := 7 |}]);
        ESend 9 (OutDebts [{| debt_Hash := 2; debt_Shard := 1;
                              debt_ChainNum := 1; debt_Amount := 6 |}])].
Proof.
  split; [|vm_compute; reflexivity].
  apply (propagateDebt_groups_by_shard servingEnv 2 demoPeers demoDebts []).
  - unfold demoDebts. repeat (apply Forall_cons; split; [cbn; lia|]).
    apply Forall_nil_2.
  - unfold demoPeers. repeat (apply Forall_cons; split; [cbn; lia|]).
    apply Forall_nil_2.
Defined.

Lemma bucketDebts_panics : forall debts debtsMap d,
  In d debts ->
  (debt_Shard d < 0 \/ Z.of_nat (length debtsMap) <= debt_Shard d) ->
  bucketDebts debts debtsMap = None.
Proof.
  induction debts as [|x rest IH]; intros debtsMap d Hin Hout; [destruct Hin|].
  cbn [bucketDebts].
  destruct (index debtsMap (debt_Shard x)) as [bucket|] eqn:Hb; [|reflexivity].
  destruct Hin as [->|Hin].
  - apply index_Some in Hb as [H0 Hb]. apply lookup_lt_Some in Hb. lia.
  - apply (IH _ d Hin). rewrite length_insert. exact Hout.
Qed.

(** X20. A debt for a shard above [ShardCount] makes [propagateDebt]
    panic on the index before anything is written to any peer: the call
    ends in the panic with the history as it found it, whatever the
    peers and the other debts are. *)
Theorem propagateDebt_shard_out_of_range env ShardCount peers debts hist d :
  In d debts -> Z.of_nat ShardCount < debt_Shard d ->
  propagateDebt env ShardCount peers debts hist
  = (hist, Some "index out of range"%string).
Proof.
  intros Hin Hout. unfold propagateDebt.
  rewrite (bucketDebts_panics debts _ d Hin); [reflexivity|].
  right. rewrite length_replicate. lia.
Qed.

Lemma propagateDebt_shard_out_of_range_witness :
  propagateDebt servingEnv 1 demoPeers demoDebts [ESignalSync]
  = ([ESignalSync], Some "index out of range"%string).
Proof.
  apply (propagateDebt_shard_out_of_range servingEnv 1 demoPeers demoDebts
           [ESignalSync]
           {| debt_Hash := 3; debt_Shard := 2; debt_ChainNum := 2;
              debt_Amount := 7 |}).
  - right. right. left. reflexivity.
  - cbn. lia.
Defined.

(** ** Forwarding a transaction of another shard *)

Lemma forEachPeer_sends env tx chainNum sel : forall peers hist,
  exists added,
    snd (forEachPeer (sendTxFun env tx chainNum) sel peers hist)
    = hist ++ added
    /\ Forall (fun e => exists p, In p peers /\ sel p = true
                 /\ e = ESend (peerStrID p) (OutTransaction tx chainNum)
                 /\ lruContains (tx_Hash tx) (knownTxs p) = false) added.
Proof.
  induction peers as [|p rest IH]; intros hist; cbn [forEachPeer].
  - exists []. rewrite app_nil_r. split; [reflexivity|constructor].
  - assert (Hrest : forall added,
      Forall (fun e => exists p, In p rest /\ sel p = true
                /\ e = ESend (peerStrID p) (OutTransaction tx chainNum)
                /\ lruContains (tx_Hash tx) (knownTxs p) = false) added ->
      Forall (fun e => exists q, In q (p :: rest) /\ sel q = true
                /\ e = ESend (peerStrID q) (OutTransaction tx chainNum)
                /\ lruContains (tx_Hash tx) (knownTxs q) = false) added).
    { intros added F. eapply Forall_impl; [exact F|]. cbn beta.
      intros e (q & Hq & ?). exists q. split; [right; exact Hq|assumption]. }
    destruct (sel p) eqn:Hsel.
    + unfold sendTxFun.
      destruct (lruContains (tx_Hash tx) (knownTxs p)) eqn:Hk; cbn [negb].
      * destruct (IH hist) as (added & Ha & Fa).
        destruct (forEachPeer _ sel rest hist) as [rest' h']. cbn [snd] in *.
        exists added. split; [exact Ha|]. apply Hrest, Fa.
      * unfold send.
        set (h1 := hist ++ [ESend (peerStrID p) (OutTransaction tx chainNum)]).
        destruct (IH h1) as (added & Ha & Fa).
        assert (Hhead : exists q, In q (p :: rest) /\ sel q = true
                  /\ ESend (peerStrID p) (OutTransaction tx chainNum)
                     = ESend (peerStrID q) (OutTransaction tx chainNum)
                  /\ lruContains (tx_Hash tx) (knownTxs q) = false).
        { exists p. repeat split; [left; reflexivity|exact Hsel|exact Hk]. }
        destruct (sendResult env hist (peerStrID p) _);
          destruct (forEachPeer _ sel rest h1) as [rest' h'];
          cbn [snd] in *; subst h'; unfold h1; rewrite <- app_assoc;
          (eexists; split; [reflexivity|]);
          (constructor; [exact Hhead|apply Hrest, Fa]).
    + destruct (IH hist) as (added & Ha & Fa).
      destruct (forEachPeer _ sel rest hist) as [rest' h']. cbn [snd] in *.
      exists added. split; [exact Ha|]. apply Hrest, Fa.
Qed.

(** X21. A transaction of another shard is forwarded only where it is
    new and where it belongs: everything [SendDifferentShardTx] adds to
    the history is a write of that transaction, with its chain number,
    to a peer of the set that did not know the transaction, and that
    peer is of the sender's shard unless the set holds no peer of that
    shard. *)
Theorem SendDifferentShardTx_targets env peers txMsg shard hist :
  exists added,
    snd (SendDifferentShardTx env peers txMsg shard hist) = hist ++ added
    /\ Forall (forwardOf peers txMsg shard) added.
Proof.
  unfold SendDifferentShardTx. cbv zeta.
  destruct (Nat.ltb_spec 0 (getPeerCountByShard peers shard)) as [Hpos|Hzero].
  - destruct (forEachPeer_sends env (tm_Tx txMsg) (tm_ChainNum txMsg)
                (ofShard shard) peers hist) as (added & Ha & Fa).
    exists added. split; [exact Ha|]. eapply Forall_impl; [exact Fa|].
    cbn beta. intros e (p & Hin & Hsel & He & Hk). exists p.
    repeat split; try assumption. left. apply Z.eqb_eq. exact Hsel.
  - destruct (forEachPeer_sends env (tm_Tx txMsg) (tm_ChainNum txMsg)
                (fun _ => true) peers hist) as (added & Ha & Fa).
    exists added. split; [exact Ha|]. eapply Forall_impl; [exact Fa|].
    cbn beta. intros e (p & Hin & Hsel & He & Hk). exists p.
    repeat split; try assumption. right. lia.
Qed.

Lemma forEachPeer_shards f sel :
  (forall p h, NodeShard (fst (f p h)) = NodeShard p) ->
  forall peers hist,
    map NodeShard (fst (forEachPeer f sel peers hist)) = map NodeShard peers.
Proof.
  intros Hf. induction peers as [|p rest IH]; intros hist; cbn [forEachPeer].
  - reflexivity.
  - destruct (sel p).
    + specialize (Hf p hist). destruct (f p hist) as [p' h1].
      specialize (IH h1). destruct (forEachPeer f sel rest h1) as [rest' h2].
      cbn [fst map] in *. congruence.
    + specialize (IH hist). destruct (forEachPeer f sel rest hist) as [rest' h2].
      cbn [fst map] in *. congruence.
Qed.

Lemma sendTxFun_shard env tx chainNum p h :
  NodeShard (fst (sendTxFun env tx chainNum p h)) = NodeShard p.
Proof.
  unfold sendTxFun. destruct (negb _); [|reflexivity].
  unfold send. destruct (sendResult env h _ _); reflexivity.
Qed.

Lemma getPeerCountByShard_shards peers peers' shard :
  map NodeShard peers' = map NodeShard peers ->
  getPeerCountByShard peers' shard = getPeerCountByShard peers shard.
Proof.
  unfold getPeerCountByShard, ofShard. revert peers'.
  induction peers as [|p rest IH]; intros [|p' rest'] Hm; try discriminate.
  - reflexivity.
  - cbn [map] in Hm. injection Hm as Hp Hrest.
    rewrite !filter_cons, Hp.
    destruct (decide ((NodeShard p =? shard) = true)); cbn [length];
      rewrite (IH rest' Hrest); reflexivity.
Qed.

Lemma sendTxFun_peer env tx chainNum p h :
  fst (sendTxFun env tx chainNum p h) = p
  \/ exists v, fst (sendTxFun env tx chainNum p h) = setKnownTxs v p.
Proof.
  unfold sendTxFun. destruct (negb _); [|left; reflexivity].
  unfold send. destruct (sendResult env h _ _); [left; reflexivity|].
  right. eexists. reflexivity.
Qed.

Lemma sendTxFun_after env tx chainNum p h h2 :
  (0 < knownCap env)%nat ->
  (forall h id m, sendResult env h id m = None) ->
  sendTxFun env tx chainNum (fst (sendTxFun env tx chainNum p h)) h2
  = (fst (sendTxFun env tx chainNum p h), h2).
Proof.
  intros Hcap Hok. unfold sendTxFun at 2 3.
  destruct (lruContains (tx_Hash tx) (knownTxs p)) eqn:Hk; cbn [negb].
  - cbn [fst]. unfold sendTxFun. rewrite Hk. reflexivity.
  - unfold send. rewrite Hok. cbn [fst]. unfold sendTxFun.
    cbn [knownTxs setKnownTxs].
    rewrite lruContains_lruAdd by exact Hcap. reflexivity.
Qed.

(** On a transport that does not fail and with a cache that holds at
    least one hash, a pass over the peers leaves nothing to send. *)
Lemma forEachPeer_silent env tx chainNum sel :
  (0 < knownCap env)%nat ->
  (forall h id m, sendResult env h id m = None) ->
  (forall p v, sel (setKnownTxs v p) = sel p) ->
  forall peers hist hist2,
    forEachPeer (sendTxFun env tx chainNum) sel
      (fst (forEachPeer (sendTxFun env tx chainNum) sel peers hist)) hist2
    = (fst (forEachPeer (sendTxFun env tx chainNum) sel peers hist), hist2).
Proof.
  intros Hcap Hok Hsel.
  induction peers as [|p rest IH]; intros hist hist2; cbn [forEachPeer].
  - reflexivity.
  - destruct (sel p) eqn:Hs.
    + pose proof (sendTxFun_after env tx chainNum p hist hist2 Hcap Hok) as Hp.
      assert (Hs' : sel (fst (sendTxFun env tx chainNum p hist)) = true).
      { destruct (sendTxFun_peer env tx chainNum p hist) as [ -> |[v ->]];
          [exact Hs|rewrite Hsel; exact Hs]. }
      destruct (sendTxFun env tx chainNum p hist) as [p' h1]. cbn [fst] in *.
      specialize (IH h1 hist2).
      destruct (forEachPeer _ sel rest h1) as [rest' h']. cbn [fst] in *.
      cbn [forEachPeer]. rewrite Hs', Hp, IH. reflexivity.
    + specialize (IH hist hist2).
      destruct (forEachPeer _ sel rest hist) as [rest' h']. cbn [fst] in *.
      cbn [forEachPeer]. rewrite Hs, IH. reflexivity.
Qed.

(** X22. Forwarding is not repeated: when the known-hash caches hold at
    least one hash and no write fails, forwarding the same transaction
    to the same shard a second time changes no peer and writes nothing,
    whatever the history has become. *)
Theorem SendDifferentShardTx_second_call_silent env peers txMsg shard
    hist hist2 :
  (0 < knownCap env)%nat ->
  (forall h id m, sendResult env h id m = None) ->
  SendDifferentShardTx env
    (fst (SendDifferentShardTx env peers txMsg shard hist)) txMsg shard hist2
  = (fst (SendDifferentShardTx env peers txMsg shard hist), hist2).
Proof.
  intros Hcap Hok.
  assert (Hcount :
    getPeerCountByShard (fst (SendDifferentShardTx env peers txMsg shard hist))
                        shard
    = getPeerCountByShard peers shard).
  { apply getPeerCountByShard_shards. unfold SendDifferentShardTx. cbv zeta.
    destruct (0 <? getPeerCountByShard peers shard)%nat;
      apply forEachPeer_shards; intros; apply sendTxFun_shard. }
  unfold SendDifferentShardTx at 1. cbv zeta. rewrite Hcount.
  unfold SendDifferentShardTx. cbv zeta.
  destruct (0 <? getPeerCountByShard peers shard)%nat.
  - apply forEachPeer_silent; [exact Hcap|exact Hok|reflexivity].
  - apply forEachPeer_silent; [exact Hcap|exact Hok|reflexivity].
Qed.

Lemma SendDifferentShardTx_second_call_silent_witness :
  SendDifferentShardTx servingEnv demoPeers demoTxMsg 1 []
  = ([setKnownTxs [77] localPeer; foreignPeer;
      {| peerStrID := 9; NodeShard := 1; knownTxs := [77]; knownBlocks := [];
         knownDebts := []; heads := ∅ |}],
     [ESend 8 (OutTransaction (tm_Tx demoTxMsg) 1)])
  /\ SendDifferentShardTx servingEnv
       (fst (SendDifferentShardTx servingEnv demoPeers demoTxMsg 1 []))
       demoTxMsg 1 [ESignalSync]
     = (fst (SendDifferentShardTx servingEnv demoPeers demoTxMsg 1 []),
        [ESignalSync]).
Proof.
  split; [vm_compute; reflexivity|].
  apply (SendDifferentShardTx_second_call_silent servingEnv demoPeers
           demoTxMsg 1 [] [ESignalSync]).
  - cbn. lia.
  - reflexivity.
Defined.

(** ** Sending the pending transactions to a new peer *)

Lemma fold_appendPending chainNum : forall txs st,
  pending (fold_left (appendPending chainNum) txs st)
  = pending st ++ replicate (length txs) txMsgAddr
  /\ cells (fold_left (appendPending chainNum) txs st) !! txMsgAddr
     = match last txs with
       | Some tx => Some {| tm_Tx := tx; tm_ChainNum := chainNum |}
       | None => cells st !! txMsgAddr
       end.
Proof.
  induction txs as [|tx rest IH]; intros st; cbn [fold_left].
  - cbn. now rewrite app_nil_r.
  - destruct (IH (appendPending chainNum st tx)) as [Hp Hc].
    rewrite Hp, Hc. cbn [appendPending pending cells length replicate].
    rewrite <- app_assoc. split; [reflexivity|].
    destruct rest as [|tx' rest'].
    + cbn. apply lookup_insert_eq.
    + rewrite last_cons_cons.
      destruct (last (tx' :: rest')) eqn:E; [reflexivity|].
      apply last_None in E. discriminate.
Qed.

Lemma last_app_or {A} (l1 l2 : list A) :
  last (l1 ++ l2) = match last l2 with Some x => Some x | None => last l1 end.
Proof.
  destruct l2 as [|x l2] using rev_ind.
  - now rewrite app_nil_r.
  - rewrite app_assoc, !last_snoc. reflexivity.
Qed.

(** After the loops every entry of [pending] is the address of [txMsg],
    and [txMsg] holds the last pending transaction. *)
Lemma fillPending_spec senv : forall n i st,
  pending (fillPending senv n i st)
  = pending st ++ replicate (length (pendingOfPools senv n i)) txMsgAddr
  /\ cells (fillPending senv n i st) !! txMsgAddr
     = match last (pendingOfPools senv n i) with
       | Some m => Some m
       | None => cells st !! txMsgAddr
       end.
Proof.
  induction n as [|n IH]; intros i st; cbn [fillPending].
  - cbn. now rewrite app_nil_r.
  - destruct (IH (S i) (fold_left (appendPending (Z.of_nat i))
                          (poolPending senv i) st)) as [Hp Hc].
    destruct (fold_appendPending (Z.of_nat i) (poolPending senv i) st)
      as [Hp1 Hc1].
    rewrite Hp, Hc, Hp1, Hc1. unfold pendingOfPools. cbn [seq flat_map].
    fold (pendingOfPools senv n (S i)).
    rewrite length_app, length_map, replicate_add, <- app_assoc.
    split; [reflexivity|]. rewrite last_app_or.
    destruct (last (pendingOfPools senv n (S i))); [reflexivity|].
    rewrite fmap_last.
    destruct (last (poolPending senv i)); reflexivity.
Qed.

Lemma deref_replicate st msg k :
  cells st !! txMsgAddr = Some msg ->
  deref st (replicate k txMsgAddr) = replicate k msg.
Proof.
  intros Hc. unfold deref. induction k as [|k IH]; [reflexivity|].
  cbn [replicate]. change (omap ?f (?a :: ?l))
    with (match f a with Some y => y :: omap f l | None => omap f l end).
  cbv beta. rewrite Hc, IH. reflexivity.
Qed.

Lemma slice_replicate {A} (a : A) N pos n :
  0 <= pos -> 0 <= n -> pos + n <= Z.of_nat N ->
  slice (replicate N a) pos n = replicate (Z.to_nat n) a.
Proof.
  intros H0 Hn Hle. unfold slice.
  rewrite drop_replicate, take_replicate. f_equal. lia.
Qed.

(** The rounds of the loop over a [pending] that holds [N] times the
    address of [txMsg]: every batch holds copies of the value of
    [txMsg], of a size between 1 and the batch size, the rounds given
    suffice, and no slice is out of range. *)
Lemma syncRounds_spec senv id st msg N :
  0 < txsyncPackSize senv ->
  pending st = replicate N txMsgAddr ->
  cells st !! txMsgAddr = Some msg ->
  forall rounds round curPos hist,
    0 <= curPos <= Z.of_nat N ->
    (Z.to_nat (Z.of_nat N - curPos) < rounds)%nat ->
    exists sizes,
      fst (syncRounds senv id st rounds round curPos hist)
      = hist ++ map (fun k => ESendTransactions id (replicate k msg)) sizes
      /\ Forall (fun k => (0 < k)%nat /\ Z.of_nat k <= txsyncPackSize senv) sizes
      /\ curPos + Z.of_nat (sum_list sizes) <= Z.of_nat N
      /\ snd (syncRounds senv id st rounds round curPos hist) <> SyncRoundsLeft
      /\ snd (syncRounds senv id st rounds round curPos hist) <> SyncSlicePanic
      /\ (snd (syncRounds senv id st rounds round curPos hist) = SyncFinished ->
          curPos + Z.of_nat (sum_list sizes) = Z.of_nat N)
      /\ ((forall k, quitSelected senv k = false) ->
          (forall h i b, sendTransactionsResult senv h i b = None) ->
          snd (syncRounds senv id st rounds round curPos hist) = SyncFinished).
Proof.
  intros Hpack Hpend Hcell.
  induction rounds as [|rounds IH]; intros round curPos hist Hpos Hfuel;
    [lia|].
  cbn [syncRounds]. rewrite Hpend, length_replicate.
  set (need0 := Z.of_nat N - curPos).
  set (needSend := if need0 >? txsyncPackSize senv
                   then txsyncPackSize senv else need0).
  assert (Hneed : 0 <= needSend <= need0 /\ needSend <= txsyncPackSize senv
                  /\ (needSend = 0 -> need0 = 0)).
  { unfold needSend. destruct (Z.gtb_spec need0 (txsyncPackSize senv)); lia. }
  destruct Hneed as (Hn1 & Hn2 & Hn3).
  destruct (Z.eqb_spec needSend 0) as [Hz|Hnz].
  { exists []. cbn [map sum_list_with]. unfold Datatypes.id. rewrite app_nil_r.
    destruct (quitSelected senv round) eqn:Hq; cbn [fst snd].
    - split; [reflexivity|]. split; [constructor|]. split; [lia|].
      split; [discriminate|]. split; [discriminate|].
      split; [discriminate|]. intros Hnq. rewrite Hnq in Hq. discriminate.
    - split; [reflexivity|]. split; [constructor|]. split; [lia|].
      split; [discriminate|]. split; [discriminate|].
      split; [intros _; unfold need0 in *; lia|]. reflexivity. }
  destruct (Z.ltb_spec needSend 0) as [Hneg|_]; [lia|].
  rewrite slice_replicate by (unfold need0 in *; lia).
  rewrite (deref_replicate st msg _ Hcell).
  set (batch := replicate (Z.to_nat needSend) msg).
  set (hist1 := hist ++ [ESendTransactions id batch]).
  assert (Hsize : Forall (fun k => (0 < k)%nat
                                   /\ Z.of_nat k <= txsyncPackSize senv)
                    [Z.to_nat needSend]).
  { constructor; [lia|constructor]. }
  assert (Hone : curPos + Z.of_nat (sum_list [Z.to_nat needSend])
                 <= Z.of_nat N).
  { change (sum_list [Z.to_nat needSend]) with (Z.to_nat needSend + 0)%nat.
    unfold need0 in *. lia. }
  destruct (quitSelected senv round) eqn:Hq.
  { exists [Z.to_nat needSend]. cbn [fst snd map].
    split; [reflexivity|]. split; [exact Hsize|]. split; [exact Hone|].
    split; [discriminate|]. split; [discriminate|].
    split; [discriminate|]. intros Hnq. rewrite Hnq in Hq. discriminate. }
  destruct (sendTransactionsResult senv hist id batch) as [e|] eqn:Hres.
  { exists [Z.to_nat needSend]. cbn [fst snd map].
    split; [reflexivity|]. split; [exact Hsize|]. split; [exact Hone|].
    split; [discriminate|]. split; [discriminate|].
    split; [discriminate|]. intros _ Hok. rewrite Hok in Hres. discriminate. }
  destruct (IH (S round) (curPos + needSend) hist1)
    as (sizes & Hh & Hs & Hsum & Hf & Hp & Hfin & Hall).
  { unfold need0 in *. lia. }
  { unfold need0 in *. lia. }
  exists (Z.to_nat needSend :: sizes). cbn [map].
  change (sum_list (Z.to_nat needSend :: sizes))
    with (Z.to_nat needSend + sum_list sizes)%nat.
  rewrite Hh. unfold hist1. rewrite <- app_assoc.
  split; [reflexivity|].
  split; [constructor; [lia|exact Hs]|].
  split; [lia|].
  split; [exact Hf|]. split; [exact Hp|].
  split; [intros Hend; specialize (Hfin Hend); lia|exact Hall].
Qed.

(** X23. Every transaction message [syncTransactions] writes is a copy
    of the last pending one: the entries of [pending] all point to the
    one variable [txMsg], so each batch written to the new peer holds
    only the last pending transaction of the highest non-empty pool,
    with that pool's chain number, once per entry. The batches go to
    that peer, are not empty and hold at most [txsyncPackSize]
    messages; in all they hold at most as many messages as there are
    pending transactions, and exactly as many when the loop ends on
    [errSyncFinished]. *)
Theorem syncTransactions_sends_last_only senv p :
  0 < txsyncPackSize senv ->
  exists sizes,
    fst (syncTransactions senv p)
    = flat_map (fun k =>
        match last (pendingOfPools senv NumOfChains 0) with
        | Some m => [ESendTransactions (peerStrID p) (replicate k m)]
        | None => []
        end) sizes
    /\ Forall (fun k => (0 < k)%nat /\ Z.of_nat k <= txsyncPackSize senv) sizes
    /\ (sum_list sizes <= length (pendingOfPools senv NumOfChains 0))%nat
    /\ (snd (syncTransactions senv p) = SyncFinished ->
        sum_list sizes = length (pendingOfPools senv NumOfChains 0)).
Proof.
  intros Hpack. unfold syncTransactions. cbv zeta.
  destruct (fillPending_spec senv NumOfChains 0 {| cells := ∅; pending := [] |})
    as [Hp Hc].
  cbn [pending cells app] in Hp, Hc.
  set (st := fillPending senv NumOfChains 0 {| cells := ∅; pending := [] |}) in *.
  rewrite Hp, length_replicate.
  destruct (pendingOfPools senv NumOfChains 0) as [|m0 ms] eqn:Hpools
    using rev_ind.
  { exists []. cbn [flat_map fst snd]. change (0 =? 0)%nat with true. cbv iota.
    cbn [fst snd]. split; [reflexivity|]. split; [constructor|].
    split; [cbn; lia|]. discriminate. }
  clear IHms. rewrite last_snoc in Hc |- *.
  rewrite length_app. cbn [length].
  replace (length ms + 1)%nat with (S (length ms)) by lia.
  change (S (length ms) =? 0)%nat with false. cbv iota.
  destruct (syncRounds_spec senv (peerStrID p) st m0 (S (length ms)) Hpack
              ltac:(rewrite Hp, length_app; cbn [length]; f_equal; lia) Hc
              (S (S (length ms))) 0%nat 0 [] ltac:(lia) ltac:(lia))
    as (sizes & Hh & Hs & Hsum & _ & _ & Hfin & _).
  exists sizes. rewrite Hh. cbn [app].
  split; [|split; [exact Hs|split; [lia|]]].
  - clear. induction sizes as [|k sizes IH]; [reflexivity|].
    cbn [map flat_map app]. rewrite IH. reflexivity.
  - intros Hend. specialize (Hfin Hend). lia.
Qed.

Lemma syncTransactions_sends_last_only_witness :
  syncTransactions demoSyncEnv localPeer
  = ([ESendTransactions 8 [{| tm_Tx := Miner.txWithHash 45; tm_ChainNum := 2 |};
                           {| tm_Tx := Miner.txWithHash 45; tm_ChainNum := 2 |}];
      ESendTransactions 8 [{| tm_Tx := Miner.txWithHash 45; tm_ChainNum := 2 |};
                           {| tm_Tx := Miner.txWithHash 45; tm_ChainNum := 2 |}];
      ESendTransactions 8 [{| tm_Tx := Miner.txWithHash 45; tm_ChainNum := 2 |}]],
     SyncFinished)
  /\ exists sizes,
       fst (syncTransactions demoSyncEnv localPeer)
       = flat_map (fun k =>
           match last (pendingOfPools demoSyncEnv NumOfChains 0) with
           | Some m => [ESendTransactions (peerStrID localPeer) (replicate k m)]
           | None => []
           end) sizes
       /\ Forall (fun k => (0 < k)%nat
                           /\ Z.of_nat k <= txsyncPackSize demoSyncEnv) sizes
       /\ (sum_list sizes
           <= length (pendingOfPools demoSyncEnv NumOfChains 0))%nat
       /\ (snd (syncTransactions demoSyncEnv localPeer) = SyncFinished ->
           sum_list sizes = length (pendingOfPools demoSyncEnv NumOfChains 0)).
Proof.
  split; [vm_compute; reflexivity|].
  apply (syncTransactions_sends_last_only demoSyncEnv localPeer).
  reflexivity.
Defined.

(** X24. [syncTransactions] comes to an end by itself: with a positive
    batch size, while [quitCh] is not taken and no write fails, the loop
    ends on [errSyncFinished] after writing as many messages as there
    are pending transactions; with no pending transaction it returns at
    once and writes nothing. *)
Theorem syncTransactions_finishes senv p :
  0 < txsyncPackSize senv ->
  (forall k, quitSelected senv k = false) ->
  (forall h i b, sendTransactionsResult senv h i b = None) ->
  (pendingOfPools senv NumOfChains 0 = []
   /\ syncTransactions senv p = ([], SyncNothingPending))
  \/ (pendingOfPools senv NumOfChains 0 <> []
      /\ snd (syncTransactions senv p) = SyncFinished
      /\ sum_list (map (fun e => length (batchOf e))
                       (fst (syncTransactions senv p)))
         = length (pendingOfPools senv NumOfChains 0)).
Proof.
  intros Hpack Hnq Hok. unfold syncTransactions. cbv zeta.
  destruct (fillPending_spec senv NumOfChains 0 {| cells := ∅; pending := [] |})
    as [Hp Hc].
  cbn [pending cells app] in Hp, Hc.
  set (st := fillPending senv NumOfChains 0 {| cells := ∅; pending := [] |}) in *.
  rewrite Hp, length_replicate.
  destruct (pendingOfPools senv NumOfChains 0) as [|m0 ms] eqn:Hpools
    using rev_ind.
  { left. split; reflexivity. }
  clear IHms. right. rewrite last_snoc in Hc.
  rewrite length_app. cbn [length].
  replace (length ms + 1)%nat with (S (length ms)) by lia.
  change (S (length ms) =? 0)%nat with false. cbv iota.
  destruct (syncRounds_spec senv (peerStrID p) st m0 (S (length ms)) Hpack
              ltac:(rewrite Hp, length_app; cbn [length]; f_equal; lia) Hc
              (S (S (length ms))) 0%nat 0 [] ltac:(lia) ltac:(lia))
    as (sizes & Hh & Hs & Hsum & _ & _ & Hfin & Hall).
  specialize (Hall Hnq Hok). specialize (Hfin Hall).
  split; [intros Hnil; destruct ms; discriminate|].
  split; [exact Hall|].
  rewrite Hh. cbn [app].
  assert (Hlen : sum_list (map (fun e => length (batchOf e))
                   (map (fun k => ESendTransactions (peerStrID p)
                                    (replicate k m0)) sizes))
                 = sum_list sizes).
  { clear. induction sizes as [|k sizes IH]; [reflexivity|].
    cbn [map batchOf].
    change (sum_list (?a :: ?l)) with (a + sum_list l)%nat.
    rewrite length_replicate, IH. reflexivity. }
  rewrite Hlen. lia.
Qed.

Lemma syncTransactions_finishes_witness :
  (pendingOfPools demoSyncEnv NumOfChains 0 = []
   /\ syncTransactions demoSyncEnv localPeer = ([], SyncNothingPending))
  \/ (pendingOfPools demoSyncEnv NumOfChains 0 <> []
      /\ snd (syncTransactions demoSyncEnv localPeer) = SyncFinished
      /\ sum_list (map (fun e => length (batchOf e))
                       (fst (syncTransactions demoSyncEnv localPeer)))
         = length (pendingOfPools demoSyncEnv NumOfChains 0)).
Proof.
  apply (syncTransactions_finishes demoSyncEnv localPeer);
    [reflexivity|reflexivity|reflexivity].
Defined.

(** ** Building the service *)

Lemma openChainDBs_spec b : forall n i dbs,
  Forall (fun d => closeCalls d = 0%nat) dbs ->
  Forall (fun d => closeCalls d = 0%nat) (fst (openChainDBs b n i dbs))
  /\ (snd (openChainDBs b n i dbs) = None ->
      length (fst (openChainDBs b n i dbs)) = (length dbs + n)%nat)
  /\ (snd (openChainDBs b n i dbs) <> None ->
      (length (fst (openChainDBs b n i dbs)) < length dbs + n)%nat)
  /\ (snd (openChainDBs b n i dbs) = None <->
      forallb (fun i => match NewLevelDB_chain b i with
                        | None => true
                        | _ => false
                        end) (seq i n) = true).
Proof.
  induction n as [|n IH]; intros i dbs Hd; cbn [openChainDBs seq forallb].
  - cbn [fst snd]. split; [exact Hd|]. split; [intros _; lia|].
    split; [congruence|tauto].
  - destruct (NewLevelDB_chain b i) as [e|].
    + cbn [fst snd andb]. split; [exact Hd|].
      split; [discriminate|]. split; [intros _; lia|]. split; discriminate.
    + cbn [andb].
      assert (Hd' : Forall (fun d => closeCalls d = 0%nat)
                      (dbs ++ [{| closeCalls := 0 |}])).
      { apply Forall_app. split; [exact Hd|]. repeat constructor. }
      destruct (IH (S i) _ Hd') as (H1 & H2 & H3 & H4).
      split; [exact H1|]. split; [|split; [|exact H4]].
      * intros Hn. rewrite (H2 Hn), length_app. cbn [length]. lia.
      * intros Hn. specialize (H3 Hn). rewrite length_app in H3.
        cbn [length] in H3. lia.
Qed.

Lemma Forall_CloseDB dbs :
  Forall (fun d => closeCalls d = 0%nat) dbs ->
  Forall (fun d => closeCalls d = 1%nat) (map CloseDB dbs).
Proof.
  intros H. apply Forall_map. eapply Forall_impl; [exact H|].
  cbn beta. intros d Hd. cbn. rewrite Hd. reflexivity.
Qed.

(** X25. What [NewSeeleService] does to the databases it opened when it
    fails. It never closes a database twice, and a service is returned
    only with all databases open. When the account database cannot be
    opened, or a later step than the account-state initialisation fails,
    every database that was opened is closed once. When a chain database
    cannot be opened, or the genesis state cannot be built, hashed or
    committed, the error is returned with every database opened so far
    left open. *)
Theorem NewSeeleService_databases b :
  match snd (NewSeeleService b) with
  | Ok s =>
      noneClosed (fst (NewSeeleService b))
      /\ chainDBs s = chainDBsOpened (fst (NewSeeleService b))
      /\ length (chainDBs s) = NumOfChains
      /\ accountDBOpened (fst (NewSeeleService b)) = Some (accountStateDB s)
  | Err _ =>
      if chainDBsOpen b then
        match NewLevelDB_account b with
        | Some _ =>
            closedOnce (fst (NewSeeleService b))
            /\ length (chainDBsOpened (fst (NewSeeleService b))) = NumOfChains
        | None =>
            length (chainDBsOpened (fst (NewSeeleService b))) = NumOfChains
            /\ accountDBOpened (fst (NewSeeleService b)) <> None
            /\ if stateInitOK b then closedOnce (fst (NewSeeleService b))
               else noneClosed (fst (NewSeeleService b))
        end
      else
        noneClosed (fst (NewSeeleService b))
        /\ (length (chainDBsOpened (fst (NewSeeleService b))) < NumOfChains)%nat
        /\ accountDBOpened (fst (NewSeeleService b)) = None
  end.
Proof.
  unfold NewSeeleService, chainDBsOpen.
  destruct (openChainDBs_spec b NumOfChains 0 [] (Forall_nil_2 _))
    as (Hzero & Hlen & Hlt & Hiff).
  destruct (openChainDBs b NumOfChains 0 []) as [dbs [e|]] eqn:Hopen;
    cbn [fst snd] in *.
  { destruct (forallb _ (seq 0 NumOfChains)) eqn:Hall.
    - destruct Hiff as [_ Hiff]. discriminate (Hiff eq_refl).
    - cbn [fst snd chainDBsOpened accountDBOpened]. split; [|split].
      + split; [exact Hzero|exact I].
      + apply Hlt. discriminate.
      + reflexivity. }
  rewrite (proj1 Hiff eq_refl). specialize (Hlen eq_refl). cbn [length] in Hlen.
  destruct (NewLevelDB_account b) as [e|].
  { cbn [fst snd chainDBsOpened accountDBOpened]. split.
    - split; [apply Forall_CloseDB, Hzero|exact I].
    - rewrite length_map. exact Hlen. }
  unfold stateInitOK.
  destruct (GetStateDB_err b) as [e|].
  { cbn [fst snd chainDBsOpened accountDBOpened].
    split; [exact Hlen|]. split; [discriminate|].
    split; [exact Hzero|reflexivity]. }
  destruct (statedbHash_err b) as [e|].
  { cbn [fst snd chainDBsOpened accountDBOpened].
    split; [exact Hlen|]. split; [discriminate|].
    split; [exact Hzero|reflexivity]. }
  destruct (batchCommit_err b) as [e|].
  { cbn [fst snd chainDBsOpened accountDBOpened].
    split; [exact Hlen|]. split; [discriminate|].
    split; [exact Hzero|reflexivity]. }
  destruct (initChains b NumOfChains 0) as [e|].
  { cbn [fst snd closeDBs chainDBsOpened accountDBOpened fmap option_fmap
         option_map].
    split; [rewrite length_map; exact Hlen|]. split; [discriminate|].
    split; [apply Forall_CloseDB, Hzero|reflexivity]. }
  destruct (initPoolLoop b NumOfChains 0 [] []) as [[heads started] [e|]].
  { cbn [fst snd closeDBs chainDBsOpened accountDBOpened fmap option_fmap
         option_map].
    split; [rewrite length_map; exact Hlen|]. split; [discriminate|].
    split; [apply Forall_CloseDB, Hzero|reflexivity]. }
  cbn [fst snd chainDBsOpened accountDBOpened chainDBs accountStateDB].
  split; [split; [exact Hzero|reflexivity]|].
  split; [reflexivity|]. split; [exact Hlen|reflexivity].
Qed.

(** ** The genesis state and the accounts *)

Lemma addGenesisAccount_lookup senv info s a amount addr :
  addGenesisAccount senv info s (a, amount) !! addr
  = if decide (addr = a) then
      if negb (IsShardEnabled senv) || (addrShard senv a =? ShardNumber info)
      then Some {| acc_Balance := amount; acc_Nonce := 0 |}
      else s !! addr
    else s !! addr.
Proof.
  unfold addGenesisAccount, SetBalance, CreateAccount.
  destruct (negb (IsShardEnabled senv) || (addrShard senv a =? ShardNumber info)).
  - rewrite lookup_insert_eq. cbn [acc_Nonce].
    destruct (decide (addr = a)) as [->|Hne].
    + rewrite lookup_insert_eq. reflexivity.
    + rewrite !lookup_insert_ne by congruence. reflexivity.
  - destruct (decide (addr = a)); reflexivity.
Qed.

Lemma fold_addGenesisAccount senv info : forall visited s addr,
  NoDup (visited.*1) ->
  fold_left (addGenesisAccount senv info) visited s !! addr
  = match (list_to_map visited : gmap Address Z) !! addr with
    | Some amount =>
        if negb (IsShardEnabled senv)
           || (addrShard senv addr =? ShardNumber info)
        then Some {| acc_Balance := amount; acc_Nonce := 0 |}
        else s !! addr
    | None => s !! addr
    end.
Proof.
  induction visited as [|[a amount] rest IH]; intros s addr Hnd.
  - cbn. rewrite lookup_empty. reflexivity.
  - cbn [fmap list_fmap fst] in Hnd. apply NoDup_cons in Hnd as [Hnotin Hnd].
    cbn [fold_left]. rewrite list_to_map_cons. rewrite IH by exact Hnd.
    rewrite addGenesisAccount_lookup.
    destruct (decide (addr = a)) as [->|Hne].
    + rewrite lookup_insert_eq.
      rewrite (not_elem_of_list_to_map_1 rest a Hnotin). reflexivity.
    + rewrite lookup_insert_ne by congruence.
      destruct (list_to_map rest !! addr); reflexivity.
Qed.

(** X26. The genesis state holds the accounts of the configured shard
    and no others, whatever the order in which the map of accounts is
    visited: when the state can be created, [GetStateDB] returns a
    state in which an address has an account exactly when the
    configuration lists it and sharding is off or the address is of the
    configured shard; the account then has the listed balance and nonce
    0. *)
Theorem GetStateDB_accounts senv info visited :
  visited ≡ₚ map_to_list (Accounts info) ->
  NewStatedb_err senv = None ->
  exists s,
    GetStateDBIn senv visited info = Ok s
    /\ GetStateDB senv info = Ok s
    /\ forall addr,
         s !! addr
         = if negb (IsShardEnabled senv)
              || (addrShard senv addr =? ShardNumber info)
           then (fun amount => {| acc_Balance := amount; acc_Nonce := 0 |})
                  <$> Accounts info !! addr
           else None.
Proof.
  intros Hperm Hnew.
  assert (Hspec : forall l, l ≡ₚ map_to_list (Accounts info) ->
    forall addr,
      fold_left (addGenesisAccount senv info) l (∅ : Statedb) !! addr
      = if negb (IsShardEnabled senv)
           || (addrShard senv addr =? ShardNumber info)
        then (fun amount => {| acc_Balance := amount; acc_Nonce := 0 |})
               <$> Accounts info !! addr
        else None).
  { intros l Hl addr. rewrite fold_addGenesisAccount.
    - assert (Hm : (list_to_map l : gmap Address Z) = Accounts info).
      { rewrite <- (list_to_map_to_list (Accounts info)).
        apply list_to_map_proper; [|exact Hl].
        rewrite Hl. apply NoDup_fst_map_to_list. }
      rewrite Hm, lookup_empty. unfold Address in *.
      destruct (Accounts info !! addr);
        destruct (negb (IsShardEnabled senv)
                  || (addrShard senv addr =? ShardNumber info)); reflexivity.
    - rewrite Hl. apply NoDup_fst_map_to_list. }
  exists (fold_left (addGenesisAccount senv info) visited ∅).
  unfold GetStateDB, GetStateDBIn. rewrite Hnew.
  split; [reflexivity|]. split.
  - f_equal. apply map_eq. intros addr.
    rewrite (Hspec _ (reflexivity _)), (Hspec _ Hperm). reflexivity.
  - apply Hspec, Hperm.
Qed.

Lemma GetStateDB_accounts_witness :
  exists s,
    GetStateDBIn shardedState (map_to_list (Accounts infoTwoAccounts))
                 infoTwoAccounts = Ok s
    /\ GetStateDB shardedState infoTwoAccounts = Ok s
    /\ forall addr,
         s !! addr
         = if negb (IsShardEnabled shardedState)
              || (addrShard shardedState addr =? ShardNumber infoTwoAccounts)
           then (fun amount => {| acc_Balance := amount; acc_Nonce := 0 |})
                  <$> Accounts infoTwoAccounts !! addr
           else None.
Proof.
  apply (GetStateDB_accounts shardedState infoTwoAccounts
           (map_to_list (Accounts infoTwoAccounts)));
    reflexivity.
Defined.

Section GenesisAccounts.
Context {deps : Deps}.
Hypothesis codec_ok : codecRoundTrips.

Lemma GetGenesis_header_eq info1 info2 :
  ShardNumber info1 = ShardNumber info2 ->
  Z.max 1 (Difficult info1) = Z.max 1 (Difficult info2) ->
  header (GetGenesis info1) = header (GetGenesis info2).
Proof.
  intros Hs Hd. unfold GetGenesis.
  destruct (Z.leb_spec (Difficult info1) 0), (Z.leb_spec (Difficult info2) 0);
    cbn [header Difficult ShardNumber]; rewrite Hs; f_equal; lia.
Qed.

(** X27. The genesis header does not commit to the accounts: two
    configurations of the same shard whose difficulties are equal once
    values below 1 are raised to 1 yield the same genesis header, so a
    store initialised from the one validates against the other, with
    no error and no change, whatever their accounts. In particular
    initialisation is repeatable. *)
Theorem genesis_ignores_accounts info1 info2 :
  isU64 (ShardNumber info2) ->
  ShardNumber info1 = ShardNumber info2 ->
  Z.max 1 (Difficult info1) = Z.max 1 (Difficult info2) ->
  header (GetGenesis info1) = header (GetGenesis info2)
  /\ InitializeAndValidate (GetGenesis info2)
       (fst (InitializeAndValidate (GetGenesis info1) emptyStore))
     = (fst (InitializeAndValidate (GetGenesis info1) emptyStore), None).
Proof.
  intros Hu Hs Hd.
  pose proof (GetGenesis_header_eq info1 info2 Hs Hd) as Hh.
  split; [exact Hh|].
  apply (InitializeAndValidate_match codec_ok info2 _ Hu).
  rewrite (InitializeAndValidate_fresh info1 emptyStore) by reflexivity.
  unfold storedGenesisMatches. rewrite <- Hh.
  exists {| HeaderHash := headerHash (header (GetGenesis info1));
            Header := header (GetGenesis info1);
            Transactions := []; block_ChainNum := 0 |}.
  cbn [Core.GetBlockHash Core.GetBlock Core.PutBlockHeader memStore
       ms_PutBlockHeader ms_GetBlockHash ms_GetBlock fst
       ms_heightToHash ms_headers ms_bodies emptyStore Header].
  change (Height (header (GetGenesis info1))) with 0.
  unfold ms_GetBlockHash, ms_GetBlock, genesisBlockHeight.
  cbn [ms_heightToHash ms_headers ms_bodies].
  rewrite !lookup_insert_eq, lookup_empty. cbn [default].
  repeat split.
Qed.

End GenesisAccounts.

Lemma infoOtherAccounts_isU64 : isU64 (ShardNumber infoOtherAccounts).
Proof. unfold isU64, MaxUint64. cbn. lia. Qed.

Lemma genesis_ignores_accounts_witness :
  header (GetGenesis (deps := rlpDeps) infoShard1)
  = header (GetGenesis (deps := rlpDeps) infoOtherAccounts)
  /\ InitializeAndValidate (deps := rlpDeps)
       (GetGenesis (deps := rlpDeps) infoOtherAccounts) storeShard1
     = (storeShard1, None).
Proof.
  apply (genesis_ignores_accounts (deps := rlpDeps) rlp_codec_roundtrips
           infoShard1 infoOtherAccounts infoOtherAccounts_isU64);
    reflexivity.
Defined.

(** Three runs of [NewSeeleService]: when every step succeeds the
    service is the one the head-change properties start from; a failed
    commit of the genesis state leaves the four databases open; a
    genesis that does not validate closes them. *)
Lemma NewSeeleService_runs :
  snd (NewSeeleService bootOK) = Ok (newService [11; 12; 13])
  /\ snd (NewSeeleService bootCommitFails) = Err (ErrOther 5)
  /\ fst (NewSeeleService bootCommitFails)
     = {| chainDBsOpened := replicate NumOfChains {| closeCalls := 0 |};
          accountDBOpened := Some {| closeCalls := 0 |};
          headListeners := 0; monitors := [] |}
  /\ snd (NewSeeleService bootGenesisFails) = Err ErrGenesisHashMismatch
  /\ fst (NewSeeleService bootGenesisFails)
     = {| chainDBsOpened := replicate NumOfChains {| closeCalls := 1 |};
          accountDBOpened := Some {| closeCalls := 1 |};
          headListeners := 0; monitors := [] |}.
Proof. repeat split. Qed.

(** ** Miner: what is announced was saved *)

Section Adds.
Variable env : Miner.Env.
Variable P : Miner.Effect -> Prop.

Lemma adds_ret {A} (a : A) : adds P (ret a).
Proof.
  intros w r w' H. apply ret_Done in H as [_ ->].
  exists []. rewrite app_nil_r. split; [reflexivity|constructor].
Qed.

Lemma adds_bind {A B} (c : M A) (k : A -> M B) :
  adds P c -> (forall a, adds P (k a)) -> adds P (bind c k).
Proof.
  intros Hc Hk w r w' H. apply bind_Done in H as (a & w1 & H1 & H2).
  destruct (Hc _ _ _ H1) as (a1 & E1 & F1).
  destruct (Hk _ _ _ _ H2) as (a2 & E2 & F2).
  exists (a1 ++ a2). rewrite E2, E1, app_assoc. split; [reflexivity|].
  apply Forall_app. split; assumption.
Qed.

Lemma adds_emit e : P e -> adds P (emit e).
Proof.
  intros He w r w' H. apply emit_Done in H as [E _].
  exists [e]. split; [exact E|repeat constructor; exact He].
Qed.

Lemma adds_same {A} (c : M A) :
  (forall w r w', c w = Done r w' -> effects w' = effects w) -> adds P c.
Proof.
  intros Hc w r w' H. exists []. rewrite app_nil_r.
  split; [eapply Hc; exact H|constructor].
Qed.

Lemma adds_modify f : adds P (modify f).
Proof. apply adds_same. intros w r w' H. apply modify_Done in H as [E _]. exact E. Qed.

Lemma adds_getMiner : adds P getMiner.
Proof.
  apply adds_same. intros w r w' H. apply getMiner_Done in H as [_ ->].
  reflexivity.
Qed.

Lemma adds_alloc : adds P alloc.
Proof. apply adds_same. intros w r w' H. apply alloc_Done in H as [_ E]. exact E. Qed.

Lemma adds_pollStop : adds P (pollStop env).
Proof.
  apply adds_same. intros w r w' H. apply pollStop_Done in H as [E _]. exact E.
Qed.

Lemma adds_Intn n : adds P (Intn env n).
Proof.
  apply adds_same. intros w r w' H. apply Intn_Done in H as (_ & _ & E & _).
  exact E.
Qed.

Lemma adds_Uint64 : adds P (Uint64 env).
Proof.
  unfold Uint64. apply adds_bind; [|intros; apply adds_ret].
  apply adds_same. intros w r w' H. apply draw_Done in H as [_ E]. exact E.
Qed.

Lemma adds_panic {A} why : adds P (@panic A why).
Proof. intros w r w' H. discriminate. Qed.

End Adds.

(** One step of a proof that a computation adds only effects of a
    kind: through the monad, its primitives and the case distinctions
    of the code. *)
Ltac adds_step :=
  first
    [ apply adds_ret
    | apply adds_modify
    | apply adds_getMiner
    | apply adds_alloc
    | apply adds_pollStop
    | apply adds_Intn
    | apply adds_Uint64
    | apply adds_panic
    | apply adds_emit; exact I
    | apply adds_bind; [|intros]
    | match goal with
      | |- adds _ (if ?b then _ else _) => destruct b
      | |- adds _ (match ?x with _ => _ end) => destruct x
      | |- adds _ (let '(_, _) := ?x in _) => destruct x
      end ].

Lemma keyMinerLoop_quiet env seed min max : forall n dp nonce f,
  adds notBlock (keyMinerLoop env n dp seed min max nonce f).
Proof.
  induction n as [|n IH]; intros dp nonce f; cbn [keyMinerLoop].
  - intros w r w' H. discriminate.
  - cbv zeta. repeat adds_step. apply IH.
Qed.

Lemma keyThreads_quiet env threads step : forall idxs dp f,
  adds notBlock (keyThreads env idxs threads step dp f).
Proof.
  induction idxs as [|i rest IH]; intros dp f; cbn [keyThreads].
  - apply adds_ret.
  - cbv zeta. apply adds_bind; [repeat adds_step|]. intros seed.
    apply adds_bind; [apply keyMinerLoop_quiet|]. intros r.
    apply adds_bind; [apply adds_emit; exact I|]. intros _. apply IH.
Qed.

Lemma commitTaskToKeyMining_quiet env dp :
  adds notBlock (commitTaskToKeyMining env dp).
Proof.
  unfold commitTaskToKeyMining. cbv zeta.
  apply adds_bind; [apply adds_getMiner|]. intros m.
  destruct (negb (mining m =? 1)); [apply adds_ret|].
  apply adds_bind; [apply keyThreads_quiet|]. intros _. apply adds_ret.
Qed.

Lemma getMiningKeyLoop_quiet env : forall idxs heights txHashes,
  adds notBlock (getMiningKeyLoop env idxs heights txHashes).
Proof.
  induction idxs as [|i rest IH]; intros heights txHashes;
    cbn [getMiningKeyLoop].
  - apply adds_ret.
  - cbv zeta. destruct (chainHeight env i >? _).
    + apply adds_bind; [apply adds_Intn|]. intros r.
      destruct (GetBlockByHeight env i _) as [blk|e]; [|apply adds_ret].
      apply adds_bind; [apply adds_Intn|]. intros k.
      destruct (Transactions blk !! Z.to_nat k); [apply IH|apply adds_panic].
    + repeat adds_step.
Qed.

Lemma getMiningKey_quiet env : adds notBlock (getMiningKey env).
Proof.
  unfold getMiningKey. apply adds_bind; [apply getMiningKeyLoop_quiet|].
  intros [e|hs ts]; [apply adds_ret|].
  apply adds_bind; [apply commitTaskToKeyMining_quiet|]. intros _.
  apply adds_ret.
Qed.

Lemma commitTask_quiet task : adds notBlock (commitTask task).
Proof. unfold commitTask. repeat adds_step. Qed.

Lemma prepareNewBlock_quiet env chainNum :
  adds notBlock (prepareNewBlock env chainNum).
Proof.
  unfold prepareNewBlock. cbv zeta.
  destruct (GetCurrentInfo env chainNum) as [parent|e]; [|apply adds_ret].
  apply adds_bind; [repeat adds_step|]. intros _.
  apply adds_bind; [apply adds_getMiner|]. intros m.
  apply adds_bind; [apply adds_alloc|]. intros id.
  apply adds_bind; [apply adds_modify|]. intros _.
  destruct (snd _); [apply adds_ret|].
  apply adds_bind; [apply commitTask_quiet|]. intros _.
  apply adds_ret.
Qed.

Lemma NewMiningLoop_quiet env : adds notBlock (NewMiningLoop env).
Proof.
  unfold NewMiningLoop. apply adds_bind; [apply getMiningKey_quiet|].
  intros [e|]; [apply adds_ret|].
  apply adds_bind; [apply adds_getMiner|]. intros m.
  apply prepareNewBlock_quiet.
Qed.

Lemma Start_quiet env : adds notBlock (Start env).
Proof.
  unfold Start. apply adds_bind; [apply adds_getMiner|]. intros m.
  destruct (mining m =? 1); [repeat adds_step|].
  destruct (canStart m =? 0); [repeat adds_step|].
  destruct (negb (mining m =? 0)); [repeat adds_step|].
  apply adds_bind; [apply adds_modify|]. intros _.
  apply adds_bind; [apply adds_alloc|]. intros c.
  apply adds_bind; [apply adds_modify|]. intros _.
  apply adds_bind; [apply NewMiningLoop_quiet|]. intros [e|];
    repeat adds_step.
Qed.

Lemma stopMining_quiet : adds notBlock stopMining.
Proof. unfold stopMining. repeat adds_step. Qed.

Lemma newTxCallback_quiet env : adds notBlock (newTxCallback env).
Proof.
  unfold newTxCallback. apply adds_bind; [apply adds_getMiner|]. intros m.
  destruct (_ && _); [|apply adds_ret].
  apply adds_bind; [apply adds_modify|]. intros _.
  apply adds_bind; [apply NewMiningLoop_quiet|]. intros [e|];
    repeat adds_step.
Qed.

Lemma downloaderEventCallback_quiet env e :
  adds notBlock (downloaderEventCallback env e).
Proof.
  unfold downloaderEventCallback.
  apply adds_bind; [apply adds_getMiner|]. intros m.
  destruct (isFirstDownloader m =? 0); [apply adds_ret|].
  destruct e.
  - apply adds_bind; [apply adds_modify|]. intros _.
    apply adds_bind; [apply adds_getMiner|]. intros m'.
    destruct (IsMining m'); [apply stopMining_quiet|apply adds_ret].
  - apply adds_bind; [apply adds_modify|]. intros _.
    apply adds_bind; [apply adds_modify|]. intros _.
    apply adds_bind; [apply adds_getMiner|]. intros m'.
    destruct (stopped m' =? 0); [|apply adds_ret].
    apply adds_bind; [apply Start_quiet|]. intros _. apply adds_ret.
  - apply adds_bind; [apply adds_modify|]. intros _.
    apply adds_bind; [apply adds_modify|]. intros _.
    apply adds_bind; [apply adds_getMiner|]. intros m'.
    destruct (stopped m' =? 0); [|apply adds_ret].
    apply adds_bind; [apply Start_quiet|]. intros _. apply adds_ret.
  - apply adds_ret.
Qed.

Lemma announcedAfterWrite_quiet env : forall added prev,
  Forall notBlock added -> announcedAfterWrite env prev added.
Proof.
  induction added as [|e rest IH]; intros prev F; cbn [announcedAfterWrite].
  - exact I.
  - apply Forall_cons in F as [He F]. split; [|apply IH, F].
    destruct e; try exact I. destruct He.
Qed.

Lemma announcedAfterWrite_app env : forall es1 prev es2,
  announcedAfterWrite env prev es1 ->
  announcedAfterWrite env (match last es1 with
                           | Some e => Some e
                           | None => prev
                           end) es2 ->
  announcedAfterWrite env prev (es1 ++ es2).
Proof.
  induction es1 as [|e rest IH]; intros prev es2 H1 H2; cbn [app].
  - exact H2.
  - cbn [announcedAfterWrite] in *. destruct H1 as [He H1].
    split; [exact He|]. apply IH; [exact H1|].
    destruct rest as [|e' rest']; [exact H2|].
    rewrite last_cons_cons in H2.
    destruct (last (e' :: rest')) eqn:E; [exact H2|].
    apply last_None in E. discriminate.
Qed.

(** What a call adds to the history keeps announcements behind
    successful writes. *)
Lemma run_announces env c w w' :
  run env c w = Done tt w' ->
  exists added,
    effects w' = effects w ++ added
    /\ forall prev, announcedAfterWrite env prev added.
Proof.
  assert (Hq : forall (m : M unit) w w',
    adds notBlock m -> m w = Done tt w' ->
    exists added, effects w' = effects w ++ added
                  /\ forall prev, announcedAfterWrite env prev added).
  { intros m w0 w1 Hm H. destruct (Hm _ _ _ H) as (added & E & F).
    exists added. split; [exact E|]. intros prev.
    apply announcedAfterWrite_quiet, F. }
  destruct c; cbn [run]; intros H.
  - eapply Hq; [|exact H]. apply adds_bind; [apply Start_quiet|].
    intros _. apply adds_ret.
  - eapply Hq; [|exact H]. unfold Stop.
    apply adds_bind; [apply adds_modify|]. intros _. apply stopMining_quiet.
  - eapply Hq; [|exact H]. apply downloaderEventCallback_quiet.
  - eapply Hq; [|exact H]. apply newTxCallback_quiet.
  - unfold waitBlockRecv in H.
    apply bind_Done in H as (m & w1 & Hg & H).
    apply getMiner_Done in Hg as [-> ->].
    apply bind_Done in H as (u & w2 & Hres & H).
    assert (Htail : adds notBlock
                      (modify (setMining 0) ;; newTxCallback env)).
    { apply adds_bind; [apply adds_modify|]. intros _.
      apply newTxCallback_quiet. }
    destruct (Htail _ _ _ H) as (tail & Et & Ft).
    assert (Hpre : exists pre, effects w2 = effects w ++ pre
                   /\ forall prev, announcedAfterWrite env prev pre).
    { destruct r as [res|].
      - destruct (match current (miner w) with
                  | Some t => task_id t =? task_id (res_task res)
                  | None => false
                  end).
        + apply bind_Done in Hres as (u1 & w3 & He & Hres).
          apply emit_Done in He as [E3 _].
          destruct (WriteBlock env (res_block res)) as [e|] eqn:Hw.
          * apply emit_Done in Hres as [E2 _].
            exists [Miner.EWriteBlock (res_block res); ELog (LogWarnErr e)].
            rewrite E2, E3, <- app_assoc. split; [reflexivity|].
            intros prev. cbn. tauto.
          * apply emit_Done in Hres as [E2 _].
            exists [Miner.EWriteBlock (res_block res);
                    EFireBlockMined (res_block res)].
            rewrite E2, E3, <- app_assoc. split; [reflexivity|].
            intros prev. cbn. tauto.
        + apply ret_Done in Hres as [_ ->]. exists [].
          rewrite app_nil_r. split; [reflexivity|]. intros prev. exact I.
      - apply ret_Done in Hres as [_ ->]. exists [].
        rewrite app_nil_r. split; [reflexivity|]. intros prev. exact I. }
    destruct Hpre as (pre & Ep & Fp).
    exists (pre ++ tail). rewrite Et, Ep, app_assoc.
    split; [reflexivity|]. intros prev.
    apply announcedAfterWrite_app; [apply Fp|].
    apply announcedAfterWrite_quiet, Ft.
  - eapply Hq; [|exact H]. unfold SetThreads.
    destruct (u64 n =? 0); apply adds_modify.
Qed.

(** X28. What the miner announces it has saved: in the history of every
    state a miner reaches from [NewMiner] through Start, Stop,
    downloader events, transaction events, delivered results and
    SetThreads, each firing of the block-mined event comes right after
    the write of that same block to its chain, and that write returned
    no error. *)
Theorem announced_blocks_were_saved env w :
  reachable env w -> announcedAfterWrite env None (effects w).
Proof.
  induction 1 as [addr|w c w' Hr IH Hrun].
  - exact I.
  - destruct (run_announces env c w w' Hrun) as (added & E & F).
    rewrite E. apply announcedAfterWrite_app; [exact IH|apply F].
Qed.

Lemma reachable_runAll env : forall calls w w',
  reachable env w -> runAll env calls w = Done tt w' -> reachable env w'.
Proof.
  induction calls as [|c rest IH]; intros w w' Hr H; cbn [runAll] in H.
  - apply ret_Done in H as [_ ->]. exact Hr.
  - apply bind_Done in H as ([] & w1 & H1 & H2).
    apply (IH w1 w'); [|exact H2]. eapply reach_call; [exact Hr|exact H1].
Qed.

Lemma announced_blocks_were_saved_witness :
  exists w,
    runAll envAtGenesis [CallStart; CallBlockResult (Some firstResult)]
           (NewMiner 0) = Done tt w
    /\ In (EFireBlockMined (res_block firstResult)) (effects w)
    /\ announcedAfterWrite envAtGenesis None (effects w).
Proof.
  eexists. split; [vm_compute; reflexivity|].
  split; [vm_compute; tauto|].
  apply (announced_blocks_were_saved envAtGenesis).
  apply (reachable_runAll envAtGenesis
           [CallStart; CallBlockResult (Some firstResult)] (NewMiner 0));
    [apply reach_new|vm_compute; reflexivity].
Defined.

(** ** Service: the monitors of a service as it is built *)

Lemma initPoolLoop_spec b : forall n i heads started hs st,
  initPoolLoop b n i heads started = (hs, st, None) ->
  exists new,
    hs = heads ++ new /\ length new = n
    /\ length st = (length started + n)%nat
    /\ forall k h, new !! k = Some h -> GetHeadBlockHash b (i + k) = Ok h.
Proof.
  induction n as [|n IH]; intros i heads started hs st; cbn [initPoolLoop].
  - intros [= <- <-]. exists []. rewrite app_nil_r.
    repeat split; [lia|]. intros k h Hk. destruct k; discriminate.
  - destruct (GetHeadBlockHash b i) as [h0|e] eqn:Hh; [|discriminate].
    intros Hrun. destruct (IH _ _ _ _ _ Hrun) as (new & -> & Hlen & Hst & Hk).
    exists (h0 :: new). rewrite <- app_assoc. split; [reflexivity|].
    split; [cbn [length]; lia|].
    split; [rewrite Hst, length_app; cbn [length]; lia|].
    intros [|k] h Hlook.
    + injection Hlook as <-. rewrite Nat.add_0_r. exact Hh.
    + replace (i + S k)%nat with (S i + k)%nat by lia. apply Hk. exact Hlook.
Qed.

(** The service [NewSeeleService] returns: its channels are empty and
    the head recorded for each chain is the head hash read from the
    store of that chain by [initPool]. *)
Lemma NewSeeleService_built b s :
  snd (NewSeeleService b) = Ok s ->
  chainHeaderChangeChannels s = replicate NumOfChains []
  /\ length (lastHeaders s) = NumOfChains
  /\ forall c h, lastHeaders s !! c = Some h -> GetHeadBlockHash b c = Ok h.
Proof.
  unfold NewSeeleService.
  destruct (openChainDBs b NumOfChains 0 []) as [dbs [e|]]; [discriminate|].
  destruct (NewLevelDB_account b); [discriminate|].
  destruct (GetStateDB_err b); [discriminate|].
  destruct (statedbHash_err b); [discriminate|].
  destruct (batchCommit_err b); [discriminate|].
  destruct (initChains b NumOfChains 0); [discriminate|].
  destruct (initPoolLoop b NumOfChains 0 [] []) as [[heads started] [e|]]
    eqn:Hpool; [discriminate|].
  destruct (initPoolLoop_spec b _ _ _ _ _ _ Hpool)
    as (new & Hnew & Hlen & Hst & Hk).
  cbn [app length] in Hnew, Hst. subst heads.
  cbn [snd]. intros [= <-].
  cbn [chainHeaderChangeChannels lastHeaders].
  split; [rewrite Hst; reflexivity|]. split; [exact Hlen|].
  intros c h Hc. apply (Hk c h Hc).
Qed.

Lemma last_head_nonempty : forall received lastHeader,
  IsEmpty lastHeader = false ->
  Forall (fun h => IsEmpty h = false) received ->
  IsEmpty (fold_left (fun _ h => h) received lastHeader) = false.
Proof.
  induction received as [|h rest IH]; intros lastHeader Hl Hr; [exact Hl|].
  apply Forall_cons in Hr as [Hh Hrest]. cbn [fold_left]. apply IH; assumption.
Qed.

(** C7. Chain-head events reach the pools in order, for as long as they
    come. Take a service as [NewSeeleService] returns it, on stores
    whose head hashes are not empty, and one of its chains [c]. The head
    recorded for [c] is the head hash of its store. Whatever sequence
    of heads arrives on the channel of [c], the loop of
    [MonitorChainHeaderChange] hands every one of them to the
    transaction pool and to the debt pool of [c], in the order of
    arrival, each with the head recorded just before it, consumes them
    all and waits for more. A listener puts a head on a channel only if
    it is not empty, and at the end of the channel of the head's own
    chain. And in the service itself: when up to a buffer of head
    changes arrive, every listener completes, the monitor of [c] makes
    the calls owed for the heads of [c], and leaves the channel empty
    and a non-empty head recorded, so that the same holds for what
    arrives next. *)
Theorem C7_head_changes_reach_pools_in_order b s c :
  snd (NewSeeleService b) = Ok s ->
  (forall i h, GetHeadBlockHash b i = Ok h -> IsEmpty h = false) ->
  (c < NumOfChains)%nat ->
  exists lastHeader,
    lastHeaders s !! c = Some lastHeader
    /\ GetHeadBlockHash b c = Ok lastHeader
    /\ IsEmpty lastHeader = false
    /\ (forall received,
          Forall (fun h => IsEmpty h = false) received ->
          monitorLoop c lastHeader received
          = (expectedCalls c lastHeader received,
             fold_left (fun _ h => h) received lastHeader, [],
             MonitorWaiting))
    /\ (forall e s0 s1,
          chainHeaderChanged e s0 = (s1, Sent) ->
          IsEmpty (chm_HeaderHash e) = false
          /\ exists q,
               chainHeaderChangeChannels s0 !! Z.to_nat (chm_ChainNum e)
               = Some q
               /\ chainHeaderChangeChannels s1
                  = <[Z.to_nat (chm_ChainNum e) := q ++ [chm_HeaderHash e]]>
                      (chainHeaderChangeChannels s0))
    /\ (forall es,
          Forall (fun e => 0 <= chm_ChainNum e < Z.of_nat NumOfChains) es ->
          (length es <= chainHeaderChangeBuffSize)%nat ->
          exists s1 s',
            deliver es s [] = Some (s1, [])
            /\ MonitorChainHeaderChange c s1
               = (s', expectedCalls c lastHeader (headsFor c es),
                  MonitorWaiting)
            /\ chainHeaderChangeChannels s' !! c = Some []
            /\ lastHeaders s' !! c
               = Some (fold_left (fun _ h => h) (headsFor c es) lastHeader)
            /\ IsEmpty (fold_left (fun _ h => h) (headsFor c es) lastHeader)
               = false).
Proof.
  intros Hbuilt Hstore Hc.
  destruct (NewSeeleService_built b s Hbuilt) as (Hch & Hlen & Hheads).
  destruct (lookup_lt_is_Some_2 (lastHeaders s) c) as [lastHeader Hlast];
    [rewrite Hlen; exact Hc|].
  pose proof (Hheads c lastHeader Hlast) as Hread.
  pose proof (Hstore c lastHeader Hread) as Hne.
  exists lastHeader. split; [exact Hlast|]. split; [exact Hread|].
  split; [exact Hne|]. split; [|split].
  - intros received Hr. apply monitorLoop_with_head; assumption.
  - intros e s0 s1 Hsent.
    destruct (chainHeaderChanged_Sent e s0 s1 Hsent) as (He & _ & Hq).
    split; [exact He|exact Hq].
  - intros es Hes Hsize.
    destruct (monitor_after_deliver es s c lastHeader Hch Hlast Hne Hc Hes Hsize)
      as (s1 & s' & Hd & Hm & Hq & Hl).
    exists s1, s'. split; [exact Hd|]. split; [exact Hm|].
    split; [exact Hq|]. split; [exact Hl|].
    apply last_head_nonempty; [exact Hne|apply headsFor_nonempty].
Qed.

Lemma bootOK_heads_nonempty :
  forall i h, GetHeadBlockHash bootOK i = Ok h -> IsEmpty h = false.
Proof.
  intros i h [= <-]. unfold IsEmpty, EmptyHash. apply Z.eqb_neq. lia.
Qed.

Lemma C7_head_changes_reach_pools_in_order_witness :
  snd (NewSeeleService bootOK) = Ok (newService [11; 12; 13])
  /\ exists lastHeader,
    lastHeaders (newService [11; 12; 13]) !! 1%nat = Some lastHeader
    /\ GetHeadBlockHash bootOK 1 = Ok lastHeader
    /\ IsEmpty lastHeader = false
    /\ (forall received,
          Forall (fun h => IsEmpty h = false) received ->
          monitorLoop 1 lastHeader received
          = (expectedCalls 1 lastHeader received,
             fold_left (fun _ h => h) received lastHeader, [],
             MonitorWaiting))
    /\ (forall e s0 s1,
          chainHeaderChanged e s0 = (s1, Sent) ->
          IsEmpty (chm_HeaderHash e) = false
          /\ exists q,
               chainHeaderChangeChannels s0 !! Z.to_nat (chm_ChainNum e)
               = Some q
               /\ chainHeaderChangeChannels s1
                  = <[Z.to_nat (chm_ChainNum e) := q ++ [chm_HeaderHash e]]>
                      (chainHeaderChangeChannels s0))
    /\ (forall es,
          Forall (fun e => 0 <= chm_ChainNum e < Z.of_nat NumOfChains) es ->
          (length es <= chainHeaderChangeBuffSize)%nat ->
          exists s1 s',
            deliver es (newService [11; 12; 13]) [] = Some (s1, [])
            /\ MonitorChainHeaderChange 1 s1
               = (s', expectedCalls 1 lastHeader (headsFor 1 es),
                  MonitorWaiting)
            /\ chainHeaderChangeChannels s' !! 1%nat = Some []
            /\ lastHeaders s' !! 1%nat
               = Some (fold_left (fun _ h => h) (headsFor 1 es) lastHeader)
            /\ IsEmpty (fold_left (fun _ h => h) (headsFor 1 es) lastHeader)
               = false).
Proof.
  split; [reflexivity|].
  apply (C7_head_changes_reach_pools_in_order bootOK
           (newService [11; 12; 13]) 1%nat eq_refl bootOK_heads_nonempty).
  unfold NumOfChains. lia.
Defined.
